(** * Connector-line subsystem of the year-circle canvas

    A shallow embedding of the connector geometry, the path model, the
    connection-line adjuster and the record manager's load-time validation,
    followed by the properties proved about them.  Around them: the
    adjuster's event handlers and what it saves, the card positions of the
    interaction handler, the format check of the storage manager, the date
    utilities and the date ring the connectors start from.

    Two number models are used.  The geometry engine (square roots, general
    division) is embedded over the real numbers [R]: a JavaScript number is
    idealised as the real it denotes and rounding is not modelled.  Everything
    that prints numbers into, or parses them out of, an SVG path string is
    embedded over [JSNumber.number], exact decimal fractions together with
    [NaN] and the two infinities. *)

From stdpp Require Import gmap strings list fin_maps.
From Stdlib Require Import Reals Lra List Bool.
From Stdlib Require Import ZArith NArith Lia String Ascii.
From Stdlib Require Import Decimal DecimalString DecimalN DecimalPos.
Import ListNotations.

(** ** GeometryEngine (class CircleRenderer) *)

Module Geometry.
Local Open Scope R_scope.

Record Point := mkPoint { x : R; y : R }.

(** An entry of [edgePoints]: a candidate with its distance to the target. *)
Record EdgePoint := mkEdgePoint { ex : R; ey : R; distance : R }.

(** The comparison operators [>=], [<=], [>] and [===] on numbers. *)
Definition geb (a b : R) : bool := if Rle_dec b a then true else false.
Definition leb (a b : R) : bool := if Rle_dec a b then true else false.
Definition gtb (a b : R) : bool := if Rlt_dec b a then true else false.
Definition ltb (a b : R) : bool := if Rlt_dec a b then true else false.
Definition eqb (a b : R) : bool := if Req_dec_T a b then true else false.

(** [Array.prototype.sort] with a comparator is a stable sort; the comparator
    of [calculateClosestEdgePoint] is [(a, b) => a.distance - b.distance].
    [insertSorted] puts [p] in front of the first entry that is not strictly
    closer, which keeps entries of equal distance in their original order. *)
Fixpoint insertSorted (p : EdgePoint) (l : list EdgePoint) : list EdgePoint :=
  match l with
  | [] => [p]
  | q :: l' => if ltb (distance q - distance p) 0 then q :: insertSorted p l'
               else p :: q :: l'
  end.

Fixpoint sort (l : list EdgePoint) : list EdgePoint :=
  match l with
  | [] => []
  | p :: l' => insertSorted p (sort l')
  end.

Definition calculateForcedConnectionPoint
    (targetX targetY cardX cardY cardWidth cardHeight minDistance : R) : Point :=
  let centerX := cardX + cardWidth / 2 in
  let centerY := cardY + cardHeight / 2 in
  let dx := targetX - centerX in
  let dy := targetY - centerY in
  let distance := sqrt (dx * dx + dy * dy) in
  if eqb distance 0 then
    {| x := cardX - minDistance; y := centerY |}
  else
    let normalizedDx := dx / distance in
    let normalizedDy := dy / distance in
    let absNormalizedDx := Rabs normalizedDx in
    let absNormalizedDy := Rabs normalizedDy in
    if gtb absNormalizedDx absNormalizedDy then
      if gtb normalizedDx 0 then
        let connectionX := cardX + cardWidth in
        let connectionY :=
          centerY + (connectionX - centerX) * normalizedDy / normalizedDx in
        {| x := connectionX;
           y := Rmax cardY (Rmin (cardY + cardHeight) connectionY) |}
      else
        let connectionX := cardX in
        let connectionY :=
          centerY + (connectionX - centerX) * normalizedDy / normalizedDx in
        {| x := connectionX;
           y := Rmax cardY (Rmin (cardY + cardHeight) connectionY) |}
    else
      if gtb normalizedDy 0 then
        let connectionY := cardY + cardHeight in
        let connectionX :=
          centerX + (connectionY - centerY) * normalizedDx / normalizedDy in
        {| x := Rmax cardX (Rmin (cardX + cardWidth) connectionX);
           y := connectionY |}
      else
        let connectionY := cardY in
        let connectionX :=
          centerX + (connectionY - centerY) * normalizedDx / normalizedDy in
        {| x := Rmax cardX (Rmin (cardX + cardWidth) connectionX);
           y := connectionY |}.

Definition MIN_CONNECTION_LENGTH : R := 20.

(** The test that sends [calculateClosestEdgePoint] to the forced fallback. *)
Definition isInsideOrTooClose
    (targetX targetY cardX cardY cardWidth cardHeight : R) : bool :=
  let left := cardX in
  let right := cardX + cardWidth in
  let top := cardY in
  let bottom := cardY + cardHeight in
  geb targetX (left - MIN_CONNECTION_LENGTH) &&
  leb targetX (right + MIN_CONNECTION_LENGTH) &&
  geb targetY (top - MIN_CONNECTION_LENGTH) &&
  leb targetY (bottom + MIN_CONNECTION_LENGTH).

(** The array [edgePoints], in the order of the pushes: left, right, top,
    bottom. *)
Definition edgePoints
    (targetX targetY cardX cardY cardWidth cardHeight : R) : list EdgePoint :=
  let left := cardX in
  let right := cardX + cardWidth in
  let top := cardY in
  let bottom := cardY + cardHeight in
  let leftPoint :=
    {| ex := left;
       ey := Rmax top (Rmin bottom targetY);
       distance := sqrt ((targetX - left) ^ 2
                         + (targetY - Rmax top (Rmin bottom targetY)) ^ 2) |} in
  let rightPoint :=
    {| ex := right;
       ey := Rmax top (Rmin bottom targetY);
       distance := sqrt ((targetX - right) ^ 2
                         + (targetY - Rmax top (Rmin bottom targetY)) ^ 2) |} in
  let topPoint :=
    {| ex := Rmax left (Rmin right targetX);
       ey := top;
       distance := sqrt ((targetX - Rmax left (Rmin right targetX)) ^ 2
                         + (targetY - top) ^ 2) |} in
  let bottomPoint :=
    {| ex := Rmax left (Rmin right targetX);
       ey := bottom;
       distance := sqrt ((targetX - Rmax left (Rmin right targetX)) ^ 2
                         + (targetY - bottom) ^ 2) |} in
  [leftPoint; rightPoint; topPoint; bottomPoint].

Definition calculateClosestEdgePoint
    (targetX targetY cardX cardY cardWidth cardHeight : R) : Point :=
  if isInsideOrTooClose targetX targetY cardX cardY cardWidth cardHeight then
    calculateForcedConnectionPoint targetX targetY cardX cardY
      cardWidth cardHeight MIN_CONNECTION_LENGTH
  else
    let validEdgePoints :=
      List.filter (fun point => geb (distance point) MIN_CONNECTION_LENGTH)
        (edgePoints targetX targetY cardX cardY cardWidth cardHeight) in
    (* sorting permutes: the sorted array is empty exactly when
       [validEdgePoints.length === 0] *)
    match sort validEdgePoints with
    | [] =>
        calculateForcedConnectionPoint targetX targetY cardX cardY
          cardWidth cardHeight MIN_CONNECTION_LENGTH
    | first :: _ => {| x := ex first; y := ey first |}
    end.

(** Euclidean distance between two points. *)
Definition dist (p q : Point) : R :=
  sqrt ((x p - x q) ^ 2 + (y p - y q) ^ 2).

(** [onEdge p cardX cardY cardWidth cardHeight]: [p] lies on one of the four
    edges of the card: one coordinate is that edge's boundary value and the
    other lies within the edge's span. *)
Definition onEdge (p : Point) (cardX cardY cardWidth cardHeight : R) : Prop :=
  ((x p = cardX \/ x p = cardX + cardWidth)
     /\ cardY <= y p <= cardY + cardHeight)
  \/ ((y p = cardY \/ y p = cardY + cardHeight)
        /\ cardX <= x p <= cardX + cardWidth).

(** [firstMin l p]: [p] is the entry of [l] of least distance, and the first
    such entry in the order of [l]. *)
Definition firstMin (l : list EdgePoint) (p : EdgePoint) : Prop :=
  exists k, nth_error l k = Some p
    /\ (forall j q, (j < k)%nat -> nth_error l j = Some q ->
                    distance p < distance q)
    /\ (forall q, In q l -> distance p <= distance q).

End Geometry.

(** ** Strings *)

Module Str.
Local Open Scope string_scope.

Fixpoint take (n : nat) (s : string) : string :=
  match n, s with
  | S n', String a s' => String a (take n' s')
  | _, _ => ""
  end.

Fixpoint drop (n : nat) (s : string) : string :=
  match n, s with
  | S n', String _ s' => drop n' s'
  | _, _ => s
  end.

Fixpoint replicate (n : nat) (a : ascii) : string :=
  match n with
  | O => ""
  | S n' => String a (replicate n' a)
  end.

(** The longest prefix whose characters satisfy [f], and the rest. *)
Fixpoint span (f : ascii -> bool) (s : string) : string * string :=
  match s with
  | String a s' =>
      if f a then let (u, r) := span f s' in (String a u, r) else ("", s)
  | "" => ("", "")
  end.

Fixpoint forallb (f : ascii -> bool) (s : string) : bool :=
  match s with
  | String a s' => f a && forallb f s'
  | "" => true
  end.

(** The first character satisfies [f] ([false] on the empty string). *)
Definition startsWith (f : ascii -> bool) (s : string) : bool :=
  match s with
  | String a _ => f a
  | "" => false
  end.

Definition isEmpty (s : string) : bool :=
  match s with "" => true | _ => false end.

End Str.

(** ** Numbers that are printed and parsed

    A finite number is an exact decimal fraction [mant * 10 ^ (- scale)]; it is
    the decimal that [Number::toString] prints for the double it stands for.
    Sums, differences and products are exact (no rounding), and minus zero is
    not distinguished from zero. *)

Module JSNumber.
Local Open Scope Z_scope.

Inductive number : Set :=
| NaN
| Inf (negative : bool)
| Dec (mant : Z) (scale : nat).

Definition Infinity : number := Inf false.

(** Remove trailing zeros of the fraction. *)
Fixpoint reduce (m : Z) (s : nat) : Z * nat :=
  match s with
  | O => (m, O)
  | S s' => if m mod 10 =? 0 then reduce (m / 10) s' else (m, s)
  end.

Definition normalize (m : Z) (s : nat) : number :=
  let (m', s') := reduce m s in Dec m' s'.

Definition canonical (m : Z) (s : nat) : bool :=
  match s with
  | O => true
  | S _ => negb (m mod 10 =? 0)
  end.

Definition ofZ (z : Z) : number := Dec z 0.

(** The mantissa of [m * 10^-s] at the finer scale [t]. *)
Definition align (m : Z) (s t : nat) : Z := m * 10 ^ Z.of_nat (t - s).

Definition neg (a : number) : number :=
  match a with
  | NaN => NaN
  | Inf n => Inf (negb n)
  | Dec m s => Dec (- m) s
  end.

Definition add (a b : number) : number :=
  match a, b with
  | NaN, _ | _, NaN => NaN
  | Inf n1, Inf n2 => if Bool.eqb n1 n2 then Inf n1 else NaN
  | Inf n, Dec _ _ | Dec _ _, Inf n => Inf n
  | Dec m1 s1, Dec m2 s2 =>
      let s := Nat.max s1 s2 in normalize (align m1 s1 s + align m2 s2 s) s
  end.

Definition sub (a b : number) : number := add a (neg b).

Definition mul (a b : number) : number :=
  match a, b with
  | NaN, _ | _, NaN => NaN
  | Inf n1, Inf n2 => Inf (xorb n1 n2)
  | Inf n, Dec m _ | Dec m _, Inf n =>
      if m =? 0 then NaN else Inf (xorb n (m <? 0))
  | Dec m1 s1, Dec m2 s2 => normalize (m1 * m2) (s1 + s2)
  end.

(** The literal [0.5], and division by the literal [2], which is exact. *)
Definition half : number := Dec 5 1.
Definition div2 (a : number) : number := mul a half.

(** [Math.abs]. *)
Definition abs (a : number) : number :=
  match a with
  | NaN => NaN
  | Inf _ => Inf false
  | Dec m s => Dec (Z.abs m) s
  end.

(** [a < b]; every comparison with [NaN] is false. *)
Definition ltb (a b : number) : bool :=
  match a, b with
  | NaN, _ | _, NaN => false
  | Inf n1, Inf n2 => n1 && negb n2
  | Inf n, Dec _ _ => n
  | Dec _ _, Inf n => negb n
  | Dec m1 s1, Dec m2 s2 =>
      let s := Nat.max s1 s2 in align m1 s1 s <? align m2 s2 s
  end.

(** [a === b] on numbers. *)
Definition eqb (a b : number) : bool :=
  match a, b with
  | NaN, _ | _, NaN => false
  | Inf n1, Inf n2 => Bool.eqb n1 n2
  | Inf _, Dec _ _ | Dec _ _, Inf _ => false
  | Dec m1 s1, Dec m2 s2 =>
      let s := Nat.max s1 s2 in align m1 s1 s =? align m2 s2 s
  end.

Definition isFinite (a : number) : bool :=
  match a with Dec _ _ => true | _ => false end.

Local Open Scope string_scope.

(** The decimal digits of a natural number, most significant first. *)
Definition digits (n : N) : string := NilEmpty.string_of_uint (N.to_uint n).

Definition isDigit (a : ascii) : bool :=
  match NilEmpty.uint_of_string (String a "") with
  | Some _ => true
  | None => false
  end.

(** The value of a string of decimal digits. *)
Definition digitsValue (s : string) : N :=
  match NilEmpty.uint_of_string s with
  | Some u => N.of_uint u
  | None => 0%N
  end.

(** Drop the zeros at the end of a digit string. *)
Fixpoint stripZeros (s : string) : string :=
  match s with
  | String a s' =>
      match stripZeros s' with
      | "" => if Ascii.eqb a "0" then "" else String a ""
      | t => String a t
      end
  | "" => ""
  end.

(** Exponent notation: [d.ddde+x] for the digits [ds] (no trailing zero) of a
    number [0.ds * 10^n]. *)
Definition exponential (ds : string) (n : Z) : string :=
  match ds with
  | String d rest =>
      String d (if Str.isEmpty rest then "" else "." ++ rest)
      ++ "e" ++ (if (0 <=? n - 1)%Z then "+" else "-")
      ++ digits (Z.to_N (Z.abs (n - 1)))
  | "" => ""
  end.

(** [Number::toString] of a positive decimal [m * 10^-s] in canonical form:
    with [k] significant digits and the decimal point [n] places after the
    first of them, the notation is positional when [-6 < n <= 21]. *)
Definition positiveToString (m : N) (s : nat) : string :=
  let ds := digits m in
  let len := String.length ds in
  let n := (Z.of_nat len - Z.of_nat s)%Z in
  match s with
  | O => if (n <=? 21)%Z then ds else exponential (stripZeros ds) n
  | S _ =>
      if ((0 <? n) && (n <=? 21))%Z then
        Str.take (len - s) ds ++ "." ++ Str.drop (len - s) ds
      else if ((-6 <? n) && (n <=? 0))%Z then
        "0." ++ Str.replicate (s - len) "0" ++ ds
      else exponential ds n
  end.

(** [Number::toString], as used by template literals. *)
Definition toString (a : number) : string :=
  match a with
  | NaN => "NaN"
  | Inf false => "Infinity"
  | Inf true => "-Infinity"
  | Dec m s =>
      let (m', s') := reduce m s in
      if (m' =? 0)%Z then "0"
      else if (m' <? 0)%Z then "-" ++ positiveToString (Z.to_N (- m')) s'
      else positiveToString (Z.to_N m') s'
  end.

(** The numbers printed in positional notation, in canonical form. *)
Definition plain (a : number) : bool :=
  match a with
  | Dec m s =>
      canonical m s &&
      (let n := (Z.of_nat (String.length (digits (Z.to_N (Z.abs m))))
                 - Z.of_nat s)%Z in
       (-6 <? n) && (n <=? 21))%Z
  | _ => false
  end.

(** [parseFloat], as the program uses it.  Its argument is always a match of
    [[\d.-]+], so the exponent part, the [Infinity] literal, a plus sign and
    leading white space of the full grammar cannot occur and are not
    modelled.  The longest prefix of the form [-? digits (. digits)?] or
    [-? . digits] is the value; without such a prefix the result is [NaN]. *)
Definition parseUnsigned (s : string) : number :=
  let (ip, r) := Str.span isDigit s in
  let fp := match r with
            | String "." r' => fst (Str.span isDigit r')
            | _ => ""
            end in
  if Str.isEmpty ip && Str.isEmpty fp then NaN
  else normalize (Z.of_N (digitsValue (ip ++ fp))) (String.length fp).

Definition parseFloat (s : string) : number :=
  match s with
  | String "-" s' => neg (parseUnsigned s')
  | _ => parseUnsigned s
  end.

(** The positions of the decimal point for which the notation of the
    positive number [m * 10^-s] is positional. *)
Definition positional (m : N) (s : nat) : Prop :=
  (-6 < Z.of_nat (String.length (digits m)) - Z.of_nat s <= 21)%Z.

End JSNumber.

(** ** Regular expressions

    The two expressions of [parsePathData] are sequences of a character
    class, taken once, greedily zero or more times, or greedily one or more
    times.  [matchAt] is the backtracking matcher at a fixed start; it
    returns the length of the match. *)

Module Regex.
Local Open Scope string_scope.

Inductive atom :=
| One (c : ascii -> bool)
| Star (c : ascii -> bool)
| Plus (c : ascii -> bool).

Definition regex := list atom.

(** Greedy repetition of class [c] followed by the continuation [k]: the
    longest run is tried first, then shorter ones. *)
Fixpoint star (c : ascii -> bool) (k : string -> option nat) (s : string)
  : option nat :=
  match s with
  | String a s' =>
      if c a then
        match star c k s' with
        | Some n => Some (S n)
        | None => k s
        end
      else k s
  | "" => k s
  end.

Fixpoint matchAt (r : regex) (s : string) : option nat :=
  match r with
  | [] => Some O
  | One c :: r' =>
      match s with
      | String a s' => if c a then option_map S (matchAt r' s') else None
      | "" => None
      end
  | Star c :: r' => star c (matchAt r') s
  | Plus c :: r' =>
      match s with
      | String a s' =>
          if c a then option_map S (star c (matchAt r') s') else None
      | "" => None
      end
  end.

(** [String.prototype.match] with the [g] flag: the matches from left to
    right, each search starting where the previous match ended (one
    character further after an empty match).  [skip] counts the characters
    still covered by the previous match.  No match at all is the empty list
    (JavaScript returns [null]). *)
Fixpoint matchGlobalFrom (r : regex) (s : string) (skip : nat) : list string :=
  match s with
  | String _ s' =>
      match skip with
      | S skip' => matchGlobalFrom r s' skip'
      | O =>
          match matchAt r s with
          | Some n => Str.take n s :: matchGlobalFrom r s' (n - 1)
          | None => matchGlobalFrom r s' O
          end
      end
  | "" =>
      match skip, matchAt r "" with
      | O, Some _ => [""]
      | _, _ => []
      end
  end.

Definition matchGlobal (r : regex) (s : string) : list string :=
  matchGlobalFrom r s O.

(** The class [\s] on the characters of a path string. *)
Definition isSpace (a : ascii) : bool :=
  match a with
  | " "%char | "009"%char | "010"%char | "011"%char | "012"%char
  | "013"%char => true
  | _ => false
  end.

(** The class [[ML]]. *)
Definition isML (a : ascii) : bool :=
  match a with
  | "M"%char | "L"%char => true
  | _ => false
  end.

(** The class [[\d.-]]. *)
Definition isNumChar (a : ascii) : bool :=
  JSNumber.isDigit a ||
  match a with
  | "."%char | "-"%char => true
  | _ => false
  end.

(** [/[ML]\s*[\d.-]+\s*[\d.-]+/g] *)
Definition commandRe : regex :=
  [One isML; Star isSpace; Plus isNumChar; Star isSpace; Plus isNumChar].

(** [/[\d.-]+/g] *)
Definition coordRe : regex := [Plus isNumChar].

(** What may follow a coordinate in a generated path: nothing, or a space. *)
Definition sep (r : string) : Prop := r = "" \/ exists r', r = String " " r'.

(** The text of one command with the coordinate texts [X] and [Y]:
    [M X Y] or [L X Y]. *)
Definition commandText (cmd : ascii) (X Y : string) : string :=
  String cmd (" " ++ X ++ " " ++ Y).

End Regex.

(** ** PathModel: points, connection-line data and SVG path strings *)

Module PathModel.
Import JSNumber.
Local Open Scope string_scope.

Record Point := mkPoint { x : number; y : number }.

(** A legacy segment record [{type: 'horizontal'|'vertical', offset}]. *)
Record Segment := mkSegment { type : string; offset : number }.

(** [Date.now()] or [new Date().toISOString()]. *)
Inductive timestamp :=
| Millis (t : Z)
| Iso (t : string).

(** The value of a note's [connectionLine] field once its shape is known. *)
Record ConnectionLine := mkConnectionLine {
  isCustom : bool;
  pathPoints : option (list Point);
  segments : option (list Segment);
  lastModified : option timestamp
}.

(** The template literal [` L ${p.x} ${p.y}`] appended to [path]. *)
Definition lineTo (path : string) (p : Point) : string :=
  path ++ " L " ++ toString (x p) ++ " " ++ toString (y p).

(** The template literal [`M ${p.x} ${p.y}`]. *)
Definition moveTo (p : Point) : string :=
  "M " ++ toString (x p) ++ " " ++ toString (y p).

(** [ConnectionLineAdjuster.generatePathFromPoints] *)
Definition generatePathFromPoints (points : list Point) : string :=
  match points with
  | p0 :: ((_ :: _) as rest) => fold_left lineTo rest (moveTo p0)
  | _ => ""
  end.

(** [ConnectionLineAdjuster.parsePathData]: [pathData] is a string here, so
    only the emptiness part of the guard applies.  [match] returns [null]
    when nothing matches, which is the empty list of commands. *)
Definition parsePathData (pathData : string) : list Point :=
  if Str.isEmpty pathData then []
  else
    let commands := Regex.matchGlobal Regex.commandRe pathData in
    flat_map
      (fun command =>
         match Regex.matchGlobal Regex.coordRe command with
         | c0 :: c1 :: _ => [ {| x := parseFloat c0; y := parseFloat c1 |} ]
         | _ => []
         end)
      commands.

(** *** Vocabulary of the properties *)

Definition pt (a b : Z) : Point := {| x := ofZ a; y := ofZ b |}.

(** Both coordinates are finite numbers in canonical form that print in
    positional notation. *)
Definition plainPoint (p : Point) : Prop :=
  plain (x p) = true /\ plain (y p) = true.

Definition pointCommand (cmd : ascii) (p : Point) : string :=
  Regex.commandText cmd (toString (x p)) (toString (y p)).

(** What the loop of [generatePathFromPoints] appends for [points]. *)
Fixpoint lineCommands (points : list Point) : string :=
  match points with
  | [] => ""
  | p :: points' => " " ++ pointCommand "L" p ++ lineCommands points'
  end.

(** The body of the [commands.forEach] of [parsePathData]. *)
Definition parseCommand (command : string) : list Point :=
  match Regex.matchGlobal Regex.coordRe command with
  | c0 :: c1 :: _ => [ {| x := parseFloat c0; y := parseFloat c1 |} ]
  | _ => []
  end.

(** The tolerance of the orthogonality property: half a pixel. *)
Definition epsilon : number := half.

(** Two coordinates agree up to the tolerance. *)
Definition agree (a b : number) : bool := ltb (abs (sub a b)) epsilon.

(** The two points differ in exactly one coordinate. *)
Definition orthogonalPair (p q : Point) : bool :=
  xorb (agree (x p) (x q)) (agree (y p) (y q)).

(** The two points agree in a coordinate: the segment between them is
    horizontal or vertical, possibly of length zero. *)
Definition axisAlignedPair (p q : Point) : bool :=
  agree (x p) (x q) || agree (y p) (y q).

Fixpoint allSegments (f : Point -> Point -> bool) (points : list Point) : bool :=
  match points with
  | p :: ((q :: _) as rest) => f p q && allSegments f rest
  | _ => true
  end.

Definition orthogonal (points : list Point) : bool :=
  allSegments orthogonalPair points.

Definition axisAligned (points : list Point) : bool :=
  allSegments axisAlignedPair points.

(** [moved set v i points]: [set v] applied to the points [i] and [i + 1],
    every other point as it was. *)
Definition moved (set : number -> Point -> Point) (v : number) (i : nat)
    (points : list Point) : list Point :=
  imap (fun j p => if (j =? i)%nat || (j =? S i)%nat then set v p else p) points.

End PathModel.

(** ** ConnectorRenderer: the path builders of class CircleRenderer *)

Module CircleRenderer.
Import JSNumber PathModel.
Local Open Scope string_scope.

(** [createPathFromPoints]; its caller passes a non-null array. *)
Definition createPathFromPoints (pathPoints : list Point) : string :=
  match pathPoints with
  | p0 :: ((_ :: _) as rest) => fold_left lineTo rest (moveTo p0)
  | _ => ""
  end.

(** One round of the [segments.forEach] loop of
    [createCustomConnectionPath] on the state (currentX, currentY, points). *)
Definition applySegment (st : number * number * list Point) (segment : Segment)
  : number * number * list Point :=
  let '(currentX, currentY, points) := st in
  let currentY' :=
    if String.eqb (type segment) "horizontal"
    then add currentY (offset segment) else currentY in
  let currentX' :=
    if String.eqb (type segment) "horizontal" then currentX
    else if String.eqb (type segment) "vertical"
         then add currentX (offset segment) else currentX in
  (currentX', currentY',
   (points ++ [ {| x := currentX'; y := currentY' |} ])%list).

Definition createCustomConnectionPath
    (startX startY endX endY : number) (segments : list Segment) : string :=
  let start := {| x := startX; y := startY |} in
  let '(_, _, points) :=
    fold_left applySegment segments
      (add startX (mul (sub endX startX) half), startY, [start]) in
  let lastPoint := List.last points start in
  let points :=
    if negb (eqb (x lastPoint) endX)
    then (points ++ [ {| x := endX; y := y lastPoint |} ])%list else points in
  let points := (points ++ [ {| x := endX; y := endY |} ])%list in
  match points with
  | p0 :: rest => fold_left lineTo rest (moveTo p0)
  | [] => ""
  end.

(** The default path of [createConnectionPath]: a bend at the horizontal
    midpoint. *)
Definition defaultConnectionPath (startX startY endX endY : number) : string :=
  let midX := add startX (mul (sub endX startX) half) in
  let midY := startY in
  "M " ++ toString startX ++ " " ++ toString startY
  ++ " L " ++ toString midX ++ " " ++ toString midY
  ++ " L " ++ toString midX ++ " " ++ toString endY
  ++ " L " ++ toString endX ++ " " ++ toString endY.

Definition nonEmpty {A} (l : option (list A)) : option (list A) :=
  match l with
  | Some (_ :: _) => l
  | _ => None
  end.

(** [createConnectionPath]; [None] is [null], the default of the optional
    parameter. *)
Definition createConnectionPath
    (startX startY endX endY : number)
    (connectionLineData : option ConnectionLine) : string :=
  let default := defaultConnectionPath startX startY endX endY in
  match connectionLineData with
  | Some data =>
      if isCustom data then
        match nonEmpty (pathPoints data) with
        | Some points => createPathFromPoints points
        | None =>
            match nonEmpty (segments data) with
            | Some segs =>
                createCustomConnectionPath startX startY endX endY segs
            | None => default
            end
        end
      else default
  | None => default
  end.

End CircleRenderer.

(** ** AdjustmentController: class ConnectionLineAdjuster

    Point objects live in a heap, because the arrays of the adjuster share
    them: [parsePathData] creates the objects, [[...pathPoints]] and
    [[...this.originalPathPoints]] copy the arrays of references only, and
    [updateConnectionPath] assigns to fields of the objects. *)

Module Adjuster.
Import JSNumber PathModel.
Local Open Scope string_scope.

Abbreviation loc := nat (only parsing).
Abbreviation heap := (list Point) (only parsing).

(** The objects pushed by [parsePathData] are new. *)
Definition allocPoints (points : list Point) (h : heap) : list loc * heap :=
  (seq (List.length h) (List.length points), (h ++ points)%list).

(** The current contents of an array of point references. *)
Definition deref (h : heap) (refs : list loc) : list Point :=
  omap (fun l => h !! l) refs.

Definition setX (v : number) (p : Point) : Point := {| x := v; y := y p |}.
Definition setY (v : number) (p : Point) : Point := {| x := x p; y := v |}.

(** A [<path class="connection-line">] child of [connectionsGroup]. *)
Record PathElement := mkPathElement { pathRecordId : string; d : string }.

(** A [<rect class="connection-handle">] child of [handlesGroup]. *)
Record Handle := mkHandle {
  handleX : number;
  handleY : number;
  handleWidth : number;
  handleHeight : number;
  handleRecordId : string;
  dataSegmentIndex : nat;
  dataIsHorizontal : bool;
  dataIsVertical : bool;
  cursor : string
}.

Record World := mkWorld {
  objects : heap;
  connectionsGroup : list PathElement;
  selectedRecordId : option string;
  isDragging : bool;
  dragTarget : option nat;
  originalPathPoints : option (list loc);
  handlesGroup : list Handle
}.

(** The record id is pasted into the selector text
    [`[data-record-id="${recordId}"]`], which the browser reads as CSS.
    [selectorLiteral c]: the CSS parser reads the character [c] as itself
    inside the double-quoted string: it is not the double quote that ends
    the string, not the backslash that starts an escape, not a line break
    (line feed, carriage return, form feed), which makes the string a bad
    one, and not NUL, which is replaced. *)
Definition selectorLiteral (c : ascii) : bool :=
  negb (existsb (Ascii.eqb c)
          ["034"; "092"; "010"; "013"; "012"; "000"]%char).

(** A record id made of such characters, as those [generateId] makes (a
    prefix, digits and letters joined by [_]): the selector built from it
    matches the elements whose [data-record-id] is that id. *)
Definition literalId (recordId : string) : bool :=
  forallb selectorLiteral (list_ascii_of_string recordId).

(** [connectionsGroup.querySelector(`[data-record-id="${recordId}"]`)]: the
    first matching child, for a record id that the selector reads as itself
    ([literalId]).  For another id the browser looks for a different
    attribute value or refuses the selector, which is not modelled. *)
Definition querySelector (group : list PathElement) (recordId : string)
  : option PathElement :=
  List.find (fun el => String.eqb (pathRecordId el) recordId) group.

(** [setAttribute('d', newPath)] on the element [querySelector] returns. *)
Fixpoint setPathData (group : list PathElement) (recordId newPath : string)
  : list PathElement :=
  match group with
  | [] => []
  | el :: group' =>
      if String.eqb (pathRecordId el) recordId
      then {| pathRecordId := pathRecordId el; d := newPath |} :: group'
      else el :: setPathData group' recordId newPath
  end.

Definition hideControlHandles (w : World) : World :=
  {| objects := objects w;
     connectionsGroup := connectionsGroup w;
     selectedRecordId := None;
     isDragging := isDragging w;
     dragTarget := dragTarget w;
     originalPathPoints := None;
     handlesGroup := [] |}.

Definition createControlHandle
    (x y : number) (segmentIndex : nat) (recordId : string)
    (isHorizontal isVertical : bool) : Handle :=
  {| handleX := sub x (ofZ 4);
     handleY := sub y (ofZ 4);
     handleWidth := ofZ 8;
     handleHeight := ofZ 8;
     handleRecordId := recordId;
     dataSegmentIndex := segmentIndex;
     dataIsHorizontal := isHorizontal;
     dataIsVertical := isVertical;
     cursor := if isHorizontal then "ns-resize"
               else if isVertical then "ew-resize" else "move" |}.

Definition segmentIsHorizontal (startPoint endPoint : Point) : bool :=
  ltb (abs (sub (y startPoint) (y endPoint))) (ofZ 5).

Definition segmentIsVertical (startPoint endPoint : Point) : bool :=
  ltb (abs (sub (x startPoint) (x endPoint))) (ofZ 5).

(** The handles made by the loop of [createSegmentControlHandles], from
    segment [i] on, for the points from [pathPoints[i]] on. *)
Fixpoint segmentHandles (i : nat) (points : list Point) (recordId : string)
  : list Handle :=
  match points with
  | startPoint :: ((endPoint :: _) as rest) =>
      let midX := div2 (add (x startPoint) (x endPoint)) in
      let midY := div2 (add (y startPoint) (y endPoint)) in
      createControlHandle midX midY i recordId
        (segmentIsHorizontal startPoint endPoint)
        (segmentIsVertical startPoint endPoint)
      :: segmentHandles (S i) rest recordId
  | _ => []
  end.

Definition createSegmentControlHandles
    (pathPoints : list loc) (recordId : string) (w : World) : World :=
  {| objects := objects w;
     connectionsGroup := connectionsGroup w;
     selectedRecordId := selectedRecordId w;
     isDragging := isDragging w;
     dragTarget := dragTarget w;
     originalPathPoints := originalPathPoints w;
     handlesGroup :=
       (handlesGroup w
        ++ segmentHandles 0 (deref (objects w) pathPoints) recordId)%list |}.

Definition showControlHandles (recordId : string) (w : World) : World :=
  let w1 :=
    {| objects := objects w;
       connectionsGroup := connectionsGroup w;
       selectedRecordId := Some recordId;
       isDragging := isDragging w;
       dragTarget := dragTarget w;
       originalPathPoints := originalPathPoints w;
       handlesGroup := handlesGroup w |} in
  let w2 := hideControlHandles w1 in
  match querySelector (connectionsGroup w2) recordId with
  | None => w2
  | Some connectionLine =>
      let pathData := d connectionLine in
      if Str.isEmpty pathData then w2
      else
        let (pathPoints, objects') :=
          allocPoints (parsePathData pathData) (objects w2) in
        let w3 :=
          {| objects := objects';
             connectionsGroup := connectionsGroup w2;
             selectedRecordId := selectedRecordId w2;
             isDragging := isDragging w2;
             dragTarget := dragTarget w2;
             originalPathPoints := originalPathPoints w2;
             handlesGroup := handlesGroup w2 |} in
        if (List.length pathPoints <? 2)%nat then w3
        else
          let w4 :=
            {| objects := objects w3;
               connectionsGroup := connectionsGroup w3;
               selectedRecordId := selectedRecordId w3;
               isDragging := isDragging w3;
               dragTarget := dragTarget w3;
               originalPathPoints := Some pathPoints;
               handlesGroup := handlesGroup w3 |} in
          createSegmentControlHandles pathPoints recordId w4
  end.

(** [updateConnectionPath]; [segmentIndex] comes from [parseInt]. *)
Definition updateConnectionPath
    (recordId : string) (segmentIndex : Z) (newX newY : number)
    (isHorizontal isVertical : bool) (w : World) : World :=
  match querySelector (connectionsGroup w) recordId, originalPathPoints w with
  | Some connectionLine, Some original =>
      let pathPoints := original in
      if ((0 <=? segmentIndex)
          && (segmentIndex <? Z.of_nat (List.length pathPoints) - 1))%Z then
        let i := Z.to_nat segmentIndex in
        let objects' :=
          match pathPoints !! i, pathPoints !! S i with
          | Some startRef, Some endRef =>
              if isHorizontal then
                alter (setY newY) endRef (alter (setY newY) startRef (objects w))
              else if isVertical then
                alter (setX newX) endRef (alter (setX newX) startRef (objects w))
              else objects w
          | _, _ => objects w
          end in
        let newPath := generatePathFromPoints (deref objects' pathPoints) in
        {| objects := objects';
           connectionsGroup :=
             setPathData (connectionsGroup w) recordId newPath;
           selectedRecordId := selectedRecordId w;
           isDragging := isDragging w;
           dragTarget := dragTarget w;
           originalPathPoints := originalPathPoints w;
           handlesGroup := handlesGroup w |}
      else w
  | _, _ => w
  end.

(** [adjustConnectionLineForNewPosition]; positions are [{x, y}] objects. *)
Definition adjustConnectionLineForNewPosition
    (originalConnectionLine : ConnectionLine) (oldPosition newPosition : Point)
  : ConnectionLine :=
  match pathPoints originalConnectionLine with
  | None | Some [] => originalConnectionLine
  | Some points =>
      let deltaX := sub (x newPosition) (x oldPosition) in
      let deltaY := sub (y newPosition) (y oldPosition) in
      let adjustedPathPoints :=
        imap (fun index point =>
                if (index =? 0)%nat then {| x := x point; y := y point |}
                else {| x := add (x point) deltaX;
                        y := add (y point) deltaY |})
             points in
      {| isCustom := isCustom originalConnectionLine;
         pathPoints := Some adjustedPathPoints;
         segments := segments originalConnectionLine;
         lastModified := lastModified originalConnectionLine |}
  end.

(** *** Vocabulary of the properties *)

(** The cached "original path points", read through the heap. *)
Definition baseline (w : World) : option (list Point) :=
  option_map (deref (objects w)) (originalPathPoints w).

(** The cached array holds distinct references to objects of the heap. *)
Definition baselineValid (w : World) : Prop :=
  match originalPathPoints w with
  | Some refs =>
      base.NoDup refs
      /\ Forall (fun l => l < List.length (objects w))%nat refs
  | None => True
  end.

(** A world whose canvas shows one connector, for record ["r1"]. *)
Definition worldShowing (pathData : string) : World :=
  {| objects := [];
     connectionsGroup := [ {| pathRecordId := "r1"; d := pathData |} ];
     selectedRecordId := None;
     isDragging := false;
     dragTarget := None;
     originalPathPoints := None;
     handlesGroup := [] |}.

End Adjuster.

(** ** The record manager: load-time validation of connection lines

    Records arrive from parsed JSON; until [validateConnectionLineData] has
    looked at it, nothing is known about the shape of a [connectionLine], so
    it is a dynamically typed value here. *)

Module RecordManager.
Import JSNumber.
Local Open Scope string_scope.

#[local] Set Warnings "-register-all".
Inductive value :=
| VUndefined
| VNull
| VBool (b : bool)
| VNum (n : number)
| VStr (s : string)
| VArr (elems : list value)
| VObj (props : list (string * value)).
#[local] Set Warnings "register-all".

(** [ToBoolean] *)
Definition truthy (v : value) : bool :=
  match v with
  | VUndefined | VNull => false
  | VBool b => b
  | VNum NaN => false
  | VNum (Inf _) => true
  | VNum (Dec m _) => negb (m =? 0)%Z
  | VStr s => negb (Str.isEmpty s)
  | VArr _ | VObj _ => true
  end.

Definition typeof (v : value) : string :=
  match v with
  | VUndefined => "undefined"
  | VNull => "object"
  | VBool _ => "boolean"
  | VNum _ => "number"
  | VStr _ => "string"
  | VArr _ | VObj _ => "object"
  end.

(** [Array.isArray] *)
Definition isArray (v : value) : bool :=
  match v with VArr _ => true | _ => false end.

Fixpoint lookupProp (props : list (string * value)) (key : string) : value :=
  match props with
  | [] => VUndefined
  | (k, v) :: props' => if String.eqb k key then v else lookupProp props' key
  end.

(** Reading the property [key] of [v].  A property that is not there reads
    as [undefined].  Every read in the functions below follows a guard which
    has established that [v] is neither [null] nor [undefined], so the
    [TypeError] of those two receivers is not modelled.  The elements of an
    array are read from its list, not through [get]. *)
Definition get (v : value) (key : string) : value :=
  match v with
  | VObj props => lookupProp props key
  | VArr elems =>
      if String.eqb key "length"
      then VNum (ofZ (Z.of_nat (List.length elems))) else VUndefined
  | VStr s =>
      if String.eqb key "length"
      then VNum (ofZ (Z.of_nat (String.length s))) else VUndefined
  | _ => VUndefined
  end.

(** The test of the loop body of [validateConnectionLineData], negated. *)
Definition pointIsValid (point : value) : bool :=
  truthy point
  && String.eqb (typeof (get point "x")) "number"
  && String.eqb (typeof (get point "y")) "number".

Definition validateConnectionLineData
    (connectionLineData : value) (recordId : string) : bool :=
  if negb (truthy connectionLineData)
     || negb (String.eqb (typeof connectionLineData) "object") then false
  else
    let pathPoints := get connectionLineData "pathPoints" in
    if negb (truthy pathPoints) || negb (isArray pathPoints) then false
    else
      match pathPoints with
      | VArr points =>
          if (List.length points <? 2)%nat then false
          else List.forallb pointIsValid points
      | _ => false
      end.

(** A record of the store: the fields the validation pass reads or writes,
    and the remaining properties. *)
Record StoredRecord := mkStoredRecord {
  id : string;
  connectionLine : option value;
  updatedAt : string;
  otherFields : list (string * value)
}.

(** [window.storageManager]: the state behind [triggerAutoSave].
    [saveCallback] tells whether a callback is installed, [autoSaveTimer]
    holds the pending timer and [timersSet] counts the calls of
    [setTimeout]. *)
Record StorageManager := mkStorageManager {
  autoSaveEnabled : bool;
  saveCallback : bool;
  hasUnsavedChanges : bool;
  autoSaveTimer : option nat;
  timersSet : nat
}.

Definition triggerAutoSave (sm : StorageManager) : StorageManager :=
  if negb (autoSaveEnabled sm) || negb (saveCallback sm) then sm
  else
    {| autoSaveEnabled := autoSaveEnabled sm;
       saveCallback := saveCallback sm;
       hasUnsavedChanges := true;
       autoSaveTimer := Some (timersSet sm);
       timersSet := S (timersSet sm) |}.

Record World := mkWorld {
  records : gmap string StoredRecord;
  storageManager : option StorageManager
}.

(** [record.connectionLine && record.connectionLine.isCustom] *)
Definition hasCustomLine (record : StoredRecord) : bool :=
  match connectionLine record with
  | Some line => truthy line && truthy (get line "isCustom")
  | None => false
  end.

(** The records on which the [forEach] of [cleanupInvalidConnectionLines]
    deletes the connection line. *)
Definition isInvalid (recordId : string) (record : StoredRecord) : bool :=
  match connectionLine record with
  | Some line =>
      hasCustomLine record && negb (validateConnectionLineData line recordId)
  | None => false
  end.

(** The body of that [forEach] on one record; [now] is
    [new Date().toISOString()]. *)
Definition cleanupRecord (now : string) (recordId : string)
    (record : StoredRecord) : StoredRecord :=
  if isInvalid recordId record then
    {| id := id record;
       connectionLine := None;
       updatedAt := now;
       otherFields := otherFields record |}
  else record.

(** [cleanupInvalidConnectionLines]: the records are visited one by one,
    [cleanedCount] is the number of deletions. *)
Definition cleanupInvalidConnectionLines (now : string) (w : World) : World :=
  let cleanedCount :=
    size (base.filter
            (fun entry => isInvalid (fst entry) (snd entry) = true)
            (records w)) in
  {| records := map_imap (fun recordId record =>
                            Some (cleanupRecord now recordId record))
                         (records w);
     storageManager :=
       if (0 <? cleanedCount)%nat
       then option_map triggerAutoSave (storageManager w)
       else storageManager w |}.

(** The part of [drawLine] (inside [drawConnectionLine]) that chooses the
    [connectionLineData] handed to the renderer: the validated line of the
    record, or [null].  The record and the storage manager are returned as
    the function leaves them. *)
Definition selectConnectionLineData (now : string) (record : StoredRecord)
    (sm : option StorageManager)
  : option value * StoredRecord * option StorageManager :=
  match connectionLine record with
  | Some line =>
      if hasCustomLine record then
        if validateConnectionLineData line (id record)
        then (Some line, record, sm)
        else (None,
              {| id := id record;
                 connectionLine := None;
                 updatedAt := now;
                 otherFields := otherFields record |},
              option_map triggerAutoSave sm)
      else (None, record, sm)
  | None => (None, record, sm)
  end.

(** [updateConnectionLineDataForNewPosition] reads and writes only
    [record.connectionLine]; it is given here on that field, in the shape
    validated data has.  [now] is [new Date().toISOString()]. *)
Definition updateConnectionLineDataForNewPosition
    (now : string) (connectionLine : option PathModel.ConnectionLine)
    (oldPosition newPosition : PathModel.Point)
  : option PathModel.ConnectionLine :=
  match connectionLine with
  | None => None
  | Some line =>
      match PathModel.pathPoints line with
      | None | Some [] => connectionLine
      | Some points =>
          let deltaX :=
            sub (PathModel.x newPosition) (PathModel.x oldPosition) in
          let deltaY :=
            sub (PathModel.y newPosition) (PathModel.y oldPosition) in
          Some
            {| PathModel.isCustom := PathModel.isCustom line;
               PathModel.pathPoints :=
                 Some (imap (fun index point =>
                         if (index =? 0)%nat
                         then {| PathModel.x := PathModel.x point;
                                 PathModel.y := PathModel.y point |}
                         else {| PathModel.x := add (PathModel.x point) deltaX;
                                 PathModel.y := add (PathModel.y point) deltaY |})
                       points);
               PathModel.segments := PathModel.segments line;
               PathModel.lastModified := Some (PathModel.Iso now) |}
      end
  end.

(** *** Vocabulary of the properties *)

(** The corruption of a connection line: its [pathPoints] is missing, is not
    an array, has fewer than two entries, or has an entry whose [x] or [y]
    is not a number. *)
Definition corrupt (line : value) : Prop :=
  get line "pathPoints" = VUndefined
  \/ isArray (get line "pathPoints") = false
  \/ exists points, get line "pathPoints" = VArr points
       /\ ((List.length points < 2)%nat
           \/ exists point, In point points
                /\ (typeof (get point "x") <> "number"
                    \/ typeof (get point "y") <> "number")).

(** An entry with numeric [x] and [y] fields, finite or not. *)
Definition numericPoint (point : value) : Prop :=
  exists props nx ny,
    point = VObj props /\ get point "x" = VNum nx /\ get point "y" = VNum ny.

(** The record after [delete record.connectionLine] at time [now]. *)
Definition deleted (now : string) (record : StoredRecord) : StoredRecord :=
  {| id := id record;
     connectionLine := None;
     updatedAt := now;
     otherFields := otherFields record |}.

End RecordManager.

(** ** The letters of a path text *)

Module PathText.
Local Open Scope string_scope.
(** The number of letters [M] and [L] in a text. *)
Fixpoint countML (s : string) : nat :=
  match s with
  | String a s' => (if Regex.isML a then 1 else 0) + countML s'
  | "" => 0
  end.
End PathText.

(** ** The adjuster's event handlers and the renderer's connector elements *)

Module AdjusterEvents.
Import JSNumber PathModel Adjuster.
Local Open Scope string_scope.

(** [this.selectedRecordId === recordId], for a record id that is a string. *)
Definition isSelected (recordId : string) (w : World) : bool :=
  match selectedRecordId w with
  | Some selected => String.eqb selected recordId
  | None => false
  end.

Definition getSelectedRecordId (w : World) : option string :=
  selectedRecordId w.

Definition handleConnectionLineReset (recordId : string) (w : World) : World :=
  if isSelected recordId w then hideControlHandles w else w.

Definition handleRecordDeleted (recordId : string) (w : World) : World :=
  if isSelected recordId w then
    let w1 := hideControlHandles w in
    {| objects := objects w1;
       connectionsGroup := connectionsGroup w1;
       selectedRecordId := None;
       isDragging := isDragging w1;
       dragTarget := dragTarget w1;
       originalPathPoints := originalPathPoints w1;
       handlesGroup := handlesGroup w1 |}
  else w.

(** [updateControlHandlesPosition]: the handles are made again from the
    path on screen; [originalPathPoints] is not assigned. *)
Definition updateControlHandlesPosition (recordId : string) (w : World)
  : World :=
  match querySelector (connectionsGroup w) recordId with
  | None => w
  | Some connectionLine =>
      let pathData := d connectionLine in
      if Str.isEmpty pathData then w
      else
        let (pathPoints, objects') :=
          allocPoints (parsePathData pathData) (objects w) in
        let w1 :=
          {| objects := objects';
             connectionsGroup := connectionsGroup w;
             selectedRecordId := selectedRecordId w;
             isDragging := isDragging w;
             dragTarget := dragTarget w;
             originalPathPoints := originalPathPoints w;
             handlesGroup := handlesGroup w |} in
        if (List.length pathPoints <? 2)%nat then w1
        else createSegmentControlHandles pathPoints recordId
               (hideControlHandles w1)
  end.

(** [existingLine.remove()] on the element [querySelector] returns. *)
Fixpoint removeFirst (group : list PathElement) (recordId : string)
  : list PathElement :=
  match group with
  | [] => []
  | el :: group' =>
      if String.eqb (pathRecordId el) recordId then group'
      else el :: removeFirst group' recordId
  end.

(** [CircleRenderer.removeConnectionLine], with the adjuster installed as
    [window.connectionLineAdjuster]. *)
Definition removeConnectionLine (recordId : string) (w : World) : World :=
  let w1 :=
    {| objects := objects w;
       connectionsGroup := removeFirst (connectionsGroup w) recordId;
       selectedRecordId := selectedRecordId w;
       isDragging := isDragging w;
       dragTarget := dragTarget w;
       originalPathPoints := originalPathPoints w;
       handlesGroup := handlesGroup w |} in
  if isSelected recordId w1 then hideControlHandles w1 else w1.

(** The end of [CircleRenderer.drawConnectionLine], once the date dot has
    been found and [path] computed: the old connector of the record is
    removed and the new one appended. *)
Definition appendConnectionLine (recordId path : string) (w : World) : World :=
  let w1 := removeConnectionLine recordId w in
  {| objects := objects w1;
     connectionsGroup :=
       (connectionsGroup w1 ++ [ {| pathRecordId := recordId; d := path |} ])%list;
     selectedRecordId := selectedRecordId w1;
     isDragging := isDragging w1;
     dragTarget := dragTarget w1;
     originalPathPoints := originalPathPoints w1;
     handlesGroup := handlesGroup w1 |}.

(** [handleRecordPositionChange] for an event with a [detail] about a
    record of the store, as [RecordManager.updateRecordPosition] dispatches
    it.  The redraw of [updateConnectionLineForDrag] ends in
    [CircleRenderer.drawConnectionLine], which either finds no date dot and
    draws nothing ([redrawn = None]) or replaces the connector by the path
    it has computed. *)
Definition handleRecordPositionChange
    (recordId : string) (dragging : bool) (redrawn : option string)
    (w : World) : World :=
  if isSelected recordId w && dragging then
    let w1 := match redrawn with
              | Some path => appendConnectionLine recordId path w
              | None => w
              end in
    updateControlHandlesPosition recordId w1
  else w.

(** [CircleRenderer.clearCanvas], as far as the connectors go. *)
Definition clearCanvas (w : World) : World :=
  {| objects := objects w;
     connectionsGroup := [];
     selectedRecordId := selectedRecordId w;
     isDragging := isDragging w;
     dragTarget := dragTarget w;
     originalPathPoints := originalPathPoints w;
     handlesGroup := handlesGroup w |}.

(** The part of [RecordManager.deleteRecord] that reaches the adjuster and
    the connectors, for a record of the store whose deletion the user has
    confirmed: the [recordDeleted] event, then [removeConnectionLine]. *)
Definition deleteRecord (recordId : string) (w : World) : World :=
  removeConnectionLine recordId (handleRecordDeleted recordId w).

(** What happens to the adjuster and the connectors: the events of
    [bindEvents], a mouse move on a handle, and the renderer's operations
    on connectors. *)
Inductive event :=
| recordSelected (recordId : string)
| recordDeselected
| recordPositionChanged (recordId : string) (dragging : bool)
    (redrawn : option string)
| recordDeleted (recordId : string)
| connectionLineReset (recordId : string)
| handleMoved (recordId : string) (segmentIndex : Z) (newX newY : number)
    (isHorizontal isVertical : bool)
| lineRemoved (recordId : string)
| lineDrawn (recordId path : string)
| canvasCleared.

Definition dispatch (w : World) (e : event) : World :=
  match e with
  | recordSelected recordId => showControlHandles recordId w
  | recordDeselected => hideControlHandles w
  | recordPositionChanged recordId dragging redrawn =>
      handleRecordPositionChange recordId dragging redrawn w
  | recordDeleted recordId => handleRecordDeleted recordId w
  | connectionLineReset recordId => handleConnectionLineReset recordId w
  | handleMoved recordId segmentIndex newX newY isHorizontal isVertical =>
      updateConnectionPath recordId segmentIndex newX newY
        isHorizontal isVertical w
  | lineRemoved recordId => removeConnectionLine recordId w
  | lineDrawn recordId path => appendConnectionLine recordId path w
  | canvasCleared => clearCanvas w
  end.

(** The state the constructor leaves, on a canvas showing [group]. *)
Definition constructed (group : list PathElement) : World :=
  {| objects := [];
     connectionsGroup := group;
     selectedRecordId := None;
     isDragging := false;
     dragTarget := None;
     originalPathPoints := None;
     handlesGroup := [] |}.

(** *** Vocabulary of the properties *)

(** The record an event is about. *)
Definition eventRecordId (e : event) : option string :=
  match e with
  | recordSelected recordId
  | recordPositionChanged recordId _ _
  | recordDeleted recordId
  | connectionLineReset recordId
  | handleMoved recordId _ _ _ _ _
  | lineRemoved recordId
  | lineDrawn recordId _ => Some recordId
  | recordDeselected | canvasCleared => None
  end.

Definition literalEvent (e : event) : bool :=
  match eventRecordId e with
  | Some recordId => literalId recordId
  | None => true
  end.

End AdjusterEvents.

(** ** Saving an adjustment: the adjuster writes into the record store *)

Module AdjusterStore.
Import JSNumber PathModel Adjuster RecordManager.
Local Open Scope string_scope.

(** A point object [{x, y}] as a value of the store. *)
Definition pointValue (p : Point) : value :=
  VObj [("x", VNum (x p)); ("y", VNum (y p))].

(** The object literal
    [{isCustom: true, pathPoints: currentPoints, lastModified: Date.now()}]. *)
Definition connectionLineData (currentPoints : list Point) (now : Z) : value :=
  VObj [("isCustom", VBool true);
        ("pathPoints", VArr (map pointValue currentPoints));
        ("lastModified", VNum (ofZ now))].

(** [saveConnectionLineAdjustment]; [group] is the renderer's
    [connectionsGroup], [store] is [None] when [window.recordManager] is not
    set, [now] is [Date.now()] and [nowIso] is [new Date().toISOString()]. *)
Definition saveConnectionLineAdjustment
    (recordId : string) (now : Z) (nowIso : string)
    (group : list PathElement) (store : option RecordManager.World)
  : option RecordManager.World :=
  match querySelector group recordId with
  | None => store
  | Some connectionLine =>
      let currentPath := d connectionLine in
      if Str.isEmpty currentPath then store
      else
        let currentPoints := parsePathData currentPath in
        match store with
        | None => None
        | Some rm =>
            match records rm !! recordId with
            | None => store
            | Some record =>
                Some
                  {| records :=
                       <[recordId :=
                           {| id := id record;
                              connectionLine :=
                                Some (connectionLineData currentPoints now);
                              updatedAt := nowIso;
                              otherFields := otherFields record |}]>
                         (records rm);
                     storageManager :=
                       option_map triggerAutoSave (storageManager rm) |}
            end
        end
  end.

End AdjusterStore.

(** ** RecordManager: the connection line of a card that has been dropped *)

Module RecordManagerPosition.
Import JSNumber RecordManager.
Local Open Scope string_scope.

(** [record.connectionLine?.isCustom] *)
Definition customFlag (record : StoredRecord) : value :=
  match connectionLine record with
  | None | Some VUndefined | Some VNull => VUndefined
  | Some line => get line "isCustom"
  end.

(** [resetConnectionLineToDefault]: the record as the function leaves it,
    and whether the [connectionLineReset] event has been dispatched. *)
Definition resetConnectionLineToDefault (record : StoredRecord)
  : StoredRecord * bool :=
  if truthy (customFlag record) then
    ({| id := id record;
        connectionLine := None;
        updatedAt := updatedAt record;
        otherFields := otherFields record |}, true)
  else (record, false).

End RecordManagerPosition.

(** ** InteractionHandler: where a dragged card may go *)

Module InteractionHandler.
Import Geometry.
Local Open Scope R_scope.

(** [this.canvasBounds] *)
Record Bounds := mkBounds { width : R; height : R }.

Definition snapThreshold : R := 10.

(** [getConstrainedPosition]; [None] is the [null] that [canvasBounds]
    holds before the first measurement. *)
Definition getConstrainedPosition (canvasBounds : option Bounds)
    (x y width height : R) : Point :=
  match canvasBounds with
  | None => {| Geometry.x := x; Geometry.y := y |}
  | Some bounds =>
      let margin := 10 in
      let constrainedX :=
        Rmax margin (Rmin x (InteractionHandler.width bounds - width - margin)) in
      let constrainedY :=
        Rmax margin (Rmin y (InteractionHandler.height bounds - height - margin)) in
      {| Geometry.x := constrainedX; Geometry.y := constrainedY |}
  end.

(** [applySnapping]; [offsetWidth] and [offsetHeight] are those of the
    dragged card, and the grid snapping is switched off in the source. *)
Definition applySnapping (canvasBounds : option Bounds)
    (offsetWidth offsetHeight : R) (position : Point) : Point :=
  match canvasBounds with
  | None => position
  | Some bounds =>
      let x := Geometry.x position in
      let y := Geometry.y position in
      let x := if ltb (Rabs x) snapThreshold then 0 else x in
      let y := if ltb (Rabs y) snapThreshold then 0 else y in
      let x :=
        if ltb (Rabs (x - (InteractionHandler.width bounds - offsetWidth)))
               snapThreshold
        then InteractionHandler.width bounds - offsetWidth else x in
      let y :=
        if ltb (Rabs (y - (InteractionHandler.height bounds - offsetHeight)))
               snapThreshold
        then InteractionHandler.height bounds - offsetHeight else y in
      {| Geometry.x := x; Geometry.y := y |}
  end.

End InteractionHandler.

(** ** StorageManager: the format check of loaded year data *)

Module StorageFormat.
Import JSNumber RecordManager.
Local Open Scope string_scope.

(** [key in v] for the field names [validateRecordFormat] asks for, which
    no prototype defines; [None] is the [TypeError] of a right operand that
    is not an object. *)
Definition hasField (v : value) (key : string) : option bool :=
  match v with
  | VObj props => Some (existsb (fun kv => String.eqb (fst kv) key) props)
  | VArr _ => Some false
  | _ => None
  end.

(** [v.key]; [None] is the [TypeError] of reading a property of [null] or
    [undefined]. *)
Definition getProp (v : value) (key : string) : option value :=
  match v with
  | VUndefined | VNull => None
  | _ => Some (get v key)
  end.

(** [names.includes(v)] for an array of strings. *)
Definition includes (names : list string) (v : value) : bool :=
  match v with
  | VStr s => existsb (String.eqb s) names
  | _ => false
  end.

Definition requiredFields : list string :=
  ["id"; "date"; "type"; "content"; "position"; "size"].

(** The loop over [requiredFields]: [Some true] when every field is there. *)
Fixpoint hasFields (record : value) (fields : list string) : option bool :=
  match fields with
  | [] => Some true
  | field :: fields' =>
      match hasField record field with
      | None => None
      | Some false => Some false
      | Some true => hasFields record fields'
      end
  end.

(** [!a.x || !b.y || ...], read from left to right: [Some true] when one
    of the properties is falsy, [None] when a read throws first. *)
Fixpoint someFalsy (reads : list (value * string)) : option bool :=
  match reads with
  | [] => Some false
  | (receiver, key) :: reads' =>
      match getProp receiver key with
      | None => None
      | Some v => if truthy v then someFalsy reads' else Some true
      end
  end.

(** [validateRecordFormat]; [None] is a thrown [TypeError]. *)
Definition validateRecordFormat (record : value) : option bool :=
  match hasFields record requiredFields with
  | None => None
  | Some false => Some false
  | Some true =>
      if negb (includes ["text"; "image"] (get record "type")) then Some false
      else
        let position := get record "position" in
        let size := get record "size" in
        match someFalsy [(position, "x"); (position, "y");
                         (size, "width"); (size, "height")] with
        | None => None
        | Some true => Some false
        | Some false =>
            let borderColor := get record "borderColor" in
            if truthy borderColor
               && negb (includes ["classic"; "warm"; "fresh"; "elegant"; "soft"]
                          borderColor)
            then Some false
            else Some true
        end
  end.

(** The [for ... of] loop of [validateDataFormat]. *)
Fixpoint validateRecords (records : list value) : option bool :=
  match records with
  | [] => Some true
  | record :: records' =>
      match validateRecordFormat record with
      | None => None
      | Some false => Some false
      | Some true => validateRecords records'
      end
  end.

Definition validateDataFormat (data : value) : option bool :=
  if negb (truthy data) || negb (String.eqb (typeof data) "object")
  then Some false
  else
    let records := get data "records" in
    if negb (truthy (get data "year")) || negb (truthy records)
       || negb (isArray records)
    then Some false
    else
      match records with
      | VArr records => validateRecords records
      | _ => Some false
      end.

(** *** Vocabulary of the properties *)

(** A text card of 200 by 150 at the position [(x, y)]. *)
Definition cardAt (x y : number) : value :=
  VObj [("id", VStr "record_1"); ("date", VStr "2024-03-15");
        ("type", VStr "text"); ("content", VStr "note");
        ("position", VObj [("x", VNum x); ("y", VNum y)]);
        ("size", VObj [("width", VNum (ofZ 200)); ("height", VNum (ofZ 150))])].

End StorageFormat.

(** ** Strings and numbers behind [DateUtils] *)

Module JSString.
Import JSNumber.
Local Open Scope string_scope.

(** [s.padStart(targetLength, a)] for a filler of one character. *)
Definition padStart (targetLength : nat) (a : ascii) (s : string) : string :=
  Str.replicate (targetLength - String.length s) a ++ s.

(** [s.split(sep)] for a separator of one character: the pieces between its
    occurrences. *)
Fixpoint split (sep : ascii) (s : string) : list string :=
  match s with
  | "" => [""]
  | String a s' =>
      if Ascii.eqb a sep then "" :: split sep s'
      else
        match split sep s' with
        | piece :: pieces => String a piece :: pieces
        | [] => [String a ""]
        end
  end.

Definition trimStart (s : string) : string := snd (Str.span Regex.isSpace s).

Fixpoint trimEnd (s : string) : string :=
  match s with
  | String a s' =>
      match trimEnd s' with
      | "" => if Regex.isSpace a then "" else String a ""
      | t => String a t
      end
  | "" => ""
  end.

(** Leading and trailing white space removed; of the characters a string
    of this model holds, tab, line feed, vertical tab, form feed, carriage
    return and space are white space. *)
Definition trim (s : string) : string := trimEnd (trimStart s).

Definition digitOf (a : ascii) (lo : N) (count : N) (base : N) : option N :=
  let n := N_of_ascii a in
  if ((lo <=? n) && (n <? lo + count))%N then Some (n - lo + base)%N else None.

Definition hexDigit (a : ascii) : option N :=
  match digitOf a 48 10 0 with
  | Some v => Some v
  | None =>
      match digitOf a 65 6 10 with
      | Some v => Some v
      | None => digitOf a 97 6 10
      end
  end.

Definition octalDigit (a : ascii) : option N := digitOf a 48 8 0.
Definition binaryDigit (a : ascii) : option N := digitOf a 48 2 0.

Fixpoint radixValue (radix : N) (digit : ascii -> option N) (s : string)
    (acc : N) : option N :=
  match s with
  | "" => Some acc
  | String a s' =>
      match digit a with
      | Some v => radixValue radix digit s' (acc * radix + v)%N
      | None => None
      end
  end.

(** The digits of [0x...], [0o...] and [0b...]; at least one is needed. *)
Definition nonDecimal (radix : N) (digit : ascii -> option N) (s : string)
  : number :=
  match s with
  | "" => NaN
  | _ =>
      match radixValue radix digit s 0 with
      | Some v => Dec (Z.of_N v) 0
      | None => NaN
      end
  end.

(** The exponent part, up to the end of the text: nothing, or [e] or [E],
    an optional sign and digits. *)
Definition exponentPart (s : string) : option Z :=
  match s with
  | "" => Some 0%Z
  | String c s' =>
      if Ascii.eqb c "e" || Ascii.eqb c "E" then
        let (negative, ds) :=
          match s' with
          | String "-" t => (true, t)
          | String "+" t => (false, t)
          | _ => (false, s')
          end in
        if negb (Str.isEmpty ds) && Str.forallb isDigit ds then
          Some (if negative then (- Z.of_N (digitsValue ds))%Z
                else Z.of_N (digitsValue ds))
        else None
      else None
  end.

(** [m * 10 ^ (e - s)] *)
Definition scaled (m : N) (s : nat) (e : Z) : number :=
  if (Z.of_nat s <=? e)%Z then Dec (Z.of_N m * 10 ^ (e - Z.of_nat s)) 0
  else normalize (Z.of_N m) (Z.to_nat (Z.of_nat s - e)).

(** An unsigned decimal literal that is the whole text: [Infinity],
    [digits . digits? exponent?], [. digits exponent?] or
    [digits exponent?]. *)
Definition unsignedDecimal (s : string) : number :=
  if String.eqb s "Infinity" then Infinity
  else
    let (ip, r) := Str.span isDigit s in
    let (fp, r') :=
      match r with
      | String "." t => Str.span isDigit t
      | _ => ("", r)
      end in
    if Str.isEmpty ip && Str.isEmpty fp then NaN
    else
      match exponentPart r' with
      | Some e => scaled (digitsValue (ip ++ fp)) (String.length fp) e
      | None => NaN
      end.

(** [Number(s)] on a string: the text without the white space around it is
    empty (zero), a hexadecimal, octal or binary integer, or an optionally
    signed decimal literal; anything else is [NaN].  As for [parseFloat],
    the value is the exact decimal. *)
Definition stringToNumber (s : string) : number :=
  match trim s with
  | "" => Dec 0 0
  | String "+" t => unsignedDecimal t
  | String "-" t => neg (unsignedDecimal t)
  | String "0" (String c t) as literal =>
      if Ascii.eqb c "x" || Ascii.eqb c "X" then nonDecimal 16 hexDigit t
      else if Ascii.eqb c "o" || Ascii.eqb c "O" then nonDecimal 8 octalDigit t
      else if Ascii.eqb c "b" || Ascii.eqb c "B" then nonDecimal 2 binaryDigit t
      else unsignedDecimal literal
  | literal => unsignedDecimal literal
  end.

(** A value inside a template literal; [None] is [undefined]. *)
Definition template (v : option number) : string :=
  match v with
  | Some n => toString n
  | None => "undefined"
  end.

End JSString.

(** ** DateUtils *)

Module DateUtils.
Import JSNumber JSString.
Local Open Scope Z_scope.

(** The calendar functions are given on integers: their callers pass loop
    counters and year numbers.  [%] is the remainder of the truncating
    division. *)
Definition isLeapYear (year : Z) : bool :=
  (Z.rem year 4 =? 0) && negb (Z.rem year 100 =? 0) || (Z.rem year 400 =? 0).

Definition daysInMonth : list Z :=
  [31; 28; 31; 30; 31; 30; 31; 31; 30; 31; 30; 31].

(** [None] is [undefined], what an index outside the array gives. *)
Definition getDaysInMonth (year month : Z) : option Z :=
  if (month =? 2) && isLeapYear year then Some 29
  else if month - 1 <? 0 then None
       else daysInMonth !! Z.to_nat (month - 1).

Definition getDaysInYear (year : Z) : Z :=
  if isLeapYear year then 366 else 365.

(** [a + b] where [None] is [undefined] or [NaN]: the sum is [NaN]. *)
Definition plus (a b : option Z) : option Z :=
  match a, b with
  | Some a, Some b => Some (a + b)
  | _, _ => None
  end.

(** The values of [m] in [for (let m = first; m <= last; m++)]. *)
Definition range (first last : Z) : list Z :=
  map (fun i => first + Z.of_nat i) (seq 0 (Z.to_nat (last - first + 1))).

(** [None] is [NaN]. *)
Definition getDayOfYear (year month day : Z) : option Z :=
  plus (fold_left (fun dayOfYear m => plus dayOfYear (getDaysInMonth year m))
          (range 1 (month - 1)) (Some 0))
       (Some day).

Local Open Scope string_scope.

(** [formatDate] on numbers (the [undefined] guard does not apply). *)
Definition formatDate (year month day : number) : string :=
  toString year ++ "-" ++ padStart 2 "0" (toString month)
  ++ "-" ++ padStart 2 "0" (toString day).

(** The object [{year, month, day}]; [None] is [undefined], the value of a
    missing element of the destructured array. *)
Record ParsedDate := mkParsedDate {
  year : option number;
  month : option number;
  day : option number
}.

Definition parseDate (dateString : string) : ParsedDate :=
  let parts := map stringToNumber (split "-" dateString) in
  {| year := parts !! 0%nat; month := parts !! 1%nat; day := parts !! 2%nat |}.

(** *** Vocabulary of the properties *)

(** [day] is a day of [month] in [year]. *)
Definition validDate (year month day : Z) : Prop :=
  exists n, getDaysInMonth year month = Some n /\ 1 <= month <= 12
            /\ 1 <= day <= n.

End DateUtils.

(** ** MathUtils, over the reals as the geometry engine *)

Module MathUtils.
Local Open Scope R_scope.

Definition degreesToRadians (degrees : R) : R := degrees * (PI / 180).

Definition getPointOnCircle (centerX centerY radius angle : R)
  : Geometry.Point :=
  let radians := degreesToRadians angle in
  {| Geometry.x := centerX + radius * cos radians;
     Geometry.y := centerY + radius * sin radians |}.

End MathUtils.

(** ** The date ring of class CircleRenderer *)

Module DateRing.
Import JSNumber JSString DateUtils.
Local Open Scope Z_scope.

(** What the renderer reads of [this.startDate]: nothing is set, or
    [new Date(this.startDate)] is an invalid date ([getMonth] and [getDate]
    give [NaN]), or [getMonth() + 1] and [getDate()]. *)
Inductive StartDate :=
| NoStart
| InvalidStart
| Start (startMonth startDay : Z).

Record Renderer := mkRenderer {
  currentYear : Z;
  startDate : StartDate
}.

Definition isStartDate (r : Renderer) (month day : Z) : bool :=
  match startDate r with
  | Start startMonth startDay => (month =? startMonth) && (day =? startDay)
  | _ => false
  end.

Definition calculateActualYear (r : Renderer) (month day : Z) : Z :=
  match startDate r with
  | NoStart => currentYear r
  | InvalidStart => currentYear r + 1
  | Start startMonth startDay =>
      if (startMonth <? month) || ((month =? startMonth) && (startDay <=? day))
      then currentYear r
      else currentYear r + 1
  end.

(** [None] is [NaN]. *)
Definition calculateTotalDaysInCycle (r : Renderer) : option Z :=
  match startDate r with
  | NoStart => Some (getDaysInYear (currentYear r))
  | _ =>
      fold_left
        (fun totalDays month =>
           plus totalDays
             (getDaysInMonth (calculateActualYear r month 1) month))
        (range 1 12) (Some 0)
  end.

Local Open Scope string_scope.

(** The attributes of a date dot other than its position. *)
Record DateDot := mkDateDot {
  dotRadius : number;
  dotClass : string;
  dataYear : Z;
  dataMonth : Z;
  dataDay : Z;
  dataDate : string;
  dataDayOfYear : Z
}.

(** The key [`${month}-${day}`] of the map [dateDots]. *)
Definition dateKey (month day : option number) : string :=
  template month ++ "-" ++ template day.

(** The dot made by the body of the inner loop of [drawDates]. *)
Definition dateDot (r : Renderer) (month day currentDayOfYear : Z) : DateDot :=
  let isStartDate := isStartDate r month day in
  let actualYear := calculateActualYear r month day in
  {| dotRadius := if isStartDate then ofZ 4 else Dec 25 1;
     dotClass := if isStartDate then "date-dot start-date" else "date-dot";
     dataYear := actualYear;
     dataMonth := month;
     dataDay := day;
     dataDate := formatDate (ofZ actualYear) (ofZ month) (ofZ day);
     dataDayOfYear := currentDayOfYear |}.

(** The state of the loops of [drawDates]: the counter, the dots appended
    to [datesGroup] in order (the rings around a start date are left out),
    and the map [dateDots]. *)
Record Dates := mkDates {
  currentDayOfYear : Z;
  dots : list DateDot;
  dateDots : gmap string DateDot
}.

Definition drawDay (r : Renderer) (month : Z) (st : Dates) (day : Z) : Dates :=
  let k := (currentDayOfYear st + 1)%Z in
  let dot := dateDot r month day k in
  {| currentDayOfYear := k;
     dots := (dots st ++ [dot])%list;
     dateDots :=
       <[dateKey (Some (ofZ month)) (Some (ofZ day)) := dot]> (dateDots st) |}.

Definition drawMonth (r : Renderer) (st : Dates) (month : Z) : Dates :=
  let actualYear := calculateActualYear r month 1 in
  match getDaysInMonth actualYear month with
  | Some daysInMonth => fold_left (drawDay r month) (range 1 daysInMonth) st
  | None => st
  end.

(** [drawDates], after [clearCanvas] has emptied the map. *)
Definition drawDates (r : Renderer) : Dates :=
  fold_left (drawMonth r) (range 1 12)
    {| currentDayOfYear := 0; dots := []; dateDots := ∅ |}.

Local Open Scope R_scope.

(** The angle of the dot of day [currentDayOfYear], in degrees. *)
Definition dotAngle (currentDayOfYear yearDays : Z) : R :=
  IZR (currentDayOfYear - 1) / IZR yearDays * 360 - 90.

Definition dotPosition (centerX centerY dateRadius : R)
    (currentDayOfYear yearDays : Z) : Geometry.Point :=
  MathUtils.getPointOnCircle centerX centerY dateRadius
    (dotAngle currentDayOfYear yearDays).

(** *** Vocabulary of the properties *)

(** The length of February is read in the year of February 1st and the
    dots of February are labelled day by day; the two agree unless the
    cycle starts inside February and only one of the two years is a leap
    year. *)
Definition februaryAligned (r : Renderer) : Prop :=
  match startDate r with
  | Start 2 startDay =>
      (startDay <= 1)%Z
      \/ isLeapYear (currentYear r) = isLeapYear (currentYear r + 1)
  | _ => True
  end.

Local Open Scope Z_scope.

(** The dates of the cycle, in the order of the loops. *)
Definition cycleDays (r : Renderer) (month : Z) : list Z :=
  match getDaysInMonth (calculateActualYear r month 1) month with
  | Some daysInMonth => range 1 daysInMonth
  | None => []
  end.

Definition cycleDates (r : Renderer) : list (Z * Z) :=
  flat_map (fun month => map (pair month) (cycleDays r month)) (range 1 12).

(** The key and the dot of the date at position [i] of the cycle. *)
Definition keyOf (date : Z * Z) : string :=
  dateKey (Some (ofZ (fst date))) (Some (ofZ (snd date))).

Definition dotOf (r : Renderer) (i : nat) (date : Z * Z) : DateDot :=
  dateDot r (fst date) (snd date) (Z.of_nat i + 1).

(** The state in which [drawDates] starts. *)
Definition emptyDates : Dates :=
  {| currentDayOfYear := 0; dots := []; dateDots := ∅ |}.

(** One round of the inner loop. *)
Definition drawDate (r : Renderer) (st : Dates) (date : Z * Z) : Dates :=
  drawDay r (fst date) st (snd date).

End DateRing.

(** * Properties *)

(** ** The number model on values known from JavaScript *)

Section NumberExamples.
Import JSNumber.
Local Open Scope string_scope.

Example toString_examples :
  map toString
    [ofZ 50; ofZ (-5); Dec 505 1; Dec 1 6; Dec 1 7; Dec 123456 12;
     ofZ (10 ^ 20); ofZ (10 ^ 21); ofZ (12 * 10 ^ 21); NaN; Infinity; Inf true]
  = ["50"; "-5"; "50.5"; "0.000001"; "1e-7"; "1.23456e-7";
     "100000000000000000000"; "1e+21"; "1.2e+22"; "NaN"; "Infinity";
     "-Infinity"].
Proof. vm_compute. reflexivity. Qed.

Example parseFloat_examples :
  map parseFloat
    ["50"; "-5"; "50.5"; "0.000001"; "5."; ".5"; "-.5"; "007"; "1.2.3";
     "1-2"; "--5"; "-"; "."; ""]
  = [ofZ 50; ofZ (-5); Dec 505 1; Dec 1 6; ofZ 5; Dec 5 1; Dec (-5) 1; ofZ 7;
     Dec 12 1; ofZ 1; NaN; NaN; NaN; NaN].
Proof. vm_compute. reflexivity. Qed.

Example arithmetic_examples :
  add (ofZ 0) (mul (sub (ofZ 101) (ofZ 0)) half) = Dec 505 1
  /\ div2 (add (ofZ 0) (ofZ 50)) = ofZ 25
  /\ sub Infinity Infinity = NaN
  /\ ltb (abs (sub (ofZ 3) (ofZ 7))) (ofZ 5) = true
  /\ ltb NaN (ofZ 5) = false.
Proof. vm_compute. repeat split. Qed.

Example match_examples :
  Regex.matchGlobal Regex.commandRe "M 0 0 L 50 0 L 50.5 -7"
  = ["M 0 0"; "L 50 0"; "L 50.5 -7"]
  /\ Regex.matchGlobal Regex.commandRe "M NaN 0 L 12e-7 5 M12 L 5 6"
     = ["L 12"; "M12"; "L 5 6"]
  /\ Regex.matchGlobal Regex.coordRe "L 50.5 -7" = ["50.5"; "-7"]
  /\ Regex.matchGlobal Regex.coordRe "M12" = ["12"].
Proof. vm_compute. repeat split. Qed.

End NumberExamples.

(** ** Facts about the geometry engine *)

Section GeometryFacts.
Import Geometry.
Local Open Scope R_scope.

Lemma geb_true a b : geb a b = true <-> b <= a.
Proof. unfold geb; destruct (Rle_dec b a); split; intros; try easy. Qed.

Lemma geb_false a b : geb a b = false <-> a < b.
Proof. unfold geb; destruct (Rle_dec b a); split; intros; try easy; lra. Qed.

Lemma leb_true a b : leb a b = true <-> a <= b.
Proof. unfold leb; destruct (Rle_dec a b); split; intros; try easy. Qed.

Lemma leb_false a b : leb a b = false <-> b < a.
Proof. unfold leb; destruct (Rle_dec a b); split; intros; try easy; lra. Qed.

Lemma gtb_true a b : gtb a b = true <-> b < a.
Proof. unfold gtb; destruct (Rlt_dec b a); split; intros; try easy. Qed.

Lemma gtb_false a b : gtb a b = false <-> a <= b.
Proof. unfold gtb; destruct (Rlt_dec b a); split; intros; try easy; lra. Qed.

Lemma ltb_true a b : ltb a b = true <-> a < b.
Proof. unfold ltb; destruct (Rlt_dec a b); split; intros; try easy. Qed.

Lemma ltb_false a b : ltb a b = false <-> b <= a.
Proof. unfold ltb; destruct (Rlt_dec a b); split; intros; try easy; lra. Qed.

Lemma eqb_true a b : eqb a b = true <-> a = b.
Proof. unfold eqb; destruct (Req_dec_T a b); split; intros; try easy. Qed.

(** The clamp [Math.max(lo, Math.min(hi, v))] stays within [lo, hi]. *)
Lemma clamp_range lo hi v : lo <= hi -> lo <= Rmax lo (Rmin hi v) <= hi.
Proof.
  intros H. unfold Rmax, Rmin.
  destruct (Rle_dec hi v); destruct (Rle_dec lo _); lra.
Qed.




Lemma insertSorted_head p l :
  exists h t, insertSorted p l = h :: t
    /\ ((h = p /\ forall q, hd_error l = Some q -> distance p <= distance q)
        \/ (hd_error l = Some h /\ distance h < distance p)).
Proof.
  destruct l as [| q l']; simpl.
  - exists p, []. split; [reflexivity |]. left. split; [reflexivity |]. discriminate.
  - destruct (ltb (distance q - distance p) 0) eqn:E.
    + apply ltb_true in E. exists q, (insertSorted p l'). split; [reflexivity |].
      right. split; [reflexivity | lra].
    + apply ltb_false in E. exists p, (q :: l'). split; [reflexivity |].
      left. split; [reflexivity |]. intros q' Hq. injection Hq as <-. lra.
Qed.

Lemma sort_head_firstMin l p t : sort l = p :: t -> firstMin l p.
Proof.
  revert p t. induction l as [| a l IH]; intros p t Hs; simpl in Hs.
  - discriminate.
  - destruct (insertSorted_head a (sort l)) as (h & t' & Hi & Hcase).
    rewrite Hi in Hs. injection Hs as -> ->.
    destruct Hcase as [[-> Hle] | [Hhd Hlt]].
    + (* the new entry stays in front *)
      exists 0%nat. split; [reflexivity |]. split; [intros j q Hj; inversion Hj |].
      intros q [<- | Hq]; [lra |].
      destruct (sort l) as [| m ms] eqn:Es.
      * destruct l; [destruct Hq | simpl in Es].
        destruct (insertSorted_head e (sort l)) as (? & ? & Hi' & _). congruence.
      * destruct (IH m ms eq_refl) as (k & _ & _ & Hmin).
        specialize (Hle m eq_refl). specialize (Hmin q Hq). lra.
    + destruct (sort l) as [| m ms] eqn:Es; [discriminate |].
      injection Hhd as ->.
      destruct (IH p ms eq_refl) as (k & Hk & Hbefore & Hmin).
      exists (S k). split; [exact Hk |]. split.
      * intros [| j] q Hj Hq; simpl in Hq.
        -- injection Hq as <-. exact Hlt.
        -- apply (Hbefore j); [apply PeanoNat.lt_S_n; exact Hj | exact Hq].
      * intros q [<- | Hq]; [lra | auto].
Qed.




Lemma edgePoints_onEdge tX tY cX cY w h e :
  0 <= w -> 0 <= h ->
  In e (edgePoints tX tY cX cY w h) ->
  onEdge (mkPoint (ex e) (ey e)) cX cY w h
  /\ distance e = dist (mkPoint tX tY) (mkPoint (ex e) (ey e)).
Proof.
  intros Hw Hh He.
  assert (Hcx := clamp_range cX (cX + w) tX ltac:(lra)).
  assert (Hcy := clamp_range cY (cY + h) tY ltac:(lra)).
  unfold edgePoints in He. simpl in He. unfold onEdge, dist.
  destruct He as [<- | [<- | [<- | [<- | []]]]]; simpl; (split; [| reflexivity]).
  - left. split; [now left | exact Hcy].
  - left. split; [now right | exact Hcy].
  - right. split; [now left | exact Hcx].
  - right. split; [now right | exact Hcx].
Qed.











Lemma sqrt_sum_squares_0 a b : sqrt (a * a + b * b) = 0 <-> a = 0 /\ b = 0.
Proof.
  split.
  - intros H. apply sqrt_eq_0 in H; [| nra]. split; nra.
  - intros [-> ->]. replace (0 * 0 + 0 * 0) with 0 by lra. apply sqrt_0.
Qed.

Lemma forced_center cX cY w h m :
  calculateForcedConnectionPoint (cX + w / 2) (cY + h / 2) cX cY w h m
  = mkPoint (cX - m) (cY + h / 2).
Proof.
  unfold calculateForcedConnectionPoint.
  replace (eqb _ 0) with true; [reflexivity |].
  symmetry. apply eqb_true. apply sqrt_sum_squares_0. lra.
Qed.

Lemma forced_off_center_onEdge tX tY cX cY w h m :
  0 <= w -> 0 <= h ->
  (tX <> cX + w / 2 \/ tY <> cY + h / 2) ->
  onEdge (calculateForcedConnectionPoint tX tY cX cY w h m) cX cY w h.
Proof.
  intros Hw Hh Hne.
  unfold calculateForcedConnectionPoint.
  destruct (eqb _ 0) eqn:E0.
  { apply eqb_true, sqrt_sum_squares_0 in E0. lra. }
  unfold onEdge.
  repeat match goal with
         | |- context [if ?b then _ else _] => destruct b
         end; cbn [x y].
  - left. split; [now right | apply clamp_range; lra].
  - left. split; [now left | apply clamp_range; lra].
  - right. split; [now right | apply clamp_range; lra].
  - right. split; [now left | apply clamp_range; lra].
Qed.

(** C2, as amended.  For a card of non-negative width and height,
    [calculateForcedConnectionPoint] returns a point on one of the four
    edges of the card whenever the target is not the centre of the card; for
    the centre itself it returns the point [minDistance] to the left of the
    left edge, at the height of the centre. *)
Theorem forcedConnectionPoint_onEdge_off_center tX tY cX cY w h m :
  0 <= w -> 0 <= h ->
  let centerX := cX + w / 2 in
  let centerY := cY + h / 2 in
  let p := calculateForcedConnectionPoint tX tY cX cY w h m in
  ((tX <> centerX \/ tY <> centerY) -> onEdge p cX cY w h)
  /\ (tX = centerX /\ tY = centerY -> p = mkPoint (cX - m) centerY).
Proof.
  intros Hw Hh centerX centerY p. split.
  - intros Hne. now apply forced_off_center_onEdge.
  - intros [-> ->]. apply forced_center.
Qed.

Lemma forcedConnectionPoint_onEdge_off_center_witness :
  onEdge (calculateForcedConnectionPoint 250 130 200 80 150 100 20) 200 80 150 100.
Proof.
  apply (forcedConnectionPoint_onEdge_off_center 250 130 200 80 150 100 20); lra.
Defined.

(** C2, counterexample.  The centre (50,50) of the card (0,0) of size 100 by
    100 is inside the card, and the fallback answers (-20,50), which lies
    on none of the four edges. *)
Lemma forcedConnectionPoint_center_off_edge :
  isInsideOrTooClose 50 50 0 0 100 100 = true
  /\ calculateClosestEdgePoint 50 50 0 0 100 100 = mkPoint (-20) 50
  /\ calculateForcedConnectionPoint 50 50 0 0 100 100 MIN_CONNECTION_LENGTH
     = mkPoint (-20) 50
  /\ ~ onEdge (calculateForcedConnectionPoint 50 50 0 0 100 100
                 MIN_CONNECTION_LENGTH) 0 0 100 100.
Proof.
  assert (Hin : isInsideOrTooClose 50 50 0 0 100 100 = true).
  { unfold isInsideOrTooClose, MIN_CONNECTION_LENGTH.
    repeat (apply andb_true_intro; split);
      first [apply geb_true | apply leb_true]; lra. }
  assert (Hf : calculateForcedConnectionPoint 50 50 0 0 100 100
                 MIN_CONNECTION_LENGTH = mkPoint (-20) 50).
  { replace 50 with (0 + 100 / 2) at 1 2 by lra.
    rewrite forced_center. unfold MIN_CONNECTION_LENGTH. f_equal; lra. }
  split; [exact Hin |]. split.
  { unfold calculateClosestEdgePoint. rewrite Hin. exact Hf. }
  split; [exact Hf |].
  rewrite Hf. unfold onEdge. cbn [x y]. lra.
Qed.

End GeometryFacts.

(** ** Facts about strings *)

Section StringFacts.
Local Open Scope string_scope.

(** [String.append] does not unfold under [simpl] once stdpp is loaded; its
    two equations are used as rewrite rules instead. *)
Lemma append_cons a (s t : string) : String a s ++ t = String a (s ++ t).
Proof. reflexivity. Qed.

Lemma append_empty_l (s : string) : "" ++ s = s.
Proof. reflexivity. Qed.

Lemma append_assoc (s t u : string) : (s ++ t) ++ u = s ++ t ++ u.
Proof.
  induction s as [| a s IH]; [reflexivity |].
  now rewrite !append_cons, IH.
Qed.

Lemma append_empty_r (s : string) : s ++ "" = s.
Proof.
  induction s as [| a s IH]; [reflexivity |]. now rewrite append_cons, IH.
Qed.

Lemma length_append (s t : string) :
  String.length (s ++ t) = (String.length s + String.length t)%nat.
Proof.
  induction s as [| a s IH]; [reflexivity |].
  rewrite append_cons. simpl. now rewrite IH.
Qed.

Lemma take_drop (n : nat) (s : string) : Str.take n s ++ Str.drop n s = s.
Proof.
  revert s. induction n as [| n IH]; intros [| a s]; simpl; try reflexivity.
  now rewrite append_cons, IH.
Qed.

Lemma take_append (s t : string) : Str.take (String.length s) (s ++ t) = s.
Proof.
  induction s as [| a s IH]; [now destruct t |].
  rewrite append_cons. simpl. now rewrite IH.
Qed.

Lemma length_drop (n : nat) (s : string) :
  String.length (Str.drop n s) = (String.length s - n)%nat.
Proof.
  revert s. induction n as [| n IH]; intros [| a s]; simpl; try reflexivity.
  apply IH.
Qed.

Lemma length_replicate (n : nat) (a : ascii) :
  String.length (Str.replicate n a) = n.
Proof. induction n as [| n IH]; simpl; [reflexivity | now rewrite IH]. Qed.

Lemma forallb_append f (s t : string) :
  Str.forallb f (s ++ t) = Str.forallb f s && Str.forallb f t.
Proof.
  induction s as [| a s IH]; [reflexivity |].
  rewrite append_cons. simpl. rewrite IH. apply andb_assoc.
Qed.

Lemma forallb_take f n (s : string) :
  Str.forallb f s = true -> Str.forallb f (Str.take n s) = true.
Proof.
  revert s. induction n as [| n IH]; intros [| a s]; simpl; try reflexivity.
  intros H. apply andb_prop in H as [-> H]. simpl. now apply IH.
Qed.

Lemma forallb_drop f n (s : string) :
  Str.forallb f s = true -> Str.forallb f (Str.drop n s) = true.
Proof.
  revert s. induction n as [| n IH]; intros [| a s]; simpl; try easy.
  intros H. apply andb_prop in H as [_ H]. now apply IH.
Qed.

Lemma forallb_replicate f n a :
  f a = true -> Str.forallb f (Str.replicate n a) = true.
Proof. intros H. induction n as [| n IH]; simpl; [reflexivity | now rewrite H]. Qed.

Lemma forallb_impl (f g : ascii -> bool) (s : string) :
  (forall a, f a = true -> g a = true) ->
  Str.forallb f s = true -> Str.forallb g s = true.
Proof.
  intros Hfg. induction s as [| a s IH]; simpl; [reflexivity |].
  intros H. apply andb_prop in H as [Ha H]. now rewrite (Hfg a Ha), IH.
Qed.

(** A run of [f]-characters followed by something that does not start with
    one is split right after the run. *)
Lemma span_run f (u r : string) :
  Str.forallb f u = true -> Str.startsWith f r = false ->
  Str.span f (u ++ r) = (u, r).
Proof.
  intros Hu Hr. induction u as [| a u IH].
  - rewrite append_empty_l. destruct r as [| b r]; [reflexivity |].
    simpl in *. now rewrite Hr.
  - rewrite append_cons. simpl in *.
    apply andb_prop in Hu as [-> Hu]. now rewrite (IH Hu).
Qed.

Lemma startsWith_append f (u r : string) :
  u <> "" -> Str.startsWith f (u ++ r) = Str.startsWith f u.
Proof. destruct u; [congruence | reflexivity]. Qed.

Lemma startsWith_forallb f (u : string) :
  u <> "" -> Str.forallb f u = true -> Str.startsWith f u = true.
Proof.
  destruct u; [congruence |]. simpl. intros _ H. now apply andb_prop in H as [-> _].
Qed.

End StringFacts.

(** ** Facts about printing and parsing numbers *)

Section NumberFacts.
Import JSNumber.
Local Open Scope string_scope.

Lemma reduce_canonical m s : canonical m s = true -> reduce m s = (m, s).
Proof.
  destruct s as [| s]; [reflexivity |]. simpl. intros H.
  apply negb_true_iff in H. now rewrite H.
Qed.

Lemma normalize_canonical m s : canonical m s = true -> normalize m s = Dec m s.
Proof. intros H. unfold normalize. now rewrite reduce_canonical. Qed.

Lemma uint_all_digits (u : Decimal.uint) :
  Str.forallb isDigit (NilEmpty.string_of_uint u) = true.
Proof. induction u; simpl; auto. Qed.

Lemma digits_all_digits (n : N) : Str.forallb isDigit (digits n) = true.
Proof. apply uint_all_digits. Qed.

Lemma digits_nonempty (n : N) : digits n <> "".
Proof.
  unfold digits. destruct n as [| p]; [discriminate |]. simpl.
  pose proof (DecimalPos.Unsigned.to_uint_nonnil p) as H.
  destruct (Pos.to_uint p); simpl; congruence.
Qed.

Lemma digitsValue_digits (n : N) : digitsValue (digits n) = n.
Proof.
  unfold digitsValue, digits. rewrite NilEmpty.usu. apply DecimalN.Unsigned.of_to.
Qed.

Lemma digitsValue_zero (s : string) : digitsValue (String "0" s) = digitsValue s.
Proof.
  unfold digitsValue. simpl.
  destruct (NilEmpty.uint_of_string s); reflexivity.
Qed.

Lemma digitsValue_zeros (k : nat) (s : string) :
  digitsValue (Str.replicate k "0" ++ s) = digitsValue s.
Proof.
  induction k as [| k IH]; simpl; [reflexivity |].
  now rewrite append_cons, digitsValue_zero.
Qed.

Lemma isDigit_not_minus a : isDigit a = true -> Ascii.eqb a "-" = false.
Proof.
  destruct a as [[] [] [] [] [] [] [] []]; try reflexivity; discriminate.
Qed.

Lemma parseFloat_unsigned (s : string) :
  Str.startsWith isDigit s = true -> parseFloat s = parseUnsigned s.
Proof.
  destruct s as [| a s]; [reflexivity |]. simpl. intros H.
  apply isDigit_not_minus in H.
  destruct a as [[] [] [] [] [] [] [] []]; try reflexivity; discriminate.
Qed.

Lemma positiveToString_shape (m : N) (s : nat) :
  positional m s ->
  let ds := digits m in
  let len := String.length ds in
  positiveToString m s
  = match s with
    | O => ds
    | S _ => if (s <? len)%nat
             then Str.take (len - s) ds ++ "." ++ Str.drop (len - s) ds
             else "0." ++ Str.replicate (s - len) "0" ++ ds
    end.
Proof.
  unfold positional, positiveToString. intros H. cbv zeta.
  set (len := String.length (digits m)) in *.
  destruct s as [| s'].
  - replace (Z.of_nat len - Z.of_nat 0 <=? 21)%Z with true; [reflexivity |].
    symmetry. apply Z.leb_le. lia.
  - set (s := S s') in *.
    destruct (s <? len)%nat eqn:E.
    + apply Nat.ltb_lt in E.
      replace ((0 <? Z.of_nat len - Z.of_nat s)
               && (Z.of_nat len - Z.of_nat s <=? 21))%Z with true;
        [reflexivity |].
      symmetry. apply andb_true_intro. split; [apply Z.ltb_lt | apply Z.leb_le]; lia.
    + apply Nat.ltb_ge in E.
      replace ((0 <? Z.of_nat len - Z.of_nat s)
               && (Z.of_nat len - Z.of_nat s <=? 21))%Z with false.
      2:{ symmetry. apply andb_false_intro1. apply Z.ltb_ge. lia. }
      replace ((-6 <? Z.of_nat len - Z.of_nat s)
               && (Z.of_nat len - Z.of_nat s <=? 0))%Z with true;
        [reflexivity |].
      symmetry. apply andb_true_intro. split; [apply Z.ltb_lt | apply Z.leb_le]; lia.
Qed.

Lemma parseUnsigned_positive (m : N) (s : nat) :
  canonical (Z.of_N m) s = true -> positional m s ->
  parseUnsigned (positiveToString m s) = Dec (Z.of_N m) s.
Proof.
  intros Hc Hp. rewrite (positiveToString_shape m s Hp). cbv zeta.
  pose proof (digits_all_digits m) as Hd.
  pose proof (digits_nonempty m) as Hne.
  pose proof (digitsValue_digits m) as Hv.
  set (ds := digits m) in *. set (len := String.length ds).
  unfold parseUnsigned.
  destruct s as [| s'].
  - rewrite <- (append_empty_r ds) at 1.
    rewrite span_run by auto.
    rewrite append_empty_r, Hv.
    destruct ds; [congruence |]. simpl. now apply normalize_canonical.
  - set (s := S s') in *.
    destruct (s <? len)%nat eqn:E.
    + apply Nat.ltb_lt in E.
      rewrite span_run; [| now apply forallb_take | reflexivity].
      rewrite append_cons, append_empty_l.
      rewrite <- (append_empty_r (Str.drop (len - s) ds)).
      rewrite span_run; [| now apply forallb_drop | reflexivity].
      cbn [fst]. rewrite take_drop, Hv.
      assert (Hl : String.length (Str.drop (len - s) ds) = s)
        by (rewrite length_drop; fold len; lia).
      rewrite Hl.
      replace (Str.isEmpty (Str.drop (len - s) ds)) with false.
      2:{ destruct (Str.drop (len - s) ds); [discriminate | reflexivity]. }
      rewrite andb_false_r. now apply normalize_canonical.
    + apply Nat.ltb_ge in E.
      change ("0." ++ Str.replicate (s - len) "0" ++ ds)
        with ("0" ++ String "." (Str.replicate (s - len) "0" ++ ds)).
      rewrite span_run; [| reflexivity | reflexivity].
      rewrite <- (append_empty_r (Str.replicate (s - len) "0" ++ ds)).
      rewrite span_run; [| | reflexivity].
      2:{ rewrite forallb_append, Hd, andb_true_r. now apply forallb_replicate. }
      cbn [fst]. rewrite append_cons, append_empty_l.
      rewrite digitsValue_zero, digitsValue_zeros, Hv.
      rewrite length_append, length_replicate. fold len.
      replace (s - len + len)%nat with s by lia.
      simpl Str.isEmpty. cbn [andb]. now apply normalize_canonical.
Qed.

Lemma positiveToString_starts_digit (m : N) (s : nat) :
  positional m s -> Str.startsWith isDigit (positiveToString m s) = true.
Proof.
  intros Hp. rewrite (positiveToString_shape m s Hp). cbv zeta.
  pose proof (digits_all_digits m) as Hd.
  pose proof (digits_nonempty m) as Hne.
  set (ds := digits m) in *. set (len := String.length ds).
  destruct s as [| s'].
  - now apply startsWith_forallb.
  - set (s := S s') in *. destruct (s <? len)%nat eqn:E; [| reflexivity].
    apply Nat.ltb_lt in E.
    assert (Ht : Str.take (len - s) ds <> "").
    { destruct (len - s)%nat eqn:En; [lia |].
      destruct ds; [congruence | discriminate]. }
    rewrite startsWith_append by exact Ht.
    apply startsWith_forallb; [exact Ht | now apply forallb_take].
Qed.

Lemma isDigit_isNumChar a : isDigit a = true -> Regex.isNumChar a = true.
Proof. intros H. unfold Regex.isNumChar. now rewrite H. Qed.

Lemma positiveToString_numChars (m : N) (s : nat) :
  positional m s -> Str.forallb Regex.isNumChar (positiveToString m s) = true.
Proof.
  intros Hp. rewrite (positiveToString_shape m s Hp). cbv zeta.
  pose proof (forallb_impl _ _ _ isDigit_isNumChar (digits_all_digits m)) as Hd.
  set (ds := digits m) in *. set (len := String.length ds).
  destruct s as [| s']; [exact Hd |].
  destruct (S s' <? len)%nat.
  - rewrite forallb_append, forallb_take by exact Hd.
    rewrite append_cons, append_empty_l. simpl.
    now apply forallb_drop.
  - change ("0." ++ Str.replicate (S s' - len) "0" ++ ds)
      with ("0" ++ String "." (Str.replicate (S s' - len) "0" ++ ds)).
    rewrite append_cons, append_empty_l. simpl.
    rewrite forallb_append, Hd, andb_true_r. now apply forallb_replicate.
Qed.

Lemma canonical_opp m s : canonical (- m) s = canonical m s.
Proof.
  destruct s as [| s]; [reflexivity |]. simpl. f_equal.
  destruct (Z.eqb_spec (m mod 10) 0) as [H | H];
    destruct (Z.eqb_spec (- m mod 10) 0) as [H' | H']; try reflexivity; exfalso.
  - apply H'. apply Z.mod_divide in H; [| lia].
    apply Z.mod_divide; [lia |]. apply Z.divide_opp_r. exact H.
  - apply H. apply Z.mod_divide in H'; [| lia].
    apply Z.mod_divide; [lia |]. apply Z.divide_opp_r. exact H'.
Qed.

Lemma plain_inv a :
  plain a = true ->
  exists m s, a = Dec m s /\ canonical m s = true
              /\ positional (Z.to_N (Z.abs m)) s.
Proof.
  destruct a as [| n | m s]; try discriminate. simpl. intros H.
  apply andb_prop in H as [Hc H]. apply andb_prop in H as [H1 H2].
  apply Z.ltb_lt in H1. apply Z.leb_le in H2.
  exists m, s. repeat split; auto; unfold positional; lia.
Qed.

(** Printing a plain number and parsing the text gives the number back. *)
Lemma parseFloat_toString a : plain a = true -> parseFloat (toString a) = a.
Proof.
  intros H. destruct (plain_inv a H) as (m & s & -> & Hc & Hp).
  unfold toString. rewrite (reduce_canonical m s Hc).
  destruct (Z.eqb_spec m 0) as [-> | Hm0].
  - destruct s; [reflexivity | discriminate].
  - destruct (Z.ltb_spec m 0) as [Hneg | Hpos].
    + rewrite append_cons, append_empty_l.
      replace (Z.abs m) with (- m)%Z in Hp by lia.
      change (parseFloat (String "-" ?x)) with (neg (parseUnsigned x)).
      rewrite parseUnsigned_positive; [| | exact Hp].
      * rewrite Z2N.id by lia. simpl. f_equal. lia.
      * rewrite Z2N.id by lia. now rewrite canonical_opp.
    + replace (Z.abs m) with m in Hp by lia.
      rewrite parseFloat_unsigned by now apply positiveToString_starts_digit.
      rewrite parseUnsigned_positive; [| | exact Hp].
      * now rewrite Z2N.id by lia.
      * now rewrite Z2N.id by lia.
Qed.

(** The text of a plain number is a non-empty run of [[\d.-]]. *)
Lemma toString_numChars a :
  plain a = true ->
  Str.forallb Regex.isNumChar (toString a) = true /\ toString a <> "".
Proof.
  intros H. destruct (plain_inv a H) as (m & s & -> & Hc & Hp).
  unfold toString. rewrite (reduce_canonical m s Hc).
  destruct (Z.eqb_spec m 0) as [-> | Hm0]; [split; [reflexivity | discriminate] |].
  destruct (Z.ltb_spec m 0) as [Hneg | Hpos].
  - rewrite append_cons, append_empty_l. split; [| discriminate].
    simpl. apply positiveToString_numChars.
    now replace (Z.abs m) with (- m)%Z in Hp by lia.
  - replace (Z.abs m) with m in Hp by lia. split.
    + now apply positiveToString_numChars.
    + pose proof (positiveToString_starts_digit _ _ Hp) as Hs.
      destruct (positiveToString (Z.to_N m) s); [discriminate | discriminate].
Qed.

End NumberFacts.

(** ** Facts about the two regular expressions *)

Section RegexFacts.
Import Regex.
Local Open Scope string_scope.

Lemma star_run c k (u r : string) n :
  Str.forallb c u = true -> Str.startsWith c r = false -> k r = Some n ->
  star c k (u ++ r) = Some (String.length u + n)%nat.
Proof.
  intros Hu Hr Hk. induction u as [| a u IH].
  - rewrite append_empty_l. destruct r as [| b r]; simpl in *; [exact Hk |].
    now rewrite Hr.
  - rewrite append_cons. simpl in *. apply andb_prop in Hu as [-> Hu].
    now rewrite (IH Hu).
Qed.

Lemma matchAt_star_run c re (u r : string) n :
  Str.forallb c u = true -> Str.startsWith c r = false ->
  matchAt re r = Some n ->
  matchAt (Star c :: re) (u ++ r) = Some (String.length u + n)%nat.
Proof. intros. simpl. now apply star_run. Qed.

Lemma matchAt_plus_run c re (u r : string) n :
  u <> "" -> Str.forallb c u = true -> Str.startsWith c r = false ->
  matchAt re r = Some n ->
  matchAt (Plus c :: re) (u ++ r) = Some (String.length u + n)%nat.
Proof.
  intros Hne Hu Hr Hk. destruct u as [| a u]; [congruence |].
  rewrite append_cons. simpl in *. apply andb_prop in Hu as [-> Hu].
  now rewrite (star_run c _ u r n).
Qed.

Lemma matchAt_plus_none c re (s : string) :
  Str.startsWith c s = false -> matchAt (Plus c :: re) s = None.
Proof. destruct s as [| a s]; simpl; [reflexivity |]. now intros ->. Qed.

Lemma matchAt_one c re a (s : string) :
  c a = true -> matchAt (One c :: re) (String a s) = option_map S (matchAt re s).
Proof. intros H. simpl. now rewrite H. Qed.

Lemma matchAt_one_none c re (s : string) :
  Str.startsWith c s = false -> matchAt (One c :: re) s = None.
Proof. destruct s as [| a s]; simpl; [reflexivity |]. now intros ->. Qed.

(** Characters covered by the previous match are passed over. *)
Lemma matchGlobalFrom_skip re (u t : string) :
  matchGlobalFrom re (u ++ t) (String.length u) = matchGlobalFrom re t 0.
Proof.
  induction u as [| a u IH]; [reflexivity |].
  rewrite append_cons. simpl. exact IH.
Qed.

Lemma matchGlobalFrom_miss re a (s : string) :
  matchAt re (String a s) = None ->
  matchGlobalFrom re (String a s) 0 = matchGlobalFrom re s 0.
Proof. intros H. simpl matchGlobalFrom. now rewrite H. Qed.

Lemma matchGlobalFrom_hit re (u t : string) :
  u <> "" -> matchAt re (u ++ t) = Some (String.length u) ->
  matchGlobalFrom re (u ++ t) 0 = u :: matchGlobalFrom re t 0.
Proof.
  intros Hne H. destruct u as [| a u]; [congruence |].
  pose proof (take_append (String a u) t) as Ht.
  rewrite append_cons in *. simpl matchGlobalFrom. rewrite H.
  rewrite Ht. f_equal. simpl. rewrite Nat.sub_0_r. apply matchGlobalFrom_skip.
Qed.

Lemma isNumChar_not_space a : isNumChar a = true -> isSpace a = false.
Proof.
  destruct a as [[] [] [] [] [] [] [] []]; try reflexivity; discriminate.
Qed.

Lemma isML_not_numChar a : isML a = true -> isNumChar a = false.
Proof.
  destruct a as [[] [] [] [] [] [] [] []]; try reflexivity; discriminate.
Qed.

Lemma sep_not_numChar r : sep r -> Str.startsWith isNumChar r = false.
Proof. intros [-> | [r' ->]]; reflexivity. Qed.

Section Command.
Variables (cmd : ascii) (X Y : string).
Hypothesis Hcmd : isML cmd = true.
Hypothesis HX : Str.forallb isNumChar X = true.
Hypothesis HXne : X <> "".
Hypothesis HY : Str.forallb isNumChar Y = true.
Hypothesis HYne : Y <> "".

Local Abbreviation commandText := (Regex.commandText cmd X Y).

Lemma startsWith_space_run (r : string) :
  Str.startsWith isSpace (X ++ r) = false.
Proof.
  rewrite startsWith_append by exact HXne.
  destruct X as [| a X']; [congruence |]. simpl in *.
  apply andb_prop in HX as [Ha _]. now apply isNumChar_not_space.
Qed.

Lemma matchAt_commandText (rest : string) :
  sep rest ->
  matchAt commandRe (commandText ++ rest) = Some (String.length commandText).
Proof.
  intros Hrest. unfold commandText, commandRe.
  rewrite append_cons, !append_assoc.
  rewrite matchAt_one by exact Hcmd.
  rewrite (matchAt_star_run isSpace _ " " _
             (String.length X + (1 + (String.length Y + 0)))%nat).
  - cbn [option_map]. f_equal. simpl String.length.
    rewrite !length_append. simpl. lia.
  - reflexivity.
  - apply startsWith_space_run.
  - apply matchAt_plus_run; [exact HXne | exact HX | reflexivity |].
    apply (matchAt_star_run isSpace _ " "); [reflexivity | |].
    + destruct Y as [| b Y']; [congruence |]. rewrite append_cons. simpl in *.
      apply andb_prop in HY as [Hb _]. now apply isNumChar_not_space.
    + apply matchAt_plus_run; [exact HYne | exact HY | | reflexivity].
      now apply sep_not_numChar.
Qed.

Lemma matchGlobal_commandText (rest : string) :
  sep rest ->
  matchGlobalFrom commandRe (commandText ++ rest) 0
  = commandText :: matchGlobalFrom commandRe rest 0.
Proof.
  intros Hrest. apply matchGlobalFrom_hit; [discriminate |].
  now apply matchAt_commandText.
Qed.

(** The coordinates found in the text of a command. *)
Lemma matchGlobal_coords : matchGlobal coordRe commandText = [X; Y].
Proof.
  unfold matchGlobal, commandText, coordRe.
  rewrite matchGlobalFrom_miss
    by (apply matchAt_plus_none; simpl; now apply isML_not_numChar).
  rewrite append_cons, append_empty_l.
  rewrite matchGlobalFrom_miss by reflexivity.
  rewrite matchGlobalFrom_hit; [| exact HXne |].
  2:{ rewrite <- (Nat.add_0_r (String.length X)).
      apply matchAt_plus_run; auto. }
  f_equal. rewrite append_cons, append_empty_l.
  rewrite matchGlobalFrom_miss by reflexivity.
  replace (matchGlobalFrom [Plus isNumChar] Y 0)
    with (matchGlobalFrom [Plus isNumChar] (Y ++ "") 0)
    by now rewrite append_empty_r.
  rewrite matchGlobalFrom_hit; [reflexivity | exact HYne |].
  rewrite <- (Nat.add_0_r (String.length Y)).
  apply matchAt_plus_run; auto.
Qed.

End Command.
End RegexFacts.

(** ** Serialising and parsing paths *)

Section PathFacts.
Import JSNumber PathModel Regex.
Local Open Scope string_scope.

Lemma moveTo_command p : moveTo p = pointCommand "M" p.
Proof. reflexivity. Qed.

Lemma lineTo_command path p : lineTo path p = path ++ " " ++ pointCommand "L" p.
Proof. reflexivity. Qed.

Lemma fold_lineTo points path :
  fold_left lineTo points path = path ++ lineCommands points.
Proof.
  revert path. induction points as [| p points IH]; intros path; simpl.
  - now rewrite append_empty_r.
  - rewrite IH, lineTo_command. now rewrite !append_assoc.
Qed.

Lemma sep_lineCommands points : sep (lineCommands points).
Proof.
  destruct points as [| p points]; [now left |]. right. simpl. eauto.
Qed.

Lemma matchGlobal_lineCommands points :
  Forall plainPoint points ->
  matchGlobalFrom commandRe (lineCommands points) 0
  = map (pointCommand "L") points.
Proof.
  induction 1 as [| p points [Hx Hy] _ IH]; [reflexivity |].
  destruct (toString_numChars _ Hx) as [Hcx Hnx].
  destruct (toString_numChars _ Hy) as [Hcy Hny].
  cbn [lineCommands map]. rewrite append_cons, append_empty_l.
  rewrite matchGlobalFrom_miss by reflexivity.
  unfold pointCommand at 1.
  rewrite matchGlobal_commandText; auto using sep_lineCommands.
  now rewrite IH.
Qed.

Lemma parsePathData_commands pathData :
  parsePathData pathData
  = if Str.isEmpty pathData then []
    else flat_map parseCommand (matchGlobalFrom commandRe pathData 0).
Proof. reflexivity. Qed.

Lemma parse_command cmd p :
  isML cmd = true -> plainPoint p -> parseCommand (pointCommand cmd p) = [p].
Proof.
  intros Hcmd [Hx Hy].
  destruct (toString_numChars _ Hx) as [Hcx Hnx].
  destruct (toString_numChars _ Hy) as [Hcy Hny].
  unfold parseCommand, pointCommand. rewrite matchGlobal_coords by assumption.
  rewrite !parseFloat_toString by assumption. now destruct p.
Qed.

Lemma parse_lineCommands points :
  Forall plainPoint points ->
  flat_map parseCommand (map (pointCommand "L") points) = points.
Proof.
  induction 1 as [| p ps Hp _ IH]; [reflexivity |].
  cbn [map flat_map]. rewrite (parse_command "L" p eq_refl Hp).
  cbn [app]. now rewrite IH.
Qed.

Lemma parsePathData_generate p0 p1 points :
  Forall plainPoint (p0 :: p1 :: points) ->
  parsePathData (generatePathFromPoints (p0 :: p1 :: points))
  = p0 :: p1 :: points.
Proof.
  intros Hall. inversion Hall as [| ? ? Hp0 Hrest]; subst.
  unfold generatePathFromPoints. rewrite fold_lineTo, moveTo_command.
  rewrite parsePathData_commands.
  replace (Str.isEmpty _) with false by reflexivity.
  pose proof Hp0 as [Hx Hy].
  destruct (toString_numChars _ Hx) as [Hcx Hnx].
  destruct (toString_numChars _ Hy) as [Hcy Hny].
  unfold pointCommand at 1.
  rewrite matchGlobal_commandText; auto using sep_lineCommands.
  rewrite matchGlobal_lineCommands by exact Hrest.
  fold (pointCommand "M" p0).
  cbn [flat_map]. rewrite (parse_command "M" p0 eq_refl Hp0).
  cbn [app]. f_equal. now apply parse_lineCommands.
Qed.

(** C7, as amended.  For every path of at least two points whose
    coordinates are finite and print in positional notation (no exponent),
    parsing the generated path string gives the path back; the string is
    [M x0 y0] followed by [ L xi yi] for every further point. *)
Theorem lineString_roundtrip_plain (p : list Point) :
  (2 <= List.length p)%nat ->
  Forall plainPoint p ->
  parsePathData (generatePathFromPoints p) = p
  /\ exists p0 rest,
       p = p0 :: rest
       /\ generatePathFromPoints p = pointCommand "M" p0 ++ lineCommands rest.
Proof.
  intros Hlen Hall. destruct p as [| p0 [| p1 points]]; simpl in Hlen; try lia.
  split; [now apply parsePathData_generate |].
  exists p0, (p1 :: points). split; [reflexivity |].
  unfold generatePathFromPoints. now rewrite fold_lineTo, moveTo_command.
Qed.

Lemma lineString_roundtrip_plain_witness :
  generatePathFromPoints [pt 0 0; pt 50 0; pt 50 50; pt 100 50]
  = "M 0 0 L 50 0 L 50 50 L 100 50"
  /\ parsePathData (generatePathFromPoints [pt 0 0; pt 50 0; pt 50 50; pt 100 50])
     = [pt 0 0; pt 50 0; pt 50 50; pt 100 50].
Proof.
  split; [reflexivity |].
  apply (lineString_roundtrip_plain [pt 0 0; pt 50 0; pt 50 50; pt 100 50]);
    [simpl; lia | repeat constructor].
Defined.

(** C7, counterexample.  The coordinate 0.0000001 prints as [1e-7] and
    [NaN] prints as [NaN]; neither text is matched by [[\d.-]+], the [M]
    command is lost and one point comes back instead of two. *)
Lemma lineString_roundtrip_fails :
  (let p := [ {| x := Dec 1 7; y := ofZ 0 |}; pt 1 2 ] in
   generatePathFromPoints p = "M 1e-7 0 L 1 2"
   /\ parsePathData (generatePathFromPoints p) = [pt 1 2]
   /\ parsePathData (generatePathFromPoints p) <> p)
  /\
  (let p := [ {| x := NaN; y := ofZ 0 |}; pt 1 2 ] in
   generatePathFromPoints p = "M NaN 0 L 1 2"
   /\ parsePathData (generatePathFromPoints p) = [pt 1 2]
   /\ parsePathData (generatePathFromPoints p) <> p).
Proof. vm_compute. repeat split; discriminate. Qed.

End PathFacts.

(** ** Facts about the adjuster's heap and handles *)

Section AdjusterFacts.
Import JSNumber PathModel Adjuster.

Lemma allSegments_lookup f (points : list Point) :
  allSegments f points = true <->
  forall j p q, points !! j = Some p -> points !! S j = Some q -> f p q = true.
Proof.
  induction points as [| p [| q rest] IH].
  - split; [intros _ j p q H; discriminate | reflexivity].
  - split; [intros _ [| j] p' q H H'; discriminate | reflexivity].
  - cbn [allSegments]. rewrite andb_true_iff, IH. split.
    + intros [Hpq Hrest] [| j] p' q' Hp Hq.
      * simpl in Hp, Hq. congruence.
      * apply (Hrest j); assumption.
    + intros H. split.
      * apply (H 0%nat); reflexivity.
      * intros j p' q' Hp Hq. apply (H (S j)); assumption.
Qed.

Lemma deref_lookup (h : heap) (refs : list loc) j :
  Forall (fun l => l < List.length h)%nat refs ->
  deref h refs !! j = refs !! j ≫= (fun l => h !! l).
Proof.
  intros Hv. revert j. induction Hv as [| l refs Hl _ IH]; intros j.
  - reflexivity.
  - unfold deref in *. cbn [omap list_omap].
    destruct (lookup_lt_is_Some_2 h l Hl) as [p Hp]. rewrite Hp.
    destruct j as [| j]; simpl; [now rewrite Hp | apply IH].
Qed.

Lemma deref_length (h : heap) (refs : list loc) :
  Forall (fun l => l < List.length h)%nat refs ->
  List.length (deref h refs) = List.length refs.
Proof.
  induction 1 as [| l refs Hl _ IH]; [reflexivity |].
  unfold deref in *. cbn [omap list_omap].
  destruct (lookup_lt_is_Some_2 h l Hl) as [p Hp]. rewrite Hp. simpl. now rewrite IH.
Qed.

(** The references handed out by [allocPoints] read back as the points. *)
Lemma deref_alloc (h : heap) (points : list Point) :
  deref (h ++ points) (seq (List.length h) (List.length points)) = points.
Proof.
  apply list_eq. intros j. rewrite deref_lookup.
  - destruct (decide (j < List.length points)%nat) as [Hj | Hj].
    + rewrite lookup_seq_lt by exact Hj. simpl.
      rewrite lookup_app_r by lia. f_equal. lia.
    + rewrite (proj2 (lookup_ge_None points j)) by lia.
      rewrite (proj2 (lookup_ge_None (seq _ _) j)); [reflexivity |].
      rewrite length_seq. lia.
  - apply Forall_forall. intros l Hl. apply in_seq in Hl.
    rewrite length_app. lia.
Qed.

Lemma alloc_valid (h : heap) (points : list Point) :
  Forall (fun l => l < List.length (h ++ points))%nat
         (seq (List.length h) (List.length points)).
Proof.
  apply Forall_forall. intros l Hl. apply in_seq in Hl. rewrite length_app. lia.
Qed.

(** Assigning a field of the objects [refs !! i] and [refs !! S i]. *)
Lemma deref_alter (f : Point -> Point) (h : heap) (refs : list loc) i a b :
  base.NoDup refs ->
  Forall (fun l => l < List.length h)%nat refs ->
  refs !! i = Some a -> refs !! S i = Some b ->
  deref (alter f b (alter f a h)) refs
  = imap (fun j p => if (j =? i)%nat || (j =? S i)%nat then f p else p)
         (deref h refs).
Proof.
  intros Hnd Hv Ha Hb. apply list_eq. intros j.
  rewrite list_lookup_imap, !deref_lookup by (rewrite ?length_alter; exact Hv).
  destruct (refs !! j) as [l |] eqn:Hl; [| reflexivity]. simpl.
  assert (Hab : a <> b).
  { intros ->. pose proof (NoDup_lookup _ _ _ _ Hnd Ha Hb). lia. }
  destruct (Nat.eqb_spec j i) as [-> | Hji].
  - assert (l = a) by congruence. subst l. simpl.
    rewrite list_lookup_alter_ne by congruence.
    rewrite list_lookup_alter. now destruct (decide (a = a)).
  - destruct (Nat.eqb_spec j (S i)) as [-> | Hjs].
    + assert (l = b) by congruence. subst l. simpl.
      rewrite list_lookup_alter. destruct (decide (b = b)); [| congruence].
      now rewrite list_lookup_alter_ne by congruence.
    + simpl.
      assert (l <> a).
      { intros ->. apply Hji. exact (NoDup_lookup _ _ _ _ Hnd Hl Ha). }
      assert (l <> b).
      { intros ->. apply Hjs. exact (NoDup_lookup _ _ _ _ Hnd Hl Hb). }
      rewrite !list_lookup_alter_ne by congruence.
      now destruct (h !! l).
Qed.

Lemma querySelector_setPathData group recordId newPath el :
  querySelector group recordId = Some el ->
  querySelector (setPathData group recordId newPath) recordId
  = Some {| pathRecordId := pathRecordId el; d := newPath |}.
Proof.
  unfold querySelector. induction group as [| e group IH]; [discriminate |].
  simpl. destruct (String.eqb (pathRecordId e) recordId) eqn:E.
  - intros [= ->]. simpl. now rewrite E.
  - intros H. simpl. rewrite E. now apply IH.
Qed.

(** What [updateConnectionPath] does for a segment index in range. *)
Lemma updateConnectionPath_in_range
    recordId (w : World) el refs (i : nat) newX newY isHorizontal isVertical :
  querySelector (connectionsGroup w) recordId = Some el ->
  originalPathPoints w = Some refs ->
  base.NoDup refs ->
  Forall (fun l => l < List.length (objects w))%nat refs ->
  (S i < List.length refs)%nat ->
  let w' := updateConnectionPath recordId (Z.of_nat i) newX newY
              isHorizontal isVertical w in
  let before := deref (objects w) refs in
  let after := deref (objects w') refs in
  originalPathPoints w' = Some refs
  /\ List.length (objects w') = List.length (objects w)
  /\ after = (if isHorizontal then moved setY newY i before
              else if isVertical then moved setX newX i before
              else before)
  /\ querySelector (connectionsGroup w') recordId
     = Some {| pathRecordId := pathRecordId el;
               d := generatePathFromPoints after |}.
Proof.
  intros Hq Ho Hnd Hv Hi. cbv zeta.
  destruct (lookup_lt_is_Some_2 refs i ltac:(lia)) as [a Ha].
  destruct (lookup_lt_is_Some_2 refs (S i) Hi) as [b Hb].
  unfold updateConnectionPath. rewrite Hq, Ho.
  replace ((0 <=? Z.of_nat i) && (Z.of_nat i <? Z.of_nat (List.length refs) - 1))%Z
    with true.
  2:{ symmetry. apply andb_true_intro. split; [apply Z.leb_le | apply Z.ltb_lt]; lia. }
  rewrite Nat2Z.id, Ha, Hb. cbn [objects originalPathPoints connectionsGroup].
  split; [reflexivity |]. split.
  { destruct isHorizontal; [| destruct isVertical]; now rewrite ?length_alter. }
  split.
  { destruct isHorizontal; [| destruct isVertical]; try reflexivity;
      now apply deref_alter. }
  now apply querySelector_setPathData.
Qed.

(** The handle of segment [i] sits on the midpoint of the segment: its box
    is the 8 by 8 square around that point. *)
Lemma segmentHandles_cons k a b (rest : list Point) recordId :
  segmentHandles k (a :: b :: rest) recordId
  = createControlHandle (div2 (add (x a) (x b))) (div2 (add (y a) (y b)))
      k recordId (segmentIsHorizontal a b) (segmentIsVertical a b)
    :: segmentHandles (S k) (b :: rest) recordId.
Proof. reflexivity. Qed.

Lemma segmentHandles_lookup k (points : list Point) recordId i p q :
  points !! i = Some p -> points !! S i = Some q ->
  segmentHandles k points recordId !! i
  = Some (createControlHandle (div2 (add (x p) (x q))) (div2 (add (y p) (y q)))
            (k + i) recordId (segmentIsHorizontal p q) (segmentIsVertical p q)).
Proof.
  revert k i. induction points as [| a [| b rest] IH]; intros k i Hp Hq.
  - discriminate.
  - destruct i; discriminate.
  - destruct i as [| i].
    + simpl in Hp, Hq. injection Hp as <-. injection Hq as <-.
      rewrite segmentHandles_cons. simpl. now rewrite Nat.add_0_r.
    + rewrite segmentHandles_cons. change ((?h :: ?t) !! S i) with (t !! i).
      rewrite (IH (S k) i Hp Hq). do 2 f_equal. lia.
Qed.

Lemma segmentHandles_length k (points : list Point) recordId :
  List.length (segmentHandles k points recordId) = (List.length points - 1)%nat.
Proof.
  revert k. induction points as [| a [| b rest] IH]; intros k; try reflexivity.
  rewrite segmentHandles_cons. simpl List.length in *. rewrite IH. lia.
Qed.

Lemma parsePathData_empty : parsePathData "" = [].
Proof. reflexivity. Qed.

(** The state after [showControlHandles] on a path of at least two points. *)
Lemma showControlHandles_result recordId (w : World) el :
  querySelector (connectionsGroup w) recordId = Some el ->
  (2 <= List.length (parsePathData (d el)))%nat ->
  let points := parsePathData (d el) in
  showControlHandles recordId w
  = {| objects := objects w ++ points;
       connectionsGroup := connectionsGroup w;
       selectedRecordId := None;
       isDragging := isDragging w;
       dragTarget := dragTarget w;
       originalPathPoints :=
         Some (seq (List.length (objects w)) (List.length points));
       handlesGroup := segmentHandles 0 points recordId |}.
Proof.
  intros Hq Hlen. cbv zeta. unfold showControlHandles.
  cbn [hideControlHandles connectionsGroup objects]. rewrite Hq.
  destruct (Str.isEmpty (d el)) eqn:E.
  { destruct (d el); [| discriminate]. rewrite parsePathData_empty in Hlen.
    simpl in Hlen. lia. }
  unfold allocPoints. rewrite length_seq.
  replace (List.length (parsePathData (d el)) <? 2)%nat with false
    by (symmetry; apply Nat.ltb_ge; lia).
  unfold createSegmentControlHandles.
  cbn [objects connectionsGroup selectedRecordId isDragging dragTarget
       originalPathPoints handlesGroup].
  now rewrite deref_alloc.
Qed.

End AdjusterFacts.

(** ** The adjuster: selection, segment drag, card drag *)

Section AdjusterClaims.
Import JSNumber PathModel Adjuster.
Local Open Scope string_scope.

(** Every state [showControlHandles] leaves has a valid cached array, and
    [updateConnectionPath] keeps it valid: the hypotheses on [refs] in the
    theorems below hold throughout a selection. *)
Lemma showControlHandles_baselineValid recordId (w : World) :
  baselineValid (showControlHandles recordId w).
Proof.
  unfold showControlHandles, baselineValid.
  cbn [hideControlHandles connectionsGroup objects].
  destruct (querySelector (connectionsGroup w) recordId) as [el |];
    [| exact I].
  destruct (Str.isEmpty (d el)); [exact I |].
  unfold allocPoints.
  destruct (List.length (seq _ _) <? 2)%nat; [exact I |].
  cbn [createSegmentControlHandles originalPathPoints objects].
  split; [apply NoDup_seq | apply alloc_valid].
Qed.

Lemma updateConnectionPath_baselineValid
    recordId segmentIndex newX newY isHorizontal isVertical (w : World) :
  baselineValid w ->
  baselineValid (updateConnectionPath recordId segmentIndex newX newY
                   isHorizontal isVertical w).
Proof.
  unfold updateConnectionPath. intros H.
  destruct (querySelector (connectionsGroup w) recordId); [| exact H].
  destruct (originalPathPoints w) as [refs |] eqn:Ho; [| exact H].
  destruct (_ && _); [| exact H].
  unfold baselineValid in *. rewrite Ho in H. destruct H as [Hnd Hv].
  cbn [originalPathPoints objects].
  split; [exact Hnd |].
  destruct (refs !! Z.to_nat segmentIndex), (refs !! S (Z.to_nat segmentIndex));
    try exact Hv.
  destruct isHorizontal; [| destruct isVertical];
    now rewrite ?length_alter.
Qed.

(** C3.  The state after [showControlHandles recordId] when the connector
    of the record parses to at least two points: the original path points
    are cached and read back as the parsed points, there is one handle per
    segment, centred on the midpoint of its segment -- but
    [selectedRecordId] is [null], not [recordId]: [hideControlHandles],
    called right after the assignment, clears it. *)
Theorem showControlHandles_clears_selection recordId (w : World) el :
  querySelector (connectionsGroup w) recordId = Some el ->
  (2 <= List.length (parsePathData (d el)))%nat ->
  let points := parsePathData (d el) in
  let w' := showControlHandles recordId w in
  selectedRecordId w' = None
  /\ baseline w' = Some points
  /\ List.length (handlesGroup w') = (List.length points - 1)%nat
  /\ (forall i p q, points !! i = Some p -> points !! S i = Some q ->
        exists h, handlesGroup w' !! i = Some h
          /\ dataSegmentIndex h = i
          /\ handleX h = sub (div2 (add (x p) (x q))) (ofZ 4)
          /\ handleY h = sub (div2 (add (y p) (y q))) (ofZ 4)
          /\ handleWidth h = ofZ 8 /\ handleHeight h = ofZ 8
          /\ dataIsHorizontal h = segmentIsHorizontal p q
          /\ dataIsVertical h = segmentIsVertical p q).
Proof.
  intros Hq Hlen points w'. subst w'.
  rewrite (showControlHandles_result recordId w el Hq Hlen). fold points.
  unfold baseline.
  cbn [selectedRecordId originalPathPoints objects handlesGroup option_map].
  split; [reflexivity |]. split; [now rewrite deref_alloc |].
  split; [apply segmentHandles_length |].
  intros i p q Hp Hq'. eexists. split.
  - apply segmentHandles_lookup; eassumption.
  - repeat split.
Qed.

Lemma showControlHandles_clears_selection_witness :
  selectedRecordId
    (showControlHandles "r1" (worldShowing "M 0 0 L 50 0 L 50 50 L 100 50"))
  = None.
Proof.
  refine (proj1 (showControlHandles_clears_selection "r1"
                   (worldShowing "M 0 0 L 50 0 L 50 50 L 100 50")
                   {| pathRecordId := "r1";
                      d := "M 0 0 L 50 0 L 50 50 L 100 50" |} _ _)).
  - reflexivity.
  - vm_compute. lia.
Defined.

Lemma reduce_zero s : reduce 0 s = (0%Z, 0%nat).
Proof. induction s as [| s IH]; [reflexivity | exact IH]. Qed.

Lemma sub_diag a : isFinite a = true -> sub a a = Dec 0 0.
Proof.
  destruct a as [| n | m s]; try discriminate. intros _.
  unfold sub, neg, add, normalize, align.
  rewrite Nat.max_id, Nat.sub_diag.
  replace (m * 10 ^ Z.of_nat 0 + - m * 10 ^ Z.of_nat 0)%Z with 0%Z
    by (simpl Z.of_nat; lia).
  now rewrite reduce_zero.
Qed.

Lemma agree_refl a : isFinite a = true -> agree a a = true.
Proof. intros H. unfold agree. now rewrite sub_diag. Qed.

Lemma moved_lookup set v i (points : list Point) j :
  moved set v i points !! j
  = (fun p => if (j =? i)%nat || (j =? S i)%nat then set v p else p)
      <$> points !! j.
Proof. unfold moved. apply list_lookup_imap. Qed.

(** Moving a horizontal segment between vertical neighbours. *)
Lemma moved_setY_axisAligned v i (points : list Point) :
  isFinite v = true ->
  axisAligned points = true ->
  (forall j p q, S j = i \/ j = S i ->
     points !! j = Some p -> points !! S j = Some q ->
     agree (x p) (x q) = true) ->
  axisAligned (moved setY v i points) = true.
Proof.
  intros Hv Hal Hnb. unfold axisAligned in *.
  rewrite allSegments_lookup in *. intros j p' q'.
  rewrite !moved_lookup.
  destruct (points !! j) as [p |] eqn:Hp; [| discriminate].
  destruct (points !! S j) as [q |] eqn:Hq; [| discriminate].
  intros Hp' Hq'. apply (inj Some) in Hp', Hq'. subst p' q'.
  unfold axisAlignedPair.
  repeat match goal with
         | |- context [(?a =? ?b)%nat] => destruct (Nat.eqb_spec a b)
         end; try lia; unfold setY; cbn [orb x y];
    first [ rewrite (agree_refl v Hv); apply orb_true_r
          | rewrite (Hnb j p q ltac:(lia) Hp Hq); reflexivity
          | exact (Hal j p q Hp Hq) ].
Qed.

(** Moving a vertical segment between horizontal neighbours. *)
Lemma moved_setX_axisAligned v i (points : list Point) :
  isFinite v = true ->
  axisAligned points = true ->
  (forall j p q, S j = i \/ j = S i ->
     points !! j = Some p -> points !! S j = Some q ->
     agree (y p) (y q) = true) ->
  axisAligned (moved setX v i points) = true.
Proof.
  intros Hv Hal Hnb. unfold axisAligned in *.
  rewrite allSegments_lookup in *. intros j p' q'.
  rewrite !moved_lookup.
  destruct (points !! j) as [p |] eqn:Hp; [| discriminate].
  destruct (points !! S j) as [q |] eqn:Hq; [| discriminate].
  intros Hp' Hq'. apply (inj Some) in Hp', Hq'. subst p' q'.
  unfold axisAlignedPair.
  repeat match goal with
         | |- context [(?a =? ?b)%nat] => destruct (Nat.eqb_spec a b)
         end; try lia; unfold setX; cbn [orb x y];
    first [ rewrite (agree_refl v Hv); reflexivity
          | rewrite (Hnb j p q ltac:(lia) Hp Hq); apply orb_true_r
          | exact (Hal j p q Hp Hq) ].
Qed.

(** Where a drag keeps the segments horizontal or vertical: the new
    coordinate is finite, every segment was axis-aligned, and the ends of the
    segments next to the moved one agree in the coordinate that is not
    moved. *)
Lemma updateConnectionPath_between_perpendicular
    recordId (w : World) el refs (i : nat) newX newY isHorizontal isVertical :
  querySelector (connectionsGroup w) recordId = Some el ->
  originalPathPoints w = Some refs ->
  base.NoDup refs ->
  Forall (fun l => l < List.length (objects w))%nat refs ->
  (S i < List.length refs)%nat ->
  let before := deref (objects w) refs in
  let w' := updateConnectionPath recordId (Z.of_nat i) newX newY
              isHorizontal isVertical w in
  let after := deref (objects w') refs in
  querySelector (connectionsGroup w') recordId
  = Some {| pathRecordId := pathRecordId el;
            d := generatePathFromPoints after |}
  /\ List.length after = List.length before
  /\ (isHorizontal = true ->
      after = moved setY newY i before
      /\ (isFinite newY = true ->
          axisAligned before = true ->
          (forall j p q, S j = i \/ j = S i ->
             before !! j = Some p -> before !! S j = Some q ->
             agree (x p) (x q) = true) ->
          axisAligned after = true))
  /\ (isHorizontal = false -> isVertical = true ->
      after = moved setX newX i before
      /\ (isFinite newX = true ->
          axisAligned before = true ->
          (forall j p q, S j = i \/ j = S i ->
             before !! j = Some p -> before !! S j = Some q ->
             agree (y p) (y q) = true) ->
          axisAligned after = true)).
Proof.
  intros Hq Ho Hnd Hv Hi before w' after.
  destruct (updateConnectionPath_in_range recordId w el refs i newX newY
              isHorizontal isVertical Hq Ho Hnd Hv Hi)
    as (_ & _ & Hafter & Hd).
  fold w' in Hafter, Hd. fold before after in Hafter. fold after in Hd.
  split; [exact Hd |]. split.
  { rewrite Hafter. unfold moved.
    destruct isHorizontal; [| destruct isVertical]; now rewrite ?length_imap. }
  split.
  - intros ->. split; [exact Hafter |]. intros Hfin Hal Hnb.
    rewrite Hafter. now apply moved_setY_axisAligned.
  - intros -> ->. split; [exact Hafter |]. intros Hfin Hal Hnb.
    rewrite Hafter. now apply moved_setX_axisAligned.
Qed.

Lemma allSegments_false f (points : list Point) j p q :
  points !! j = Some p -> points !! S j = Some q -> f p q = false ->
  allSegments f points = false.
Proof.
  intros Hp Hq Hf. destruct (allSegments f points) eqn:E; [| reflexivity].
  rewrite allSegments_lookup in E. rewrite (E j p q Hp Hq) in Hf. discriminate.
Qed.

(** A segment whose ends disagree in both coordinates makes the path neither
    axis-aligned nor orthogonal. *)
Lemma slanted_segment (points : list Point) j p q :
  points !! j = Some p -> points !! S j = Some q ->
  agree (x p) (x q) = false -> agree (y p) (y q) = false ->
  axisAligned points = false /\ orthogonal points = false.
Proof.
  intros Hp Hq Hx Hy. split.
  - apply (allSegments_false _ _ j p q Hp Hq).
    unfold axisAlignedPair. now rewrite Hx, Hy.
  - apply (allSegments_false _ _ j p q Hp Hq).
    unfold orthogonalPair. now rewrite Hx, Hy.
Qed.

Lemma moved_slants_next set v i (points : list Point) p q :
  points !! S i = Some p -> points !! S (S i) = Some q ->
  agree (x (set v p)) (x q) = false -> agree (y (set v p)) (y q) = false ->
  axisAligned (moved set v i points) = false
  /\ orthogonal (moved set v i points) = false.
Proof.
  intros Hp Hq Hx Hy.
  apply (slanted_segment _ (S i) (set v p) q); try assumption.
  - rewrite moved_lookup, Hp. cbn [fmap option_fmap option_map].
    now rewrite Nat.eqb_refl, orb_true_r.
  - rewrite moved_lookup, Hq. cbn [fmap option_fmap option_map].
    replace (S (S i) =? i)%nat with false by (symmetry; apply Nat.eqb_neq; lia).
    replace (S (S i) =? S i)%nat with false
      by (symmetry; apply Nat.eqb_neq; lia).
    reflexivity.
Qed.

Lemma moved_slants_previous set v j (points : list Point) p q :
  points !! j = Some p -> points !! S j = Some q ->
  agree (x p) (x (set v q)) = false -> agree (y p) (y (set v q)) = false ->
  axisAligned (moved set v (S j) points) = false
  /\ orthogonal (moved set v (S j) points) = false.
Proof.
  intros Hp Hq Hx Hy.
  apply (slanted_segment _ j p (set v q)); try assumption.
  - rewrite moved_lookup, Hp. cbn [fmap option_fmap option_map].
    replace (j =? S j)%nat with false by (symmetry; apply Nat.eqb_neq; lia).
    replace (j =? S (S j))%nat with false
      by (symmetry; apply Nat.eqb_neq; lia).
    reflexivity.
  - rewrite moved_lookup, Hq. cbn [fmap option_fmap option_map].
    now rewrite Nat.eqb_refl.
Qed.

(** C4.  [updateConnectionPath] on segment [i] of the cached path, with the
    flags of the handle, moves the two ends of the segment and nothing else:
    flagged horizontal, the [y] of the points [i] and [i + 1] becomes
    [newY]; flagged vertical and not horizontal, their [x] becomes [newX].
    The path element then shows the polyline through the points, which are
    as many as before.  The segments next to the moved one are not looked
    at: when the ends of the next or of the previous segment disagree in
    the coordinate that is not moved, and its far end is not at the new
    coordinate, that segment is slanted afterwards, and the path is neither
    axis-aligned nor orthogonal. *)
Theorem updateConnectionPath_slants_neighbour
    recordId (w : World) el refs (i : nat) newX newY isHorizontal isVertical :
  querySelector (connectionsGroup w) recordId = Some el ->
  originalPathPoints w = Some refs ->
  base.NoDup refs ->
  Forall (fun l => l < List.length (objects w))%nat refs ->
  (S i < List.length refs)%nat ->
  let before := deref (objects w) refs in
  let w' := updateConnectionPath recordId (Z.of_nat i) newX newY
              isHorizontal isVertical w in
  let after := deref (objects w') refs in
  querySelector (connectionsGroup w') recordId
  = Some {| pathRecordId := pathRecordId el;
            d := generatePathFromPoints after |}
  /\ List.length after = List.length before
  /\ (isHorizontal = true ->
      after = moved setY newY i before
      /\ (forall p q,
            before !! S i = Some p -> before !! S (S i) = Some q ->
            agree (x p) (x q) = false -> agree newY (y q) = false ->
            axisAligned after = false /\ orthogonal after = false)
      /\ (forall j p q, S j = i ->
            before !! j = Some p -> before !! i = Some q ->
            agree (x p) (x q) = false -> agree (y p) newY = false ->
            axisAligned after = false /\ orthogonal after = false))
  /\ (isHorizontal = false -> isVertical = true ->
      after = moved setX newX i before
      /\ (forall p q,
            before !! S i = Some p -> before !! S (S i) = Some q ->
            agree (y p) (y q) = false -> agree newX (x q) = false ->
            axisAligned after = false /\ orthogonal after = false)
      /\ (forall j p q, S j = i ->
            before !! j = Some p -> before !! i = Some q ->
            agree (y p) (y q) = false -> agree (x p) newX = false ->
            axisAligned after = false /\ orthogonal after = false)).
Proof.
  intros Hq Ho Hnd Hv Hi before w' after.
  destruct (updateConnectionPath_in_range recordId w el refs i newX newY
              isHorizontal isVertical Hq Ho Hnd Hv Hi)
    as (_ & _ & Hafter & Hd).
  fold w' in Hafter, Hd. fold before after in Hafter. fold after in Hd.
  split; [exact Hd |]. split.
  { rewrite Hafter. unfold moved.
    destruct isHorizontal; [| destruct isVertical]; now rewrite ?length_imap. }
  split.
  - intros ->. split; [exact Hafter |]. rewrite Hafter. split.
    + intros p q Hp Hq' Hx Hy. now apply (moved_slants_next setY newY i _ p q).
    + intros j p q <- Hp Hq' Hx Hy.
      now apply (moved_slants_previous setY newY j _ p q).
  - intros -> ->. split; [exact Hafter |]. rewrite Hafter. split.
    + intros p q Hp Hq' Hy Hx. now apply (moved_slants_next setX newX i _ p q).
    + intros j p q <- Hp Hq' Hy Hx.
      now apply (moved_slants_previous setX newX j _ p q).
Qed.

Lemma updateConnectionPath_slants_neighbour_witness :
  let defaultPath :=
    CircleRenderer.createConnectionPath (ofZ 100) (ofZ 100) (ofZ 200) (ofZ 103)
      None in
  let w := showControlHandles "r1" (worldShowing defaultPath) in
  let w' := updateConnectionPath "r1" 1 (ofZ 150) (ofZ 60) true true w in
  defaultPath = "M 100 100 L 150 100 L 150 103 L 200 103"
  /\ baseline w = Some [pt 100 100; pt 150 100; pt 150 103; pt 200 103]
  /\ orthogonal [pt 100 100; pt 150 100; pt 150 103; pt 200 103] = true
  /\ (dataIsHorizontal <$> handlesGroup w !! 1%nat) = Some true
  /\ (dataIsVertical <$> handlesGroup w !! 1%nat) = Some true
  /\ baseline w' = Some [pt 100 100; pt 150 60; pt 150 60; pt 200 103]
  /\ (d <$> querySelector (connectionsGroup w') "r1")
     = Some "M 100 100 L 150 60 L 150 60 L 200 103"
  /\ axisAligned (deref (objects w') [0; 1; 2; 3]%nat) = false
  /\ orthogonal (deref (objects w') [0; 1; 2; 3]%nat) = false.
Proof.
  pose proof (updateConnectionPath_slants_neighbour "r1"
    (showControlHandles "r1"
       (worldShowing "M 100 100 L 150 100 L 150 103 L 200 103"))
    {| pathRecordId := "r1"; d := "M 100 100 L 150 100 L 150 103 L 200 103" |}
    [0; 1; 2; 3]%nat 1 (ofZ 150) (ofZ 60) true true
    eq_refl eq_refl) as H.
  cbv zeta in H.
  destruct H as (_ & _ & Hh & _).
  - apply NoDup_ListNoDup. repeat constructor; simpl; lia.
  - repeat (apply Forall_cons; [vm_compute; lia |]). apply Forall_nil.
  - vm_compute. lia.
  - destruct (Hh eq_refl) as (_ & Hnext & _).
    destruct (Hnext (pt 150 103) (pt 200 103) eq_refl eq_refl eq_refl eq_refl)
      as [Hal Hor].
    do 7 (split; [vm_compute; reflexivity |]).
    vm_compute in Hal, Hor. split; vm_compute; assumption.
Defined.

(** C5.  [updateConnectionPath] assigns to the point objects the cached
    array refers to: after a drag of a horizontal segment the cached
    original path points read as the moved path, and differ from what was
    cached as soon as the segment has moved. *)
Theorem updateConnectionPath_mutates_baseline
    recordId (w : World) el refs (i : nat) newX newY isVertical :
  querySelector (connectionsGroup w) recordId = Some el ->
  originalPathPoints w = Some refs ->
  base.NoDup refs ->
  Forall (fun l => l < List.length (objects w))%nat refs ->
  (S i < List.length refs)%nat ->
  let w' := updateConnectionPath recordId (Z.of_nat i) newX newY
              true isVertical w in
  baseline w' = option_map (moved setY newY i) (baseline w)
  /\ (forall p, deref (objects w) refs !! i = Some p -> y p <> newY ->
        baseline w' <> baseline w).
Proof.
  intros Hq Ho Hnd Hv Hi w'.
  destruct (updateConnectionPath_in_range recordId w el refs i newX newY
              true isVertical Hq Ho Hnd Hv Hi)
    as (Ho' & _ & Hafter & _).
  fold w' in Ho', Hafter. cbv zeta in Hafter.
  assert (Hb : baseline w' = option_map (moved setY newY i) (baseline w)).
  { unfold baseline. rewrite Ho', Ho. simpl. now rewrite Hafter. }
  split; [exact Hb |].
  intros p Hp Hne Heq. rewrite Hb in Heq. unfold baseline in Heq.
  rewrite Ho in Heq. simpl in Heq. injection Heq as Heq.
  assert (Hm : moved setY newY i (deref (objects w) refs) !! i = Some p)
    by now rewrite Heq.
  rewrite moved_lookup, Hp, Nat.eqb_refl in Hm. simpl in Hm.
  injection Hm as Hm. apply Hne. now rewrite <- Hm.
Qed.

Lemma updateConnectionPath_mutates_baseline_witness :
  let w := showControlHandles "r1"
             (worldShowing "M 0 0 L 50 0 L 50 50 L 100 50") in
  let w' := updateConnectionPath "r1" 0 (ofZ 25) (ofZ 60) true false w in
  baseline w = Some [pt 0 0; pt 50 0; pt 50 50; pt 100 50]
  /\ baseline w' = Some [pt 0 60; pt 50 60; pt 50 50; pt 100 50]
  /\ baseline w' <> baseline w.
Proof.
  split; [reflexivity |]. split; [reflexivity |].
  refine (proj2 (updateConnectionPath_mutates_baseline "r1"
    (showControlHandles "r1" (worldShowing "M 0 0 L 50 0 L 50 50 L 100 50"))
    {| pathRecordId := "r1"; d := "M 0 0 L 50 0 L 50 50 L 100 50" |}
    [0; 1; 2; 3]%nat 0 (ofZ 25) (ofZ 60) false
    eq_refl eq_refl _ _ _) (pt 0 0) eq_refl _).
  - apply NoDup_ListNoDup. repeat constructor; simpl; lia.
  - repeat (apply Forall_cons; [vm_compute; lia |]). apply Forall_nil.
  - vm_compute. lia.
  - discriminate.
Defined.

Lemma imap_map {A B} (f : nat -> A -> B) (g : A -> B) (l : list A) :
  (forall i a, f i a = g a) -> imap f l = map g l.
Proof.
  revert f. induction l as [| a l IH]; intros f H; [reflexivity |].
  rewrite imap_cons, H. simpl. f_equal. apply IH. intros i b. apply H.
Qed.

(** C6.  For a custom path with first point [p0], both
    [adjustConnectionLineForNewPosition] and
    [updateConnectionLineDataForNewPosition] keep [p0] and translate every
    other point by [newPosition - oldPosition]. *)
Theorem cardDrag_keeps_anchor
    (line : ConnectionLine) (p0 : Point) (rest : list Point)
    (oldPosition newPosition : Point) (now : string) :
  pathPoints line = Some (p0 :: rest) ->
  let deltaX := sub (x newPosition) (x oldPosition) in
  let deltaY := sub (y newPosition) (y oldPosition) in
  let translate p := {| x := add (x p) deltaX; y := add (y p) deltaY |} in
  pathPoints (adjustConnectionLineForNewPosition line oldPosition newPosition)
  = Some (p0 :: map translate rest)
  /\ (pathPoints
        <$> RecordManager.updateConnectionLineDataForNewPosition
              now (Some line) oldPosition newPosition)
     = Some (Some (p0 :: map translate rest)).
Proof.
  intros Hp deltaX deltaY translate.
  unfold adjustConnectionLineForNewPosition,
    RecordManager.updateConnectionLineDataForNewPosition.
  rewrite Hp. cbn [pathPoints fmap option_fmap option_map].
  rewrite !imap_cons, !(imap_map _ translate) by reflexivity.
  now destruct p0.
Qed.

Lemma cardDrag_keeps_anchor_witness :
  pathPoints
    (adjustConnectionLineForNewPosition
       {| isCustom := true;
          pathPoints := Some [pt 0 0; pt 50 0; pt 50 50; pt 100 50];
          segments := None; lastModified := None |}
       (pt 100 40) (pt 110 45))
  = Some [pt 0 0; pt 60 5; pt 60 55; pt 110 55].
Proof.
  refine (proj1 (cardDrag_keeps_anchor
    {| isCustom := true;
       pathPoints := Some [pt 0 0; pt 50 0; pt 50 50; pt 100 50];
       segments := None; lastModified := None |}
    (pt 0 0) [pt 50 0; pt 50 50; pt 100 50] (pt 100 40) (pt 110 45)
    "2024-01-01T00:00:00.000Z" _)).
  reflexivity.
Defined.

End AdjusterClaims.

(** ** The default path *)

Section RendererClaims.
Import JSNumber PathModel CircleRenderer.
Local Open Scope string_scope.

(** C8.  Without custom data [createConnectionPath] returns the command
    string of the four points start, (mid, startY), (mid, endY), end with
    [mid = startX + (endX - startX) * 0.5]; parsed back, the string gives
    exactly these points when they print in positional notation.  From
    (0,0) to (100,50) the string is [M 0 0 L 50 0 L 50 50 L 100 50]. *)
Theorem createConnectionPath_default (startX startY endX endY : number) :
  let mid := add startX (mul (sub endX startX) half) in
  let path := [ {| x := startX; y := startY |}; {| x := mid; y := startY |};
                {| x := mid; y := endY |}; {| x := endX; y := endY |} ] in
  createConnectionPath startX startY endX endY None
  = createPathFromPoints path
  /\ (Forall plainPoint path ->
      parsePathData (createConnectionPath startX startY endX endY None) = path)
  /\ createConnectionPath (ofZ 0) (ofZ 0) (ofZ 100) (ofZ 50) None
     = "M 0 0 L 50 0 L 50 50 L 100 50"
  /\ parsePathData (createConnectionPath (ofZ 0) (ofZ 0) (ofZ 100) (ofZ 50) None)
     = [pt 0 0; pt 50 0; pt 50 50; pt 100 50].
Proof.
  intros mid path.
  assert (H : createConnectionPath startX startY endX endY None
              = createPathFromPoints path).
  { unfold createConnectionPath, defaultConnectionPath, createPathFromPoints, path.
    fold mid. cbn [fold_left]. unfold lineTo, moveTo. cbn [x y].
    now rewrite !append_assoc. }
  split; [exact H |]. split.
  - intros Hplain. rewrite H. now apply parsePathData_generate.
  - split; reflexivity.
Qed.

Lemma createConnectionPath_default_witness :
  parsePathData (createConnectionPath (ofZ 0) (ofZ 0) (ofZ 101) (ofZ 50) None)
  = [ pt 0 0; {| x := Dec 505 1; y := ofZ 0 |};
      {| x := Dec 505 1; y := ofZ 50 |}; pt 101 50 ].
Proof.
  refine (proj1 (proj2 (createConnectionPath_default
                          (ofZ 0) (ofZ 0) (ofZ 101) (ofZ 50))) _).
  repeat constructor.
Defined.

End RendererClaims.

(** ** Load-time validation *)

Section RecordManagerClaims.
Import JSNumber RecordManager.
Local Open Scope string_scope.

Lemma validate_corrupt line recordId :
  corrupt line -> validateConnectionLineData line recordId = false.
Proof.
  intros Hc. unfold validateConnectionLineData.
  destruct (negb (truthy line) || negb (String.eqb (typeof line) "object"));
    [reflexivity |].
  destruct Hc as [-> | [Hna | (points & -> & Hbad)]].
  - reflexivity.
  - rewrite Hna. simpl. now rewrite orb_true_r.
  - simpl. destruct Hbad as [Hlen | (point & Hin & Hxy)].
    + now apply Nat.ltb_lt in Hlen as ->.
    + destruct (List.length points <? 2)%nat; [reflexivity |].
      apply not_true_is_false. intros Hall.
      rewrite forallb_forall in Hall. specialize (Hall point Hin).
      unfold pointIsValid in Hall.
      apply andb_prop in Hall as [Hall Hy]. apply andb_prop in Hall as [_ Hx].
      apply String.eqb_eq in Hx, Hy. tauto.
Qed.

Lemma isCustom_object line :
  get line "isCustom" = VBool true ->
  truthy line = true /\ typeof line = "object".
Proof.
  destruct line; simpl; try discriminate; auto.
Qed.

Lemma hasCustomLine_isCustom record line :
  connectionLine record = Some line ->
  get line "isCustom" = VBool true ->
  hasCustomLine record = true.
Proof.
  intros Hl Hc. unfold hasCustomLine. rewrite Hl, Hc.
  now destruct (isCustom_object line Hc) as [-> _].
Qed.

Lemma validate_numeric line points recordId :
  get line "isCustom" = VBool true ->
  get line "pathPoints" = VArr points ->
  (2 <= List.length points)%nat ->
  Forall numericPoint points ->
  validateConnectionLineData line recordId = true.
Proof.
  intros Hc Hp Hlen Hall. unfold validateConnectionLineData.
  destruct (isCustom_object line Hc) as [-> ->]. rewrite Hp. simpl.
  replace (List.length points <? 2)%nat with false
    by (symmetry; apply Nat.ltb_ge; lia).
  apply forallb_forall. intros point Hin.
  rewrite Forall_forall in Hall.
  destruct (Hall point Hin) as (props & nx & ny & -> & Hx & Hy).
  unfold pointIsValid. now rewrite Hx, Hy.
Qed.

Lemma cleanup_lookup now (w : World) recordId :
  records (cleanupInvalidConnectionLines now w) !! recordId
  = cleanupRecord now recordId <$> records w !! recordId.
Proof.
  unfold cleanupInvalidConnectionLines. cbn [records].
  rewrite map_lookup_imap. now destruct (records w !! recordId).
Qed.

Lemma cleanup_triggers now (w : World) recordId record :
  records w !! recordId = Some record ->
  isInvalid recordId record = true ->
  storageManager (cleanupInvalidConnectionLines now w)
  = option_map triggerAutoSave (storageManager w).
Proof.
  intros Hr Hi. unfold cleanupInvalidConnectionLines. cbn [storageManager].
  match goal with |- context [(0 <? ?n)%nat] => assert (Hn : n <> 0%nat) end.
  { apply map_size_ne_0_lookup. exists recordId.
    exists record. apply map_lookup_filter_Some. split; [exact Hr | exact Hi]. }
  apply Nat.neq_0_lt_0, Nat.ltb_lt in Hn. now rewrite Hn.
Qed.

(** C9.  With the storage manager in place and auto-save enabled, the
    load-time pass deletes a custom connection line whose [pathPoints] is
    missing, not an array, shorter than two or has an entry with a
    non-numeric [x] or [y]; the next draw passes [null] to the renderer,
    which builds the default path; one auto-save timer is set; records
    whose custom line is valid, or which have none, are left as they
    are. *)
Theorem cleanup_deletes_corrupt_line
    (now : string) (w : World) (sm : StorageManager)
    (recordId : string) (record : StoredRecord) (line : value) :
  storageManager w = Some sm ->
  autoSaveEnabled sm = true ->
  saveCallback sm = true ->
  records w !! recordId = Some record ->
  connectionLine record = Some line ->
  get line "isCustom" = VBool true ->
  corrupt line ->
  let w' := cleanupInvalidConnectionLines now w in
  (* the field is deleted *)
  records w' !! recordId = Some (deleted now record)
  (* the next draw hands [null] to the renderer, which builds the default
     path *)
  /\ selectConnectionLineData now (deleted now record) (storageManager w')
     = (None, deleted now record, storageManager w')
  /\ (forall startX startY endX endY,
        CircleRenderer.createConnectionPath startX startY endX endY None
        = CircleRenderer.defaultConnectionPath startX startY endX endY)
  (* one timer is set, however many records were cleaned *)
  /\ storageManager w'
     = Some {| autoSaveEnabled := true;
               saveCallback := true;
               hasUnsavedChanges := true;
               autoSaveTimer := Some (timersSet sm);
               timersSet := S (timersSet sm) |}
  (* valid connection lines, and records without one, stay as they are *)
  /\ (forall otherId other,
        records w !! otherId = Some other ->
        (forall otherLine, connectionLine other = Some otherLine ->
           hasCustomLine other = true ->
           validateConnectionLineData otherLine otherId = true) ->
        records w' !! otherId = Some other).
Proof.
  intros Hsm Hen Hcb Hr Hl Hc Hcor w'.
  assert (Hinv : isInvalid recordId record = true).
  { unfold isInvalid. rewrite Hl, (hasCustomLine_isCustom record line Hl Hc).
    now rewrite validate_corrupt. }
  split.
  { subst w'. rewrite cleanup_lookup, Hr. simpl. unfold cleanupRecord.
    now rewrite Hinv. }
  split; [reflexivity |]. split; [reflexivity |]. split.
  { subst w'. rewrite (cleanup_triggers now w recordId record Hr Hinv), Hsm.
    simpl. unfold triggerAutoSave. now rewrite Hen, Hcb. }
  intros otherId other Ho Hvalid. subst w'.
  rewrite cleanup_lookup, Ho. simpl. unfold cleanupRecord, isInvalid.
  destruct (connectionLine other) as [otherLine |] eqn:El; [| reflexivity].
  destruct (hasCustomLine other) eqn:Eh; [| reflexivity].
  now rewrite (Hvalid otherLine eq_refl eq_refl).
Qed.

Lemma cleanup_deletes_corrupt_line_witness :
  let line := VObj [("isCustom", VBool true);
                    ("pathPoints",
                     VArr [VObj [("x", VNum (ofZ 1)); ("y", VNum (ofZ 2))]])] in
  let record := {| id := "n1"; connectionLine := Some line;
                   updatedAt := "2024-01-01T00:00:00.000Z";
                   otherFields := [] |} in
  let sm := {| autoSaveEnabled := true; saveCallback := true;
               hasUnsavedChanges := false; autoSaveTimer := None;
               timersSet := 0 |} in
  let w := {| records := {[ "n1" := record ]}; storageManager := Some sm |} in
  records (cleanupInvalidConnectionLines "2024-06-01T00:00:00.000Z" w) !! "n1"
  = Some (deleted "2024-06-01T00:00:00.000Z" record).
Proof.
  intros line record sm w.
  refine (proj1 (cleanup_deletes_corrupt_line "2024-06-01T00:00:00.000Z"
                   w sm "n1" record line eq_refl eq_refl eq_refl _ eq_refl
                   eq_refl _)).
  - apply lookup_singleton_eq.
  - right. right. exists [VObj [("x", VNum (ofZ 1)); ("y", VNum (ofZ 2))]].
    split; [reflexivity |]. left. simpl. lia.
Defined.

(** C10.  [validateConnectionLineData] accepts every custom line with at
    least two entries whose [x] and [y] are numbers, [NaN] and the
    infinities included; the load-time pass keeps such a line and the draw
    hands it to the renderer. *)
Theorem validate_accepts_nonfinite (line : value) (points : list value) :
  get line "isCustom" = VBool true ->
  get line "pathPoints" = VArr points ->
  (2 <= List.length points)%nat ->
  Forall numericPoint points ->
  (forall recordId, validateConnectionLineData line recordId = true)
  /\ (forall now w recordId record,
        records w !! recordId = Some record ->
        connectionLine record = Some line ->
        records (cleanupInvalidConnectionLines now w) !! recordId
        = Some record)
  /\ (forall now record sm,
        connectionLine record = Some line ->
        selectConnectionLineData now record sm = (Some line, record, sm))
  /\ numericPoint (VObj [("x", VNum NaN); ("y", VNum Infinity)])
  /\ numericPoint (VObj [("x", VNum (Inf true)); ("y", VNum NaN)]).
Proof.
  intros Hc Hp Hlen Hall.
  assert (Hv : forall recordId, validateConnectionLineData line recordId = true)
    by (intros; eapply validate_numeric; eauto).
  split; [exact Hv |]. split.
  { intros now w recordId record Hr Hl.
    rewrite cleanup_lookup, Hr. simpl. unfold cleanupRecord, isInvalid.
    now rewrite Hl, Hv, andb_false_r. }
  split.
  { intros now record sm Hl. unfold selectConnectionLineData.
    now rewrite Hl, (hasCustomLine_isCustom record line Hl Hc), Hv. }
  split; eexists _, _, _; repeat split.
Qed.

Lemma validate_accepts_nonfinite_witness :
  validateConnectionLineData
    (VObj [("isCustom", VBool true);
           ("pathPoints",
            VArr [VObj [("x", VNum NaN); ("y", VNum Infinity)];
                  VObj [("x", VNum (Inf true)); ("y", VNum (ofZ 0))]])])
    "n1"
  = true.
Proof.
  refine (proj1 (validate_accepts_nonfinite
                   (VObj [("isCustom", VBool true);
                          ("pathPoints",
                           VArr [VObj [("x", VNum NaN); ("y", VNum Infinity)];
                                 VObj [("x", VNum (Inf true));
                                       ("y", VNum (ofZ 0))]])])
                   [VObj [("x", VNum NaN); ("y", VNum Infinity)];
                    VObj [("x", VNum (Inf true)); ("y", VNum (ofZ 0))]]
                   eq_refl eq_refl _ _) "n1").
  - simpl. lia.
  - repeat constructor; eexists _, _, _; repeat split.
Defined.

End RecordManagerClaims.

(** ** The connector's end on the card, in every case *)

Section ClosestEdgePointFacts.
Import Geometry.
Local Open Scope R_scope.

Lemma sort_head_In l p t : sort l = p :: t -> In p l.
Proof.
  intros Hs. destruct (sort_head_firstMin l p t Hs) as (k & Hk & _).
  eapply nth_error_In; eauto.
Qed.

Lemma center_inside cX cY w h :
  0 <= w -> 0 <= h ->
  isInsideOrTooClose (cX + w / 2) (cY + h / 2) cX cY w h = true.
Proof.
  intros Hw Hh. unfold isInsideOrTooClose, MIN_CONNECTION_LENGTH.
  repeat (apply andb_true_intro; split);
    first [apply geb_true | apply leb_true]; lra.
Qed.

(** X1.  For a card of non-negative width and height,
    [calculateClosestEdgePoint] returns a point on one of the four edges of
    the card wherever the target is, inside the card, close to it or far
    away, with one exception: for the centre of the card itself it returns
    the point [MIN_CONNECTION_LENGTH] to the left of the left edge. *)
Theorem closestEdgePoint_on_border tX tY cX cY w h :
  0 <= w -> 0 <= h ->
  let centerX := cX + w / 2 in
  let centerY := cY + h / 2 in
  let p := calculateClosestEdgePoint tX tY cX cY w h in
  ((tX <> centerX \/ tY <> centerY) -> onEdge p cX cY w h)
  /\ (tX = centerX /\ tY = centerY ->
      p = mkPoint (cX - MIN_CONNECTION_LENGTH) centerY).
Proof.
  intros Hw Hh centerX centerY p. split.
  - intros Hne. subst p. unfold calculateClosestEdgePoint.
    destruct (isInsideOrTooClose tX tY cX cY w h);
      [now apply forced_off_center_onEdge |].
    destruct (sort _) as [| first rest] eqn:Es;
      [now apply forced_off_center_onEdge |].
    apply sort_head_In, filter_In in Es as [Hin _].
    exact (proj1 (edgePoints_onEdge tX tY cX cY w h first Hw Hh Hin)).
  - intros [-> ->]. subst p centerX centerY.
    unfold calculateClosestEdgePoint.
    rewrite center_inside by assumption. apply forced_center.
Qed.

Lemma closestEdgePoint_on_border_witness :
  onEdge (calculateClosestEdgePoint 210 100 200 80 150 100) 200 80 150 100.
Proof.
  apply (closestEdgePoint_on_border 210 100 200 80 150 100); lra.
Defined.

End ClosestEdgePointFacts.

(** ** Texts that are not connector paths *)

Section PathTextFacts.
Import JSNumber PathModel Regex PathText.
Local Open Scope string_scope.

Lemma matchGlobal_commands_bound (s : string) skip :
  (List.length (matchGlobalFrom commandRe s skip) <= countML s)%nat.
Proof.
  revert skip. induction s as [| a s IH]; intros skip.
  - destruct skip; simpl; lia.
  - cbn [matchGlobalFrom countML]. destruct skip as [| skip].
    + destruct (isML a) eqn:E.
      * destruct (matchAt commandRe (String a s)) as [n |].
        -- cbn [List.length]. specialize (IH (n - 1)%nat). lia.
        -- specialize (IH 0%nat). lia.
      * assert (matchAt commandRe (String a s) = None) as ->
          by (apply matchAt_one_none; exact E).
        apply IH.
    + specialize (IH skip). lia.
Qed.

Lemma flat_map_parseCommand_bound (commands : list string) :
  (List.length (flat_map parseCommand commands) <= List.length commands)%nat.
Proof.
  induction commands as [| c commands IH]; [reflexivity |].
  cbn [flat_map]. rewrite length_app. unfold parseCommand at 1.
  destruct (matchGlobal coordRe c) as [| c0 [| c1 rest]]; simpl; lia.
Qed.

(** X2.  [parsePathData] returns at most one point for every letter [M]
    or [L] of the text; a text without these letters gives no point. *)
Theorem parsePathData_bound (pathData : string) :
  (List.length (parsePathData pathData) <= countML pathData)%nat
  /\ (countML pathData = 0%nat -> parsePathData pathData = []).
Proof.
  assert (H : (List.length (parsePathData pathData) <= countML pathData)%nat).
  { rewrite parsePathData_commands.
    destruct (Str.isEmpty pathData); [simpl; lia |].
    etransitivity; [apply flat_map_parseCommand_bound |].
    apply matchGlobal_commands_bound. }
  split; [exact H |]. intros H0. rewrite H0 in H.
  destruct (parsePathData pathData); [reflexivity | simpl in H; lia].
Qed.

Lemma parsePathData_bound_witness :
  parsePathData "H 10 V 20 C 1 2 3 4 Z" = [].
Proof.
  apply (proj2 (parsePathData_bound "H 10 V 20 C 1 2 3 4 Z")). reflexivity.
Defined.

End PathTextFacts.

(** ** The adjuster under its events *)

Section AdjusterEventFacts.
Import JSNumber PathModel Adjuster AdjusterEvents.
Local Open Scope string_scope.

Lemma world_eq (w : World) :
  w = {| objects := objects w;
         connectionsGroup := connectionsGroup w;
         selectedRecordId := selectedRecordId w;
         isDragging := isDragging w;
         dragTarget := dragTarget w;
         originalPathPoints := originalPathPoints w;
         handlesGroup := handlesGroup w |}.
Proof. now destruct w. Qed.


Lemma setPathData_twice group recordId p1 p2 :
  setPathData (setPathData group recordId p1) recordId p2
  = setPathData group recordId p2.
Proof.
  induction group as [| e group IH]; [reflexivity |].
  simpl. destruct (String.eqb (pathRecordId e) recordId) eqn:E; simpl.
  - now rewrite E.
  - now rewrite E, IH.
Qed.

Lemma setPathData_length group recordId p :
  List.length (setPathData group recordId p) = List.length group.
Proof.
  induction group as [| e group IH]; [reflexivity |].
  simpl. destruct (String.eqb (pathRecordId e) recordId); simpl; congruence.
Qed.

Lemma setPathData_ids group recordId p :
  map pathRecordId (setPathData group recordId p) = map pathRecordId group.
Proof.
  induction group as [| e group IH]; [reflexivity |].
  simpl. destruct (String.eqb (pathRecordId e) recordId); simpl; congruence.
Qed.

(** X3.  [updateConnectionPath] does nothing at all when the record has no
    connector on the canvas, when no original path points are cached, or
    when the segment index is negative or not the index of a segment of the
    cached path. *)
Theorem updateConnectionPath_out_of_range
    recordId segmentIndex newX newY isHorizontal isVertical (w : World) :
  querySelector (connectionsGroup w) recordId = None
  \/ originalPathPoints w = None
  \/ (segmentIndex < 0)%Z
  \/ (exists refs, originalPathPoints w = Some refs
        /\ (Z.of_nat (List.length refs) - 1 <= segmentIndex)%Z) ->
  updateConnectionPath recordId segmentIndex newX newY isHorizontal isVertical w
  = w.
Proof.
  unfold updateConnectionPath.
  intros [-> | [-> | [Hneg | (refs & -> & Hge)]]].
  - reflexivity.
  - now destruct (querySelector _ _).
  - destruct (querySelector _ _); [| reflexivity].
    destruct (originalPathPoints w); [| reflexivity].
    now replace (0 <=? segmentIndex)%Z with false by (symmetry; apply Z.leb_gt; lia).
  - destruct (querySelector _ _); [| reflexivity].
    replace (segmentIndex <? Z.of_nat (List.length refs) - 1)%Z with false
      by (symmetry; apply Z.ltb_ge; lia).
    now rewrite andb_false_r.
Qed.

Lemma updateConnectionPath_out_of_range_witness :
  let w := showControlHandles "r1"
             (worldShowing "M 0 0 L 50 0 L 50 50 L 100 50") in
  updateConnectionPath "r1" 3 (ofZ 25) (ofZ 60) true false w = w.
Proof.
  apply updateConnectionPath_out_of_range.
  right. right. right. exists [0; 1; 2; 3]%nat. split; [reflexivity |].
  simpl. lia.
Defined.

Lemma lookup_alter_if {A} (f : A -> A) (h : list A) a j :
  alter f a h !! j = if decide (a = j) then f <$> h !! j else h !! j.
Proof.
  destruct (decide (a = j)) as [-> |].
  - rewrite list_lookup_alter. now destruct (decide (j = j)).
  - now rewrite list_lookup_alter_ne.
Qed.

(** Assigning the same field twice to the two objects. *)
Lemma alter_pair_twice {A} (f g : A -> A) (h : list A) a b :
  (forall p, g (f p) = g p) -> (forall p, g (g p) = g p) ->
  alter g b (alter g a (alter f b (alter f a h))) = alter g b (alter g a h).
Proof.
  intros Hgf Hgg. apply list_eq. intros j. rewrite !lookup_alter_if.
  destruct (decide (b = j)), (decide (a = j)); destruct (h !! j); simpl;
    rewrite ?Hgf, ?Hgg; reflexivity.
Qed.

(** X4.  Successive drags of one handle do not add up: two calls of
    [updateConnectionPath] for the same segment with the same flags leave
    exactly the state of the second call alone. *)
Theorem updateConnectionPath_last_wins
    recordId segmentIndex x1 y1 x2 y2 isHorizontal isVertical (w : World) :
  updateConnectionPath recordId segmentIndex x2 y2 isHorizontal isVertical
    (updateConnectionPath recordId segmentIndex x1 y1 isHorizontal isVertical w)
  = updateConnectionPath recordId segmentIndex x2 y2 isHorizontal isVertical w.
Proof.
  destruct w as [objs group sel drag target orig handles].
  unfold updateConnectionPath.
  cbn [connectionsGroup originalPathPoints objects selectedRecordId
       isDragging dragTarget handlesGroup].
  destruct (querySelector group recordId) as [el |] eqn:Hq.
  2:{ cbn [connectionsGroup]. now rewrite Hq. }
  destruct orig as [refs |].
  2:{ cbn [connectionsGroup originalPathPoints]. now rewrite Hq. }
  destruct ((0 <=? segmentIndex)
            && (segmentIndex <? Z.of_nat (List.length refs) - 1))%Z eqn:Hr.
  2:{ cbn [connectionsGroup originalPathPoints]. now rewrite Hq, Hr. }
  cbn [connectionsGroup originalPathPoints objects selectedRecordId
       isDragging dragTarget handlesGroup].
  rewrite (querySelector_setPathData _ _ _ _ Hq), Hr, setPathData_twice.
  destruct (refs !! Z.to_nat segmentIndex) as [a |]; [| reflexivity].
  destruct (refs !! S (Z.to_nat segmentIndex)) as [b |]; [| reflexivity].
  destruct isHorizontal; [| destruct isVertical]; try reflexivity;
    now rewrite alter_pair_twice.
Qed.



Lemma updateConnectionPath_no_baseline
    recordId segmentIndex newX newY isHorizontal isVertical (w : World) :
  originalPathPoints w = None ->
  updateConnectionPath recordId segmentIndex newX newY isHorizontal isVertical w
  = w.
Proof.
  intros Ho. unfold updateConnectionPath. rewrite Ho.
  now destruct (querySelector _ _).
Qed.

(** X6.  [showControlHandles] for a record without a connector, or with a
    connector that parses to fewer than two points, leaves no handle and no
    cached path (also none of a record selected before), does not touch the
    connectors, and a later [updateConnectionPath] does nothing. *)
Theorem showControlHandles_without_path recordId (w : World) :
  querySelector (connectionsGroup w) recordId = None
  \/ (exists el, querySelector (connectionsGroup w) recordId = Some el
        /\ (List.length (parsePathData (d el)) < 2)%nat) ->
  let w' := showControlHandles recordId w in
  handlesGroup w' = []
  /\ originalPathPoints w' = None
  /\ selectedRecordId w' = None
  /\ connectionsGroup w' = connectionsGroup w
  /\ (forall segmentIndex newX newY isHorizontal isVertical,
        updateConnectionPath recordId segmentIndex newX newY
          isHorizontal isVertical w' = w').
Proof.
  intros H w'.
  assert (Hw : handlesGroup w' = [] /\ originalPathPoints w' = None
               /\ selectedRecordId w' = None
               /\ connectionsGroup w' = connectionsGroup w).
  { subst w'. unfold showControlHandles.
    cbn [hideControlHandles connectionsGroup objects].
    destruct H as [-> | (el & -> & Hlen)]; [now repeat split |].
    destruct (Str.isEmpty (d el)); [now repeat split |].
    unfold allocPoints. rewrite length_seq.
    apply Nat.ltb_lt in Hlen. rewrite Hlen. now repeat split. }
  destruct Hw as (Hh & Ho & Hs & Hc). repeat split; try assumption.
  intros. now apply updateConnectionPath_no_baseline.
Qed.

Lemma showControlHandles_without_path_witness :
  handlesGroup (showControlHandles "r1" (worldShowing "M 0 0")) = [].
Proof.
  refine (proj1 (showControlHandles_without_path "r1" (worldShowing "M 0 0") _)).
  right. exists {| pathRecordId := "r1"; d := "M 0 0" |}.
  split; [reflexivity | vm_compute; lia].
Defined.

(** X7.  [updateControlHandlesPosition] makes the handles again from the
    path on screen, one per segment, but leaves [originalPathPoints]
    [null]: until the next [showControlHandles] every
    [updateConnectionPath] does nothing. *)
Theorem updateControlHandlesPosition_drops_baseline recordId (w : World) el :
  querySelector (connectionsGroup w) recordId = Some el ->
  (2 <= List.length (parsePathData (d el)))%nat ->
  let w' := updateControlHandlesPosition recordId w in
  handlesGroup w' = segmentHandles 0 (parsePathData (d el)) recordId
  /\ originalPathPoints w' = None
  /\ connectionsGroup w' = connectionsGroup w
  /\ (forall segmentIndex newX newY isHorizontal isVertical,
        updateConnectionPath recordId segmentIndex newX newY
          isHorizontal isVertical w' = w').
Proof.
  intros Hq Hlen w'.
  assert (Hw : handlesGroup w' = segmentHandles 0 (parsePathData (d el)) recordId
               /\ originalPathPoints w' = None
               /\ connectionsGroup w' = connectionsGroup w).
  { subst w'. unfold updateControlHandlesPosition. rewrite Hq.
    destruct (Str.isEmpty (d el)) eqn:E.
    { destruct (d el); [| discriminate]. rewrite parsePathData_empty in Hlen.
      simpl in Hlen. lia. }
    unfold allocPoints. rewrite length_seq.
    replace (List.length (parsePathData (d el)) <? 2)%nat with false
      by (symmetry; apply Nat.ltb_ge; lia).
    unfold createSegmentControlHandles.
    cbn [hideControlHandles objects connectionsGroup selectedRecordId
         isDragging dragTarget originalPathPoints handlesGroup app].
    now rewrite deref_alloc. }
  destruct Hw as (Hh & Ho & Hc). repeat split; try assumption.
  intros. now apply updateConnectionPath_no_baseline.
Qed.

Lemma updateControlHandlesPosition_drops_baseline_witness :
  let w := showControlHandles "r1"
             (worldShowing "M 0 0 L 50 0 L 50 50 L 100 50") in
  originalPathPoints w = Some [0; 1; 2; 3]%nat
  /\ originalPathPoints (updateControlHandlesPosition "r1" w) = None.
Proof.
  split; [reflexivity |].
  refine (proj1 (proj2 (updateControlHandlesPosition_drops_baseline "r1"
    (showControlHandles "r1" (worldShowing "M 0 0 L 50 0 L 50 50 L 100 50"))
    {| pathRecordId := "r1"; d := "M 0 0 L 50 0 L 50 50 L 100 50" |} _ _))).
  - reflexivity.
  - vm_compute. lia.
Defined.

Lemma updateConnectionPath_selection
    recordId segmentIndex newX newY isHorizontal isVertical (w : World) :
  selectedRecordId (updateConnectionPath recordId segmentIndex newX newY
                      isHorizontal isVertical w)
  = selectedRecordId w.
Proof.
  unfold updateConnectionPath.
  destruct (querySelector _ _); [| reflexivity].
  destruct (originalPathPoints w); [| reflexivity].
  now destruct (_ && _).
Qed.

Lemma updateConnectionPath_ids
    recordId segmentIndex newX newY isHorizontal isVertical (w : World) :
  map pathRecordId
    (connectionsGroup (updateConnectionPath recordId segmentIndex newX newY
                         isHorizontal isVertical w))
  = map pathRecordId (connectionsGroup w).
Proof.
  unfold updateConnectionPath.
  destruct (querySelector _ _); [| reflexivity].
  destruct (originalPathPoints w); [| reflexivity].
  destruct (_ && _); [| reflexivity].
  apply setPathData_ids.
Qed.

Lemma isSelected_None recordId (w : World) :
  selectedRecordId w = None -> isSelected recordId w = false.
Proof. unfold isSelected. now intros ->. Qed.

Lemma showControlHandles_selection recordId (w : World) :
  selectedRecordId (showControlHandles recordId w) = None.
Proof.
  unfold showControlHandles. cbn [hideControlHandles connectionsGroup objects].
  destruct (querySelector (connectionsGroup w) recordId) as [el |];
    [| reflexivity].
  destruct (Str.isEmpty (d el)); [reflexivity |].
  unfold allocPoints. now destruct (_ <? _)%nat.
Qed.

Lemma dispatch_selection (w : World) e :
  selectedRecordId w = None -> selectedRecordId (dispatch w e) = None.
Proof.
  intros Hs. destruct e; cbn [dispatch].
  - apply showControlHandles_selection.
  - reflexivity.
  - unfold handleRecordPositionChange.
    now rewrite (isSelected_None _ _ Hs).
  - unfold handleRecordDeleted. now rewrite (isSelected_None _ _ Hs).
  - unfold handleConnectionLineReset. now rewrite (isSelected_None _ _ Hs).
  - now rewrite updateConnectionPath_selection.
  - unfold removeConnectionLine, isSelected.
    cbn [selectedRecordId]. now rewrite Hs.
  - unfold appendConnectionLine, removeConnectionLine, isSelected.
    cbn [selectedRecordId]. now rewrite Hs.
  - exact Hs.
Qed.

(** X8.  From a state with [selectedRecordId] [null], as the constructor
    leaves it, no sequence of events makes it anything else:
    [getSelectedRecordId] answers [null], and [handleRecordDeleted],
    [handleConnectionLineReset] and [handleRecordPositionChange] leave the
    state as it is for every record; [removeConnectionLine] leaves the
    handles. *)
Theorem selection_stays_null (events : list event) (w : World) :
  selectedRecordId w = None ->
  let w' := fold_left dispatch events w in
  getSelectedRecordId w' = None
  /\ (forall recordId,
        handleRecordDeleted recordId w' = w'
        /\ handleConnectionLineReset recordId w' = w'
        /\ (forall dragging redrawn,
              handleRecordPositionChange recordId dragging redrawn w' = w')
        /\ handlesGroup (removeConnectionLine recordId w') = handlesGroup w').
Proof.
  intros Hs w'.
  assert (Hs' : selectedRecordId w' = None).
  { subst w'. revert w Hs.
    induction events as [| e events IH]; intros w Hs; [exact Hs |].
    simpl. apply IH. now apply dispatch_selection. }
  split; [exact Hs' |]. intros recordId.
  unfold handleRecordDeleted, handleConnectionLineReset,
    handleRecordPositionChange, removeConnectionLine.
  rewrite (isSelected_None _ _ Hs').
  repeat split. unfold isSelected. cbn [selectedRecordId]. now rewrite Hs'.
Qed.

Lemma selection_stays_null_witness :
  handleRecordDeleted "r1"
    (fold_left dispatch [recordSelected "r1"]
       (constructed [ {| pathRecordId := "r1"; d := "M 0 0 L 50 0 L 50 50" |} ]))
  = fold_left dispatch [recordSelected "r1"]
      (constructed [ {| pathRecordId := "r1"; d := "M 0 0 L 50 0 L 50 50" |} ]).
Proof.
  refine (proj1 (proj2 (selection_stays_null [recordSelected "r1"]
    (constructed [ {| pathRecordId := "r1"; d := "M 0 0 L 50 0 L 50 50" |} ])
    _) "r1")).
  reflexivity.
Defined.

(** X9.  Deleting a record whose handles are shown removes its connector
    and leaves the handles and the cached path: one handle per segment of
    the removed connector stays in [handlesGroup]. *)
Theorem deleteRecord_leaves_handles recordId (w : World) el :
  querySelector (connectionsGroup w) recordId = Some el ->
  (2 <= List.length (parsePathData (d el)))%nat ->
  let points := parsePathData (d el) in
  let w' := deleteRecord recordId (showControlHandles recordId w) in
  connectionsGroup w' = removeFirst (connectionsGroup w) recordId
  /\ handlesGroup w' = segmentHandles 0 points recordId
  /\ List.length (handlesGroup w') = (List.length points - 1)%nat
  /\ baseline w' = Some points.
Proof.
  intros Hq Hlen points w'. subst w'. unfold deleteRecord.
  rewrite (showControlHandles_result recordId w el Hq Hlen). fold points.
  unfold handleRecordDeleted, removeConnectionLine, isSelected, baseline.
  cbn [selectedRecordId connectionsGroup handlesGroup objects
       originalPathPoints option_map].
  split; [reflexivity |]. split; [reflexivity |].
  split; [apply segmentHandles_length |]. now rewrite deref_alloc.
Qed.

Lemma deleteRecord_leaves_handles_witness :
  let w := deleteRecord "r1"
             (showControlHandles "r1"
                (worldShowing "M 0 0 L 50 0 L 50 50 L 100 50")) in
  connectionsGroup w = [] /\ List.length (handlesGroup w) = 3%nat.
Proof.
  pose proof (deleteRecord_leaves_handles "r1"
    (worldShowing "M 0 0 L 50 0 L 50 50 L 100 50")
    {| pathRecordId := "r1"; d := "M 0 0 L 50 0 L 50 50 L 100 50" |}
    eq_refl) as H.
  cbv zeta in H. destruct H as (Hc & _ & Hl & _).
  - vm_compute. lia.
  - split; [exact Hc | exact Hl].
Defined.

Lemma removeFirst_ids group recordId :
  List.NoDup (map pathRecordId group) ->
  List.NoDup (map pathRecordId (removeFirst group recordId))
  /\ ~ In recordId (map pathRecordId (removeFirst group recordId))
  /\ (forall other, In other (map pathRecordId (removeFirst group recordId)) ->
        In other (map pathRecordId group)).
Proof.
  induction group as [| e group IH]; intros Hnd.
  - simpl. repeat split; [constructor | auto | auto].
  - simpl in Hnd. inversion Hnd as [| ? ? Hnot Hnd']; subst.
    destruct (IH Hnd') as (IH1 & IH2 & IH3).
    simpl. destruct (String.eqb (pathRecordId e) recordId) eqn:E.
    + apply String.eqb_eq in E. subst recordId.
      repeat split; [exact Hnd' | exact Hnot |].
      intros other Ho. now right.
    + apply String.eqb_neq in E. simpl. repeat split.
      * constructor; [| exact IH1]. intros Hin. apply Hnot. now apply IH3.
      * intros [Hin | Hin]; [congruence | now apply IH2].
      * intros other [-> | Ho]; [now left | right; now apply IH3].
Qed.

Lemma dispatch_ids (w : World) e :
  List.NoDup (map pathRecordId (connectionsGroup w)) ->
  List.NoDup (map pathRecordId (connectionsGroup (dispatch w e))).
Proof.
  intros Hnd.
  assert (Hrm : forall recordId,
    List.NoDup (map pathRecordId
                  (connectionsGroup (removeConnectionLine recordId w)))
    /\ ~ In recordId
           (map pathRecordId
              (connectionsGroup (removeConnectionLine recordId w)))).
  { intros recordId. unfold removeConnectionLine.
    destruct (removeFirst_ids _ recordId Hnd) as (H1 & H2 & _).
    now destruct (isSelected _ _). }
  assert (Hap : forall recordId path,
    List.NoDup (map pathRecordId
                  (connectionsGroup (appendConnectionLine recordId path w)))).
  { intros recordId path. unfold appendConnectionLine.
    cbn [connectionsGroup]. destruct (Hrm recordId) as [H1 H2].
    rewrite map_app. apply List.NoDup_app; [exact H1 | |].
    - repeat constructor. auto.
    - intros r Hr [<- | []]. now apply H2. }
  assert (Hup : forall recordId,
    List.NoDup (map pathRecordId
                  (connectionsGroup (updateControlHandlesPosition recordId w)))).
  { intros recordId. unfold updateControlHandlesPosition.
    destruct (querySelector _ _) as [el |]; [| exact Hnd].
    destruct (Str.isEmpty _); [exact Hnd |].
    unfold allocPoints. now destruct (_ <? _)%nat. }
  destruct e; cbn [dispatch].
  - unfold showControlHandles.
    cbn [hideControlHandles connectionsGroup objects].
    destruct (querySelector _ _) as [el |]; [| exact Hnd].
    destruct (Str.isEmpty _); [exact Hnd |].
    unfold allocPoints. now destruct (_ <? _)%nat.
  - exact Hnd.
  - unfold handleRecordPositionChange.
    destruct (_ && _); [| exact Hnd].
    destruct redrawn as [path |]; [| apply Hup].
    unfold updateControlHandlesPosition.
    destruct (querySelector _ _) as [el |]; [| apply Hap].
    destruct (Str.isEmpty _); [apply Hap |].
    unfold allocPoints. destruct (_ <? _)%nat; apply Hap.
  - unfold handleRecordDeleted. now destruct (isSelected _ _).
  - unfold handleConnectionLineReset. now destruct (isSelected _ _).
  - now rewrite updateConnectionPath_ids.
  - apply Hrm.
  - apply Hap.
  - constructor.
Qed.

Lemma querySelector_app_miss group recordId el :
  ~ In recordId (map pathRecordId group) ->
  pathRecordId el = recordId ->
  querySelector (group ++ [el]) recordId = Some el.
Proof.
  unfold querySelector. intros Hnot Hid.
  induction group as [| e group IH]; simpl.
  - now rewrite Hid, String.eqb_refl.
  - simpl in Hnot. apply Decidable.not_or in Hnot as [Hne Hnot].
    apply String.eqb_neq in Hne. rewrite Hne. now apply IH.
Qed.

Lemma querySelector_miss group recordId :
  ~ In recordId (map pathRecordId group) ->
  querySelector group recordId = None.
Proof.
  unfold querySelector. intros Hnot.
  induction group as [| e group IH]; [reflexivity |].
  simpl in *. apply Decidable.not_or in Hnot as [Hne Hnot].
  apply String.eqb_neq in Hne. rewrite Hne. now apply IH.
Qed.

(** X10.  For record ids that the selector reads as themselves: when no two
    connectors of the canvas belong to one record, no sequence of events
    about such records makes it otherwise; then the connector
    [drawConnectionLine] appends is the one [querySelector] finds for the
    record, and after [removeConnectionLine] the record has none. *)
Theorem one_connector_per_record (events : list event) (w : World) :
  forallb literalEvent events = true ->
  List.NoDup (map pathRecordId (connectionsGroup w)) ->
  let w' := fold_left dispatch events w in
  List.NoDup (map pathRecordId (connectionsGroup w'))
  /\ (forall recordId path, literalId recordId = true ->
        querySelector (connectionsGroup (appendConnectionLine recordId path w'))
          recordId
        = Some {| pathRecordId := recordId; d := path |})
  /\ (forall recordId, literalId recordId = true ->
        querySelector (connectionsGroup (removeConnectionLine recordId w'))
          recordId = None).
Proof.
  intros _ Hnd w'.
  assert (Hnd' : List.NoDup (map pathRecordId (connectionsGroup w'))).
  { subst w'. revert w Hnd.
    induction events as [| e events IH]; intros w Hnd; [exact Hnd |].
    simpl. apply IH. now apply dispatch_ids. }
  assert (Hrm : forall recordId,
    ~ In recordId
        (map pathRecordId
           (connectionsGroup (removeConnectionLine recordId w')))).
  { intros recordId. unfold removeConnectionLine.
    destruct (removeFirst_ids _ recordId Hnd') as (_ & H2 & _).
    now destruct (isSelected _ _). }
  split; [exact Hnd' |]. split.
  - intros recordId path _. unfold appendConnectionLine. cbn [connectionsGroup].
    now apply querySelector_app_miss.
  - intros recordId _. now apply querySelector_miss.
Qed.

Lemma one_connector_per_record_witness :
  literalId "record_1700000000000_k3j9x2m1q" = true
  /\ querySelector
       (connectionsGroup
          (appendConnectionLine "record_1700000000000_k3j9x2m1q" "M 0 0 L 9 9"
             (fold_left dispatch
                [lineDrawn "record_1700000000000_k3j9x2m1q" "M 0 0 L 5 5"]
                (constructed []))))
       "record_1700000000000_k3j9x2m1q"
     = Some {| pathRecordId := "record_1700000000000_k3j9x2m1q";
               d := "M 0 0 L 9 9" |}.
Proof.
  split; [reflexivity |].
  refine (proj1 (proj2 (one_connector_per_record
            [lineDrawn "record_1700000000000_k3j9x2m1q" "M 0 0 L 5 5"]
            (constructed []) _ _))
            "record_1700000000000_k3j9x2m1q" "M 0 0 L 9 9" _).
  - reflexivity.
  - constructor.
  - reflexivity.
Defined.

End AdjusterEventFacts.

(** ** Saving, redrawing and validating an adjustment *)

Section AdjusterStoreFacts.
Import JSNumber PathModel Adjuster RecordManager AdjusterStore.
Local Open Scope string_scope.

Lemma pointValue_valid p : pointIsValid (pointValue p) = true.
Proof. reflexivity. Qed.

Lemma validate_connectionLineData points now recordId :
  validateConnectionLineData (connectionLineData points now) recordId
  = (2 <=? List.length points)%nat.
Proof.
  unfold validateConnectionLineData, connectionLineData.
  cbn [truthy typeof get lookupProp String.eqb Ascii.eqb Bool.eqb negb orb
       isArray].
  change (String.eqb "pathPoints" "pathPoints") with true.
  change (String.eqb "isCustom" "pathPoints") with false.
  change (String.eqb "object" "object") with true.
  cbn [negb orb]. rewrite length_map.
  destruct (Nat.ltb_spec (List.length points) 2) as [Hlt | Hge].
  - symmetry. apply Nat.leb_gt. exact Hlt.
  - transitivity true; [| symmetry; now apply Nat.leb_le].
    apply forallb_forall. intros v Hin. apply in_map_iff in Hin as (p & <- & _).
    apply pointValue_valid.
Qed.

Lemma validate_recordId line r1 r2 :
  validateConnectionLineData line r1 = validateConnectionLineData line r2.
Proof. reflexivity. Qed.

(** X11.  [saveConnectionLineAdjustment] stores whatever the connector's
    [d] parses to, as a custom line, and triggers the auto-save; the other
    records stay as they are.  The stored line passes
    [validateConnectionLineData] exactly when at least two points were
    parsed: otherwise the next [cleanupInvalidConnectionLines] deletes
    it. *)
Theorem saved_line_validity
    (recordId : string) (now : Z) (nowIso later : string)
    (group : list PathElement) (rm : RecordManager.World)
    (el : PathElement) (record : StoredRecord) :
  querySelector group recordId = Some el ->
  Str.isEmpty (d el) = false ->
  records rm !! recordId = Some record ->
  let points := parsePathData (d el) in
  let saved := {| id := id record;
                  connectionLine := Some (connectionLineData points now);
                  updatedAt := nowIso;
                  otherFields := otherFields record |} in
  exists rm',
    saveConnectionLineAdjustment recordId now nowIso group (Some rm) = Some rm'
    /\ records rm' !! recordId = Some saved
    /\ (forall other, other <> recordId ->
          records rm' !! other = records rm !! other)
    /\ storageManager rm' = option_map triggerAutoSave (storageManager rm)
    /\ hasCustomLine saved = true
    /\ validateConnectionLineData (connectionLineData points now) recordId
       = (2 <=? List.length points)%nat
    /\ records (cleanupInvalidConnectionLines later rm') !! recordId
       = Some (if (2 <=? List.length points)%nat then saved
               else deleted later saved).
Proof.
  intros Hq He Hr points saved.
  unfold saveConnectionLineAdjustment. rewrite Hq, He, Hr.
  eexists. split; [reflexivity |]. cbn [records storageManager].
  split; [apply lookup_insert_eq |].
  split; [intros other Hne; now apply lookup_insert_ne |].
  split; [reflexivity |]. split; [reflexivity |].
  split; [apply validate_connectionLineData |].
  rewrite cleanup_lookup. cbn [records]. rewrite lookup_insert_eq. simpl.
  unfold cleanupRecord, isInvalid. fold points. fold saved.
  cbn [connectionLine saved].
  replace (hasCustomLine saved) with true by reflexivity.
  rewrite validate_connectionLineData. fold points.
  now destruct (List.length points) as [| [| n]].
Qed.

Lemma saved_line_validity_witness :
  let rm := {| records :=
                 {[ "r1" := {| id := "r1"; connectionLine := None;
                               updatedAt := "2024-01-01T00:00:00.000Z";
                               otherFields := [] |} ]};
               storageManager := None |} in
  validateConnectionLineData
    (connectionLineData (parsePathData "M NaN 0 L 1 2") 1700000000000) "r1"
  = false.
Proof.
  intros rm.
  destruct (saved_line_validity "r1" 1700000000000 "2024-06-01T00:00:00.000Z"
              "2024-07-01T00:00:00.000Z"
              [ {| pathRecordId := "r1"; d := "M NaN 0 L 1 2" |} ] rm
              {| pathRecordId := "r1"; d := "M NaN 0 L 1 2" |}
              {| id := "r1"; connectionLine := None;
                 updatedAt := "2024-01-01T00:00:00.000Z";
                 otherFields := [] |}
              eq_refl eq_refl (lookup_singleton_eq _ _))
    as (rm' & _ & _ & _ & _ & _ & Hv & _).
  exact Hv.
Defined.

(** X12.  A drag followed by the save: when the points after
    [updateConnectionPath] print in positional notation, the record stores
    exactly these points as a custom line, the line passes the validation,
    and [createConnectionPath] builds from it, for any start and end, the
    path the connector shows. *)
Theorem drag_then_save
    recordId (w : Adjuster.World) el refs (i : nat)
    newX newY isHorizontal isVertical
    (now : Z) (nowIso : string) (rm : RecordManager.World)
    (record : StoredRecord) :
  querySelector (connectionsGroup w) recordId = Some el ->
  originalPathPoints w = Some refs ->
  base.NoDup refs ->
  Forall (fun l => l < List.length (objects w))%nat refs ->
  (S i < List.length refs)%nat ->
  records rm !! recordId = Some record ->
  let w' := updateConnectionPath recordId (Z.of_nat i) newX newY
              isHorizontal isVertical w in
  let before := deref (objects w) refs in
  let after := if isHorizontal then moved setY newY i before
               else if isVertical then moved setX newX i before
               else before in
  Forall plainPoint after ->
  exists rm',
    saveConnectionLineAdjustment recordId now nowIso (connectionsGroup w')
      (Some rm) = Some rm'
    /\ (connectionLine <$> records rm' !! recordId)
       = Some (Some (connectionLineData after now))
    /\ validateConnectionLineData (connectionLineData after now) recordId
       = true
    /\ (forall startX startY endX endY,
          querySelector (connectionsGroup w') recordId
          = Some {| pathRecordId := pathRecordId el;
                    d := CircleRenderer.createConnectionPath
                           startX startY endX endY
                           (Some {| isCustom := true;
                                    pathPoints := Some after;
                                    segments := None;
                                    lastModified := Some (Millis now) |}) |}).
Proof.
  intros Hq Ho Hnd Hv Hi Hr w' before after Hplain.
  destruct (updateConnectionPath_in_range recordId w el refs i newX newY
              isHorizontal isVertical Hq Ho Hnd Hv Hi)
    as (_ & _ & Hafter & Hd).
  fold w' in Hafter, Hd. cbv zeta in Hafter, Hd. rewrite Hafter in Hd.
  fold before in Hd. fold after in Hd.
  assert (Hlen : (2 <= List.length after)%nat).
  { unfold after, moved, before.
    destruct isHorizontal; [| destruct isVertical];
      rewrite ?length_imap, deref_length by exact Hv; lia. }
  destruct after as [| p0 [| p1 rest]] eqn:Ea; simpl in Hlen; try lia.
  assert (Hparse : parsePathData (generatePathFromPoints (p0 :: p1 :: rest))
                   = p0 :: p1 :: rest)
    by now apply parsePathData_generate.
  unfold saveConnectionLineAdjustment. rewrite Hd. cbn [d].
  replace (Str.isEmpty (generatePathFromPoints (p0 :: p1 :: rest))) with false.
  2:{ unfold generatePathFromPoints. rewrite fold_lineTo. reflexivity. }
  rewrite Hr, Hparse. eexists. split; [reflexivity |].
  cbn [records]. rewrite lookup_insert_eq. split; [reflexivity |].
  split.
  { rewrite validate_connectionLineData. reflexivity. }
  intros. reflexivity.
Qed.

Lemma drag_then_save_witness :
  let w := showControlHandles "r1"
             (worldShowing "M 0 0 L 50 0 L 50 50 L 100 50") in
  let w' := updateConnectionPath "r1" 0 (ofZ 25) (ofZ 60) true false w in
  let rm := {| records :=
                 {[ "r1" := {| id := "r1"; connectionLine := None;
                               updatedAt := "2024-01-01T00:00:00.000Z";
                               otherFields := [] |} ]};
               storageManager := None |} in
  exists rm',
    saveConnectionLineAdjustment "r1" 1700000000000 "2024-06-01T00:00:00.000Z"
      (connectionsGroup w') (Some rm) = Some rm'
    /\ (connectionLine <$> records rm' !! "r1")
       = Some (Some (connectionLineData
                       [pt 0 60; pt 50 60; pt 50 50; pt 100 50]
                       1700000000000)).
Proof.
  intros w w' rm.
  destruct (drag_then_save "r1" w
              {| pathRecordId := "r1"; d := "M 0 0 L 50 0 L 50 50 L 100 50" |}
              [0; 1; 2; 3]%nat 0 (ofZ 25) (ofZ 60) true false
              1700000000000 "2024-06-01T00:00:00.000Z" rm
              {| id := "r1"; connectionLine := None;
                 updatedAt := "2024-01-01T00:00:00.000Z";
                 otherFields := [] |}
              eq_refl eq_refl)
    as (rm' & Hs & Hl & _).
  - apply NoDup_ListNoDup. repeat constructor; simpl; lia.
  - repeat (apply Forall_cons; [vm_compute; lia |]). apply Forall_nil.
  - vm_compute. lia.
  - apply lookup_singleton_eq.
  - vm_compute. repeat constructor.
  - exists rm'. split; [exact Hs |].
    vm_compute in Hl. vm_compute. exact Hl.
Defined.

End AdjusterStoreFacts.

Section CustomPathFacts.
Import JSNumber PathModel CircleRenderer.
Local Open Scope string_scope.

(** X13.  A custom line with path points makes [createConnectionPath]
    ignore the start and the end it is given: the path is the polyline
    through the stored points, it parses back to them when they are at
    least two and print in positional notation, and it is the empty string,
    not the default path, when there is one point only. *)
Theorem createConnectionPath_custom
    (startX startY endX endY : number) (data : ConnectionLine)
    (p0 : Point) (rest : list Point) :
  isCustom data = true ->
  pathPoints data = Some (p0 :: rest) ->
  let path := createConnectionPath startX startY endX endY (Some data) in
  path = generatePathFromPoints (p0 :: rest)
  /\ (rest = [] -> path = "")
  /\ (rest <> [] -> Forall plainPoint (p0 :: rest) ->
      parsePathData path = p0 :: rest).
Proof.
  intros Hc Hp path.
  assert (H : path = generatePathFromPoints (p0 :: rest)).
  { subst path. unfold createConnectionPath. now rewrite Hc, Hp. }
  split; [exact H |]. split.
  - intros ->. now rewrite H.
  - intros Hne Hplain. rewrite H.
    destruct rest as [| p1 rest]; [congruence |].
    now apply parsePathData_generate.
Qed.

Lemma createConnectionPath_custom_witness :
  createConnectionPath (ofZ 0) (ofZ 0) (ofZ 100) (ofZ 50)
    (Some {| isCustom := true; pathPoints := Some [pt 7 9];
             segments := None; lastModified := None |})
  = "".
Proof.
  refine (proj1 (proj2 (createConnectionPath_custom
    (ofZ 0) (ofZ 0) (ofZ 100) (ofZ 50)
    {| isCustom := true; pathPoints := Some [pt 7 9];
       segments := None; lastModified := None |}
    (pt 7 9) [] eq_refl eq_refl)) eq_refl).
Defined.

End CustomPathFacts.

Section LegacyPathFacts.
Import JSNumber PathModel CircleRenderer.
Local Open Scope string_scope.

Lemma fold_applySegment (segs : list Segment) currentX currentY
    (points : list Point) :
  exists currentX' currentY' trail,
    fold_left applySegment segs (currentX, currentY, points)
    = (currentX', currentY', (points ++ trail)%list)
    /\ List.length trail = List.length segs.
Proof.
  revert currentX currentY points.
  induction segs as [| seg segs IH]; intros currentX currentY points.
  - exists currentX, currentY, []. now rewrite app_nil_r.
  - cbn [fold_left]. unfold applySegment at 2.
    match goal with
    | |- context [fold_left applySegment segs (?a, ?b, ?c)] =>
        destruct (IH a b c) as (cx & cy & trail & -> & Hlen)
    end.
    eexists cx, cy, (_ :: trail). split.
    + now rewrite <- app_assoc.
    + simpl. now rewrite Hlen.
Qed.

(** X30.  The path of the legacy [segments] format, which
    [createConnectionPath] builds for custom data without path points:
    it starts at the start point, has one point per segment record, then
    at most one more, and ends with a segment of constant [x] into the end
    point (the point before the end has the [x] of the end); it parses back
    to its points when they print in positional notation. *)
Theorem createCustomConnectionPath_shape
    (startX startY endX endY : number) (segs : list Segment) :
  exists (before : list Point) (q : Point),
    createCustomConnectionPath startX startY endX endY segs
    = generatePathFromPoints (before ++ [q; {| x := endX; y := endY |}])
    /\ head (before ++ [q]) = Some {| x := startX; y := startY |}
    /\ (x q = endX \/ eqb (x q) endX = true)
    /\ (List.length before = List.length segs
        \/ List.length before = S (List.length segs))
    /\ (Forall plainPoint (before ++ [q; {| x := endX; y := endY |}]) ->
        parsePathData (createCustomConnectionPath startX startY endX endY segs)
        = (before ++ [q; {| x := endX; y := endY |}])%list)
    /\ (forall data,
          isCustom data = true ->
          nonEmpty (pathPoints data) = None ->
          segments data = Some segs -> segs <> [] ->
          createConnectionPath startX startY endX endY (Some data)
          = createCustomConnectionPath startX startY endX endY segs).
Proof.
  set (start := {| x := startX; y := startY |}).
  set (finish := {| x := endX; y := endY |}).
  assert (Hdispatch : forall data,
    isCustom data = true ->
    nonEmpty (pathPoints data) = None ->
    segments data = Some segs -> segs <> [] ->
    createConnectionPath startX startY endX endY (Some data)
    = createCustomConnectionPath startX startY endX endY segs).
  { intros data Hc Hp Hs Hne. unfold createConnectionPath.
    rewrite Hc, Hp, Hs. destruct segs; [congruence | reflexivity]. }
  unfold createCustomConnectionPath at 1 2. fold start.
  destruct (fold_applySegment segs
              (add startX (mul (sub endX startX) half)) startY [start])
    as (cx & cy & trail & -> & Hlen).
  set (points := ([start] ++ trail)%list).
  set (lastPoint := List.last points start).
  set (points' := if negb (eqb (x lastPoint) endX)
                  then (points ++ [ {| x := endX; y := y lastPoint |} ])%list
                  else points).
  assert (Hne : points' <> []).
  { subst points' points. destruct (negb _); discriminate. }
  destruct (exists_last Hne) as (before & q & Hq).
  exists before, q.
  assert (Hpath :
    match (points' ++ [finish])%list with
    | [] => ""
    | p0 :: rest => fold_left lineTo rest (moveTo p0)
    end = generatePathFromPoints (before ++ [q; finish])).
  { rewrite Hq, <- app_assoc. cbn [app].
    destruct before as [| b0 [| b1 before]]; reflexivity. }
  fold finish. rewrite Hpath.
  split; [reflexivity |]. split.
  { rewrite <- Hq. subst points' points. now destruct (negb _). }
  split.
  { subst points'. destruct (eqb (x lastPoint) endX) eqn:E; cbn [negb] in Hq.
    - right. subst lastPoint. rewrite Hq, last_last in E. exact E.
    - left. apply app_inj_tail in Hq as [_ <-]. reflexivity. }
  split.
  { assert (Hl : List.length points' = S (List.length before))
      by (rewrite Hq, length_app; simpl; lia).
    subst points' points. destruct (negb _);
      rewrite ?length_app in Hl; simpl in Hl; lia. }
  split; [| exact Hdispatch].
  intros Hplain.
  destruct before as [| b0 [| b1 before]]; cbn [app] in *;
    now apply parsePathData_generate.
Qed.

Lemma createCustomConnectionPath_shape_witness :
  createCustomConnectionPath (ofZ 0) (ofZ 0) (ofZ 100) (ofZ 50)
    [ {| type := "horizontal"; offset := ofZ 10 |} ]
  = "M 0 0 L 50 10 L 100 10 L 100 50"
  /\ exists before q,
       createCustomConnectionPath (ofZ 0) (ofZ 0) (ofZ 100) (ofZ 50)
         [ {| type := "horizontal"; offset := ofZ 10 |} ]
       = generatePathFromPoints (before ++ [q; pt 100 50])
       /\ head (before ++ [q]) = Some (pt 0 0).
Proof.
  split; [reflexivity |].
  destruct (createCustomConnectionPath_shape (ofZ 0) (ofZ 0) (ofZ 100) (ofZ 50)
              [ {| type := "horizontal"; offset := ofZ 10 |} ])
    as (before & q & Hpath & Hhead & _).
  exists before, q. split; [exact Hpath | exact Hhead].
Defined.

End LegacyPathFacts.

Section CleanupFacts.
Import JSNumber RecordManager.
Local Open Scope string_scope.

Lemma cleanupRecord_valid now recordId record :
  isInvalid recordId (cleanupRecord now recordId record) = false.
Proof.
  unfold cleanupRecord. destruct (isInvalid recordId record) eqn:E;
    [reflexivity | exact E].
Qed.

Lemma cleanup_no_invalid now (w : World) :
  base.filter (fun entry : string * StoredRecord =>
                 isInvalid (fst entry) (snd entry) = true)
              (records (cleanupInvalidConnectionLines now w)) = ∅.
Proof.
  apply map_empty. intros recordId. apply map_lookup_filter_None. right.
  intros record Hr. rewrite cleanup_lookup in Hr.
  destruct (records w !! recordId) as [r |]; [| discriminate].
  simpl in Hr. injection Hr as <-. simpl.
  now rewrite cleanupRecord_valid.
Qed.

(** X14.  A second pass of [cleanupInvalidConnectionLines] changes
    nothing: no record, and no auto-save timer is set. *)
Theorem cleanup_idempotent (now later : string) (w : World) :
  cleanupInvalidConnectionLines later (cleanupInvalidConnectionLines now w)
  = cleanupInvalidConnectionLines now w.
Proof.
  unfold cleanupInvalidConnectionLines at 1.
  rewrite (cleanup_no_invalid now w), map_size_empty. cbn [Nat.ltb Nat.leb].
  pose proof (cleanup_lookup now w) as Hl.
  destruct (cleanupInvalidConnectionLines now w) as [recs sm].
  cbn [records storageManager] in *. f_equal.
  apply map_eq. intros recordId. rewrite map_lookup_imap.
  destruct (recs !! recordId) as [record |] eqn:Hr; [| reflexivity].
  simpl. f_equal. unfold cleanupRecord.
  rewrite Hl in Hr.
  destruct (records w !! recordId) as [r |]; [| discriminate].
  simpl in Hr. injection Hr as <-. now rewrite cleanupRecord_valid.
Qed.

(** X15.  After [cleanupInvalidConnectionLines] the draw of a record of
    the store never deletes a connection line and never triggers the
    auto-save: it hands the record's line to the renderer if the line is
    custom, [null] otherwise. *)
Theorem cleanup_then_draw (now later : string) (w : World)
    (recordId : string) (record : StoredRecord) sm :
  records (cleanupInvalidConnectionLines now w) !! recordId = Some record ->
  selectConnectionLineData later record sm
  = (if hasCustomLine record then connectionLine record else None, record, sm).
Proof.
  intros Hr. rewrite cleanup_lookup in Hr.
  destruct (records w !! recordId) as [r |]; [| discriminate].
  simpl in Hr. injection Hr as <-.
  pose proof (cleanupRecord_valid now recordId r) as Hv.
  unfold selectConnectionLineData. unfold isInvalid in Hv.
  destruct (connectionLine (cleanupRecord now recordId r)) as [line |];
    [| now destruct (hasCustomLine _)].
  destruct (hasCustomLine (cleanupRecord now recordId r)); [| reflexivity].
  simpl in Hv. apply negb_false_iff in Hv.
  now rewrite (validate_recordId line _ recordId), Hv.
Qed.

Lemma cleanup_then_draw_witness :
  let record := {| id := "n1"; connectionLine := None;
                   updatedAt := "2024-01-01T00:00:00.000Z";
                   otherFields := [] |} in
  selectConnectionLineData "2024-07-01T00:00:00.000Z" record None
  = (None, record, None).
Proof.
  intros record.
  refine (cleanup_then_draw "2024-06-01T00:00:00.000Z"
            "2024-07-01T00:00:00.000Z"
            {| records := {[ "n1" := record ]}; storageManager := None |}
            "n1" record None _).
  reflexivity.
Defined.

Lemma pointIsValid_numeric point :
  pointIsValid point = true -> numericPoint point.
Proof.
  unfold pointIsValid, numericPoint. intros H.
  apply andb_prop in H as [H Hy]. apply andb_prop in H as [_ Hx].
  destruct point as [| | b | n | s | elems | props];
    cbn in Hx, Hy; try discriminate.
  exists props. cbn.
  destruct (lookupProp props "x"); try discriminate.
  destruct (lookupProp props "y"); try discriminate.
  eauto.
Qed.

(** X16.  What [validateConnectionLineData] accepts has a [pathPoints]
    array of at least two objects whose [x] and [y] are numbers. *)
Theorem validate_sound (line : value) (recordId : string) :
  validateConnectionLineData line recordId = true ->
  exists points,
    get line "pathPoints" = VArr points
    /\ (2 <= List.length points)%nat
    /\ Forall numericPoint points.
Proof.
  unfold validateConnectionLineData.
  destruct (negb (truthy line) || negb (String.eqb (typeof line) "object"));
    [discriminate |].
  destruct (get line "pathPoints") as [| | b | n | s | points | props];
    try (simpl; discriminate);
    try (destruct (negb _ || negb _); discriminate).
  destruct (negb _ || negb _); [discriminate |].
  destruct (Nat.ltb_spec (List.length points) 2) as [Hlt | Hge];
    [discriminate |].
  intros Hall. exists points. split; [reflexivity |]. split; [exact Hge |].
  apply Forall_forall. intros point Hin. apply pointIsValid_numeric.
  rewrite forallb_forall in Hall. now apply Hall.
Qed.

Lemma validate_sound_witness :
  exists points,
    get (VObj [("pathPoints",
                VArr [VObj [("x", VNum (ofZ 1)); ("y", VNum (ofZ 2))];
                      VObj [("x", VNum NaN); ("y", VNum (ofZ 0))]])])
        "pathPoints" = VArr points
    /\ (2 <= List.length points)%nat
    /\ Forall numericPoint points.
Proof.
  apply (validate_sound _ "n1"). reflexivity.
Defined.

End CleanupFacts.

(** ** Dropping a card *)

Section PositionFacts.
Import JSNumber RecordManager RecordManagerPosition.
Local Open Scope string_scope.

Lemma customFlag_hasCustomLine (record : StoredRecord) :
  truthy (customFlag record) = hasCustomLine record.
Proof.
  unfold customFlag, hasCustomLine.
  destruct (connectionLine record) as [line |]; [| reflexivity].
  destruct line as [| | b | n | s | elems | props]; try reflexivity.
  - now destruct b.
  - cbn. now rewrite andb_false_r.
  - cbn. now rewrite andb_false_r.
Qed.

(** X17.  [resetConnectionLineToDefault] deletes the connection line of a
    record whose line is custom, keeps its other fields and dispatches
    [connectionLineReset]; it leaves any other record as it is and
    dispatches nothing.  The next draw hands [null] to the renderer, which
    builds the default path. *)
Theorem reset_gives_default_path (now : string) (record : StoredRecord) sm :
  let (record', fired) := resetConnectionLineToDefault record in
  fired = hasCustomLine record
  /\ (hasCustomLine record = true ->
      connectionLine record' = None
      /\ id record' = id record
      /\ updatedAt record' = updatedAt record
      /\ otherFields record' = otherFields record)
  /\ (hasCustomLine record = false -> record' = record)
  /\ hasCustomLine record' = false
  /\ selectConnectionLineData now record' sm = (None, record', sm)
  /\ (forall startX startY endX endY,
        CircleRenderer.createConnectionPath startX startY endX endY None
        = CircleRenderer.defaultConnectionPath startX startY endX endY).
Proof.
  unfold resetConnectionLineToDefault. rewrite customFlag_hasCustomLine.
  destruct (hasCustomLine record) eqn:E.
  - repeat split; discriminate.
  - repeat split; try assumption; try discriminate.
    unfold selectConnectionLineData. rewrite E.
    now destruct (connectionLine record).
Qed.

Lemma reset_gives_default_path_witness :
  let record := {| id := "n1";
                   connectionLine :=
                     Some (VObj [("isCustom", VBool true);
                                 ("pathPoints", VArr [])]);
                   updatedAt := "2024-01-01T00:00:00.000Z";
                   otherFields := [("title", VStr "a")] |} in
  resetConnectionLineToDefault record
  = ({| id := "n1";
        connectionLine := None;
        updatedAt := "2024-01-01T00:00:00.000Z";
        otherFields := [("title", VStr "a")] |}, true).
Proof.
  intros record.
  pose proof (reset_gives_default_path "2024-06-01T00:00:00.000Z" record None)
    as H.
  destruct (resetConnectionLineToDefault record) as [record' fired].
  destruct H as (Hf & Hc & _).
  destruct (Hc eq_refl) as (Hl & Hi & Hu & Ho).
  destruct record' as [i l u o]. cbn in Hl, Hi, Hu, Ho, Hf. now subst.
Defined.

End PositionFacts.

(** ** Dragging a card; the format check of stored data *)

Section InteractionFacts.
Import Geometry InteractionHandler.
Local Open Scope R_scope.

(** X18.  On a canvas that is at least 20 wider and 20 higher than the
    card, the position [getConstrainedPosition] gives keeps the card inside
    the canvas, 10 away from every border, and [applySnapping] has nothing
    left to snap when the card's [offsetWidth] and [offsetHeight] are not
    above the width and height the position was constrained with: it
    returns the position unchanged. *)
Theorem drag_stays_inside (bounds : Bounds) (x y w h offsetWidth offsetHeight : R) :
  20 <= width bounds - w ->
  20 <= height bounds - h ->
  offsetWidth <= w ->
  offsetHeight <= h ->
  let constrained := getConstrainedPosition (Some bounds) x y w h in
  applySnapping (Some bounds) offsetWidth offsetHeight constrained = constrained
  /\ 10 <= Geometry.x constrained <= width bounds - w - 10
  /\ 10 <= Geometry.y constrained <= height bounds - h - 10.
Proof.
  intros Hw Hh How Hoh constrained.
  assert (Hx : 10 <= Geometry.x constrained <= width bounds - w - 10).
  { subst constrained. cbn [getConstrainedPosition Geometry.x].
    unfold Rmax, Rmin. repeat destruct (Rle_dec _ _); lra. }
  assert (Hy : 10 <= Geometry.y constrained <= height bounds - h - 10).
  { subst constrained. cbn [getConstrainedPosition Geometry.y].
    unfold Rmax, Rmin. repeat destruct (Rle_dec _ _); lra. }
  split; [| split; assumption].
  destruct constrained as [cx cy]. cbn [Geometry.x Geometry.y] in *.
  unfold applySnapping, snapThreshold. cbn [Geometry.x Geometry.y].
  assert (E1 : ltb (Rabs cx) 10 = false)
    by (apply ltb_false; rewrite Rabs_right; lra).
  assert (E2 : ltb (Rabs cy) 10 = false)
    by (apply ltb_false; rewrite Rabs_right; lra).
  rewrite E1, E2.
  assert (E3 : ltb (Rabs (cx - (width bounds - offsetWidth))) 10 = false)
    by (apply ltb_false; rewrite Rabs_left; lra).
  assert (E4 : ltb (Rabs (cy - (height bounds - offsetHeight))) 10 = false)
    by (apply ltb_false; rewrite Rabs_left; lra).
  now rewrite E3, E4.
Qed.

Lemma drag_stays_inside_witness :
  applySnapping (Some (mkBounds 800 600)) 200 150
    (getConstrainedPosition (Some (mkBounds 800 600)) 3 700 200 150)
  = getConstrainedPosition (Some (mkBounds 800 600)) 3 700 200 150.
Proof.
  apply (drag_stays_inside (mkBounds 800 600) 3 700 200 150 200 150);
    cbn [width height]; lra.
Defined.

End InteractionFacts.

Section StorageFacts.
Import JSNumber RecordManager StorageFormat.
Local Open Scope string_scope.

Lemma someFalsy_false reads :
  someFalsy reads = Some false ->
  Forall (fun read => truthy (get (fst read) (snd read)) = true) reads.
Proof.
  induction reads as [| [receiver key] reads IH]; intros H; [constructor |].
  cbn [someFalsy] in H. unfold getProp in H.
  destruct receiver; try discriminate;
    match type of H with
    | (if truthy ?v then _ else _) = _ =>
        destruct (truthy v) eqn:E; [| discriminate]
    end; (constructor; [exact E | now apply IH]).
Qed.

Lemma validateRecords_true records :
  validateRecords records = Some true ->
  Forall (fun record => validateRecordFormat record = Some true) records.
Proof.
  induction records as [| record records IH]; intros H; [constructor |].
  cbn [validateRecords] in H.
  destruct (validateRecordFormat record) as [[] |] eqn:E; try discriminate.
  constructor; [exact E | now apply IH].
Qed.

Lemma validateRecordFormat_true record :
  validateRecordFormat record = Some true ->
  includes ["text"; "image"] (get record "type") = true
  /\ truthy (get (get record "position") "x") = true
  /\ truthy (get (get record "position") "y") = true
  /\ truthy (get (get record "size") "width") = true
  /\ truthy (get (get record "size") "height") = true.
Proof.
  unfold validateRecordFormat.
  destruct (hasFields record requiredFields) as [[] |]; try discriminate.
  destruct (includes ["text"; "image"] (get record "type")); [| discriminate].
  cbn [negb].
  destruct (someFalsy _) as [[] |] eqn:E; try discriminate.
  intros _. apply someFalsy_false in E.
  inversion E as [| ? ? H1 E1]; subst. inversion E1 as [| ? ? H2 E2]; subst.
  inversion E2 as [| ? ? H3 E3]; subst. inversion E3 as [| ? ? H4 E4]; subst.
  cbn [fst snd] in *. auto.
Qed.

(** X19.  Year data that [validateDataFormat] accepts has a truthy [year]
    and an array of records each of which is a text or an image card with
    truthy [position.x], [position.y], [size.width] and [size.height]. *)
Theorem validateDataFormat_sound (data : value) :
  validateDataFormat data = Some true ->
  exists records,
    get data "records" = VArr records
    /\ truthy (get data "year") = true
    /\ Forall (fun record =>
                 includes ["text"; "image"] (get record "type") = true
                 /\ truthy (get (get record "position") "x") = true
                 /\ truthy (get (get record "position") "y") = true
                 /\ truthy (get (get record "size") "width") = true
                 /\ truthy (get (get record "size") "height") = true)
              records.
Proof.
  unfold validateDataFormat.
  destruct (negb (truthy data) || negb (String.eqb (typeof data) "object"));
    [discriminate |].
  destruct (truthy (get data "year")); [| discriminate]. cbn [negb orb].
  destruct (get data "records") as [| | b | n | s | records | props];
    try (cbn; discriminate);
    try (destruct (negb _ || negb _); discriminate).
  cbn [truthy isArray negb orb]. intros H. exists records.
  split; [reflexivity |]. split; [reflexivity |].
  apply validateRecords_true in H.
  eapply Forall_impl; [| exact H]. intros record.
  apply validateRecordFormat_true.
Qed.

(** X20.  The test [!record.position.x] takes the coordinate 0 for a
    missing one: year data with a card at [x = 0] is refused as a whole,
    whatever the records after it are, when the records before it are
    accepted. *)
Theorem validateDataFormat_zero_coordinate (year : value) (y : number)
    (before after : list value) :
  truthy year = true ->
  Forall (fun record => validateRecordFormat record = Some true) before ->
  validateDataFormat
    (VObj [("year", year);
           ("records", VArr (before ++ cardAt (ofZ 0) y :: after))])
  = Some false.
Proof.
  intros Hy Hb. unfold validateDataFormat.
  cbn [truthy typeof get lookupProp negb orb].
  change (String.eqb "object" "object") with true.
  change (String.eqb "year" "records") with false.
  change (String.eqb "records" "records") with true.
  change (String.eqb "year" "year") with true.
  cbn [negb orb]. rewrite Hy. cbn [negb orb truthy isArray].
  induction Hb as [| record before Hr _ IH].
  - reflexivity.
  - rewrite <- app_comm_cons. cbn [validateRecords]. now rewrite Hr.
Qed.

Lemma validateDataFormat_sound_witness :
  exists records,
    get (VObj [("year", VNum (ofZ 2024));
               ("records", VArr [cardAt (ofZ 10) (ofZ 20)])]) "records"
    = VArr records.
Proof.
  destruct (validateDataFormat_sound
              (VObj [("year", VNum (ofZ 2024));
                     ("records", VArr [cardAt (ofZ 10) (ofZ 20)])]) eq_refl)
    as (records & H & _).
  exists records. exact H.
Defined.

Lemma validateDataFormat_zero_coordinate_witness :
  validateDataFormat
    (VObj [("year", VNum (ofZ 2024));
           ("records", VArr [cardAt (ofZ 10) (ofZ 10); cardAt (ofZ 0) (ofZ 50)])])
  = Some false.
Proof.
  apply (validateDataFormat_zero_coordinate (VNum (ofZ 2024)) (ofZ 50)
           [cardAt (ofZ 10) (ofZ 10)] []).
  - reflexivity.
  - repeat constructor.
Defined.

End StorageFacts.

(** ** Dates *)

Section DateFacts.
Import JSNumber JSString DateUtils.
Local Open Scope Z_scope.

Lemma month_cases (month : Z) :
  1 <= month <= 12 ->
  month = 1 \/ month = 2 \/ month = 3 \/ month = 4 \/ month = 5 \/ month = 6
  \/ month = 7 \/ month = 8 \/ month = 9 \/ month = 10 \/ month = 11
  \/ month = 12.
Proof. lia. Qed.

Ltac each_month H :=
  apply month_cases in H;
  destruct H as [-> | [-> | [-> | [-> | [-> | [-> | [-> | [-> | [-> | [-> |
                [-> | ->]]]]]]]]]]].

Ltac nth_value :=
  match goal with
  | |- context [nth ?i ?l ?d] =>
      let v := eval vm_compute in (nth i l d) in change (nth i l d) with v
  end.

Lemma getDaysInMonth_range year month :
  1 <= month <= 12 ->
  exists n, getDaysInMonth year month = Some n /\ 28 <= n <= 31.
Proof.
  intros H. unfold getDaysInMonth. each_month H;
    destruct (isLeapYear year); cbn; eexists; (split; [reflexivity | lia]).
Qed.

Lemma getDayOfYear_cases year month day :
  1 <= month <= 12 ->
  let leap := if isLeapYear year then 1 else 0 in
  getDayOfYear year month day
  = Some (day + nth (Z.to_nat (month - 1))
                  [0; 31; 59 + leap; 90 + leap; 120 + leap; 151 + leap;
                   181 + leap; 212 + leap; 243 + leap; 273 + leap;
                   304 + leap; 334 + leap] 0).
Proof.
  intros H leap. subst leap. unfold getDayOfYear, getDaysInMonth.
  each_month H; destruct (isLeapYear year);
    match goal with
    | |- plus ?f _ = Some (_ + ?c) =>
        let v := eval vm_compute in f in
        let w := eval vm_compute in c in
        change f with v; change c with w
    end; unfold plus; f_equal; lia.
Qed.

(** X21.  For a day of a month of a year, [getDayOfYear] is a number from
    1 to [getDaysInYear]: 1 for January 1st and [getDaysInYear] for
    December 31st, so that the twelve month lengths add up to the length
    of the year. *)
Theorem getDayOfYear_range year month day :
  validDate year month day ->
  exists k, getDayOfYear year month day = Some k
    /\ 1 <= k <= getDaysInYear year
    /\ (month = 1 /\ day = 1 -> k = 1)
    /\ (month = 12 /\ day = 31 -> k = getDaysInYear year).
Proof.
  intros (n & Hn & Hm & Hd).
  rewrite (getDayOfYear_cases year month day Hm). eexists. split; [reflexivity |].
  unfold getDaysInYear. unfold getDaysInMonth in Hn.
  each_month Hm; destruct (isLeapYear year); vm_compute in Hn;
    injection Hn as <-; nth_value; lia.
Qed.

Lemma getDayOfYear_range_witness :
  exists k, getDayOfYear 2024 12 31 = Some k /\ 1 <= k <= getDaysInYear 2024.
Proof.
  destruct (getDayOfYear_range 2024 12 31) as (k & Hk & Hr & _).
  - exists 31. split; [reflexivity | lia].
  - exists k. split; [exact Hk | exact Hr].
Defined.

(** X22.  [getDayOfYear] grows with the date: of two days of one year the
    later one has the greater number, so no two days share one. *)
Theorem getDayOfYear_monotone year month1 day1 month2 day2 :
  validDate year month1 day1 ->
  validDate year month2 day2 ->
  month1 < month2 \/ (month1 = month2 /\ day1 < day2) ->
  exists k1 k2,
    getDayOfYear year month1 day1 = Some k1
    /\ getDayOfYear year month2 day2 = Some k2
    /\ k1 < k2.
Proof.
  intros (n1 & Hn1 & Hm1 & Hd1) (n2 & Hn2 & Hm2 & Hd2) Hlt.
  rewrite (getDayOfYear_cases year month1 day1 Hm1).
  rewrite (getDayOfYear_cases year month2 day2 Hm2).
  eexists _, _. split; [reflexivity |]. split; [reflexivity |].
  unfold getDaysInMonth in Hn1, Hn2.
  each_month Hm1; each_month Hm2; try lia;
    destruct (isLeapYear year); vm_compute in Hn1, Hn2;
    injection Hn1 as <-; injection Hn2 as <-; repeat nth_value; lia.
Qed.

Lemma getDayOfYear_monotone_witness :
  exists k1 k2,
    getDayOfYear 2023 2 28 = Some k1 /\ getDayOfYear 2023 3 1 = Some k2
    /\ k1 < k2.
Proof.
  apply (getDayOfYear_monotone 2023 2 28 3 1).
  - exists 28. split; [reflexivity | lia].
  - exists 31. split; [reflexivity | lia].
  - lia.
Defined.

Local Open Scope string_scope.

Lemma toString_nonneg (z : Z) :
  (0 <= z)%Z -> plain (ofZ z) = true -> toString (ofZ z) = digits (Z.to_N z).
Proof.
  intros Hz Hp. unfold ofZ, toString, plain in *. cbn [reduce canonical] in *.
  cbn [andb] in Hp. apply andb_prop in Hp as [_ Hp]. apply Z.leb_le in Hp.
  destruct (Z.eqb_spec z 0) as [-> | Hne]; [reflexivity |].
  replace (z <? 0)%Z with false by (symmetry; apply Z.ltb_ge; lia).
  unfold positiveToString. rewrite Z.abs_eq in Hp by exact Hz.
  replace (_ <=? 21)%Z with true; [reflexivity |].
  symmetry. apply Z.leb_le. lia.
Qed.

Lemma toString_negative (z : Z) :
  (0 < z)%Z -> plain (ofZ z) = true ->
  toString (ofZ (- z)) = "-" ++ digits (Z.to_N z).
Proof.
  intros Hz Hp. unfold ofZ, toString, plain in *. cbn [reduce canonical] in *.
  cbn [andb] in Hp. apply andb_prop in Hp as [_ Hp]. apply Z.leb_le in Hp.
  replace (- z =? 0)%Z with false by (symmetry; apply Z.eqb_neq; lia).
  replace (- z <? 0)%Z with true by (symmetry; apply Z.ltb_lt; lia).
  rewrite Z.opp_involutive.
  unfold positiveToString. rewrite Z.abs_eq in Hp by lia.
  replace (_ <=? 21)%Z with true; [reflexivity |].
  symmetry. apply Z.leb_le. lia.
Qed.

Lemma isDigit_chars a :
  isDigit a = true ->
  Regex.isSpace a = false
  /\ Ascii.eqb a "-" = false /\ Ascii.eqb a "+" = false
  /\ Ascii.eqb a "x" = false /\ Ascii.eqb a "X" = false
  /\ Ascii.eqb a "o" = false /\ Ascii.eqb a "O" = false
  /\ Ascii.eqb a "b" = false /\ Ascii.eqb a "B" = false
  /\ Ascii.eqb a "I" = false.
Proof.
  destruct a as [[] [] [] [] [] [] [] []]; try discriminate;
    intros _; repeat split.
Qed.

Lemma split_piece sep (s : string) :
  Str.forallb (fun a => negb (Ascii.eqb a sep)) s = true -> split sep s = [s].
Proof.
  induction s as [| a s IH]; [reflexivity |]. simpl. intros H.
  apply andb_prop in H as [Ha H]. apply negb_true_iff in Ha.
  now rewrite Ha, (IH H).
Qed.

Lemma split_cons sep (s t : string) :
  Str.forallb (fun a => negb (Ascii.eqb a sep)) s = true ->
  split sep (s ++ String sep t) = s :: split sep t.
Proof.
  induction s as [| a s IH]; intros H.
  - rewrite append_empty_l. simpl. now rewrite Ascii.eqb_refl.
  - rewrite append_cons. simpl in *.
    apply andb_prop in H as [Ha H]. apply negb_true_iff in Ha.
    now rewrite Ha, (IH H).
Qed.

Lemma digits_no_minus (s : string) :
  Str.forallb isDigit s = true ->
  Str.forallb (fun a => negb (Ascii.eqb a "-")) s = true.
Proof.
  apply forallb_impl. intros a Ha.
  now rewrite (proj1 (proj2 (isDigit_chars a Ha))).
Qed.

Lemma trimEnd_digits (s : string) :
  Str.forallb isDigit s = true -> trimEnd s = s.
Proof.
  induction s as [| a s IH]; [reflexivity |]. simpl. intros H.
  apply andb_prop in H as [Ha H]. rewrite (IH H).
  destruct s; [| reflexivity].
  now rewrite (proj1 (isDigit_chars a Ha)).
Qed.

Lemma trim_digits (s : string) :
  Str.forallb isDigit s = true -> trim s = s.
Proof.
  intros H. unfold trim, trimStart.
  destruct s as [| a s]; [reflexivity |].
  pose proof H as H'. simpl in H'. apply andb_prop in H' as [Ha _].
  cbn [Str.span]. rewrite (proj1 (isDigit_chars a Ha)). cbn [snd].
  now apply trimEnd_digits.
Qed.

Lemma span_all f (s : string) :
  Str.forallb f s = true -> Str.span f s = (s, "").
Proof.
  intros H. rewrite <- (append_empty_r s) at 1. now apply span_run.
Qed.

Lemma unsignedDecimal_digits (s : string) :
  s <> "" -> Str.forallb isDigit s = true ->
  unsignedDecimal s = Dec (Z.of_N (digitsValue s)) 0.
Proof.
  intros Hne H. unfold unsignedDecimal.
  replace (String.eqb s "Infinity") with false.
  2:{ destruct s as [| a s]; [congruence |]. simpl in H.
      apply andb_prop in H as [Ha _]. simpl.
      now rewrite (proj2 (proj2 (proj2 (proj2 (proj2 (proj2 (proj2 (proj2
                    (proj2 (isDigit_chars a Ha)))))))))). }
  rewrite (span_all _ _ H). rewrite append_empty_r.
  destruct s as [| a s]; [congruence |].
  cbn [Str.isEmpty andb exponentPart String.length]. unfold scaled.
  cbn [Z.of_nat Z.leb Z.compare]. f_equal. cbn [Z.sub Z.opp Z.add]. 
  change (10 ^ 0)%Z with 1%Z. lia.
Qed.

Lemma stringToNumber_digits (s : string) :
  s <> "" -> Str.forallb isDigit s = true ->
  stringToNumber s = Dec (Z.of_N (digitsValue s)) 0.
Proof.
  intros Hne H. unfold stringToNumber. rewrite (trim_digits s H).
  rewrite <- (unsignedDecimal_digits s Hne H).
  destruct s as [| a s]; [congruence |].
  pose proof H as H'. simpl in H'. apply andb_prop in H' as [Ha Hs].
  destruct (isDigit_chars a Ha) as (_ & Hm & Hp & _).
  destruct s as [| c t].
  - destruct a as [[] [] [] [] [] [] [] []]; try reflexivity; discriminate.
  - simpl in Hs. apply andb_prop in Hs as [Hc _].
    destruct (isDigit_chars c Hc) as (_ & _ & _ & -> & -> & -> & -> & -> & -> & _).
    cbn [orb].
    destruct a as [[] [] [] [] [] [] [] []]; try reflexivity; discriminate.
Qed.

Lemma padStart_digits (s : string) :
  s <> "" -> Str.forallb isDigit s = true ->
  padStart 2 "0" s <> ""
  /\ Str.forallb isDigit (padStart 2 "0" s) = true
  /\ digitsValue (padStart 2 "0" s) = digitsValue s.
Proof.
  intros Hne H. unfold padStart. split; [| split].
  - destruct (Str.replicate _ _); [| discriminate].
    now rewrite append_empty_l.
  - rewrite forallb_append, H, forallb_replicate; reflexivity.
  - apply digitsValue_zeros.
Qed.

Lemma parseDate_parts (Y M D : string) :
  Str.forallb (fun a => negb (Ascii.eqb a "-")) Y = true ->
  Str.forallb (fun a => negb (Ascii.eqb a "-")) M = true ->
  Str.forallb (fun a => negb (Ascii.eqb a "-")) D = true ->
  parseDate (Y ++ "-" ++ M ++ "-" ++ D)
  = {| year := Some (stringToNumber Y);
       month := Some (stringToNumber M);
       day := Some (stringToNumber D) |}.
Proof.
  intros HY HM HD. unfold parseDate.
  change ("-" ++ M ++ "-" ++ D) with (String "-" (M ++ "-" ++ D)).
  rewrite (split_cons _ _ _ HY).
  change ("-" ++ D) with (String "-" D).
  rewrite (split_cons _ _ _ HM), (split_piece _ _ HD). reflexivity.
Qed.

Lemma padded_number (z : Z) :
  (0 <= z)%Z -> plain (ofZ z) = true ->
  Str.forallb (fun a => negb (Ascii.eqb a "-"))
    (padStart 2 "0" (toString (ofZ z))) = true
  /\ stringToNumber (padStart 2 "0" (toString (ofZ z))) = ofZ z.
Proof.
  intros Hz Hp. rewrite (toString_nonneg z Hz Hp).
  destruct (padStart_digits (digits (Z.to_N z)) (digits_nonempty _)
              (digits_all_digits _)) as (Hne & Hd & Hv).
  split; [now apply digits_no_minus |].
  rewrite (stringToNumber_digits _ Hne Hd), Hv, digitsValue_digits.
  unfold ofZ. f_equal. lia.
Qed.

Lemma printed_number (z : Z) :
  (0 <= z)%Z -> plain (ofZ z) = true ->
  Str.forallb (fun a => negb (Ascii.eqb a "-")) (toString (ofZ z)) = true
  /\ stringToNumber (toString (ofZ z)) = ofZ z.
Proof.
  intros Hz Hp. rewrite (toString_nonneg z Hz Hp).
  split; [apply digits_no_minus, digits_all_digits |].
  rewrite (stringToNumber_digits _ (digits_nonempty _) (digits_all_digits _)).
  rewrite digitsValue_digits. unfold ofZ. f_equal. lia.
Qed.

(** X23.  [parseDate] undoes [formatDate] on non-negative integers that
    print without an exponent: the zero that pads a month or a day below 10
    is read away. *)
Theorem parseDate_formatDate (y m d : Z) :
  (0 <= y)%Z -> (0 <= m)%Z -> (0 <= d)%Z ->
  plain (ofZ y) = true -> plain (ofZ m) = true -> plain (ofZ d) = true ->
  parseDate (formatDate (ofZ y) (ofZ m) (ofZ d))
  = {| year := Some (ofZ y); month := Some (ofZ m); day := Some (ofZ d) |}.
Proof.
  intros Hy Hm Hd Py Pm Pd. unfold formatDate.
  destruct (printed_number y Hy Py) as [HY Yv].
  destruct (padded_number m Hm Pm) as [HM Mv].
  destruct (padded_number d Hd Pd) as [HD Dv].
  rewrite parseDate_parts by assumption.
  now rewrite Yv, Mv, Dv.
Qed.

Lemma parseDate_formatDate_witness :
  formatDate (ofZ 2024) (ofZ 3) (ofZ 15) = "2024-03-15"
  /\ parseDate (formatDate (ofZ 2024) (ofZ 3) (ofZ 15))
     = {| year := Some (ofZ 2024); month := Some (ofZ 3);
          day := Some (ofZ 15) |}.
Proof.
  split; [reflexivity |].
  apply (parseDate_formatDate 2024 3 15); try lia; reflexivity.
Defined.

(** X24.  With a negative year the minus sign is taken for a separator:
    [parseDate] reads the year 0, the year's magnitude as the month and
    the month as the day. *)
Theorem parseDate_formatDate_negative_year (y m d : Z) :
  (0 < y)%Z -> (0 <= m)%Z -> (0 <= d)%Z ->
  plain (ofZ y) = true -> plain (ofZ m) = true -> plain (ofZ d) = true ->
  parseDate (formatDate (ofZ (- y)) (ofZ m) (ofZ d))
  = {| year := Some (ofZ 0); month := Some (ofZ y); day := Some (ofZ m) |}.
Proof.
  intros Hy Hm Hd Py Pm Pd. unfold formatDate.
  destruct (padded_number m Hm Pm) as [HM Mv].
  rewrite (toString_negative y Hy Py).
  unfold parseDate.
  change ("-" ++ digits (Z.to_N y)) with (String "-" (digits (Z.to_N y))).
  rewrite append_cons.
  change (split "-" (String "-" ?s)) with ("" :: split "-" s).
  change ("-" ++ padStart 2 "0" (toString (ofZ m)) ++ "-"
          ++ padStart 2 "0" (toString (ofZ d)))
    with (String "-" (padStart 2 "0" (toString (ofZ m)) ++ "-"
                      ++ padStart 2 "0" (toString (ofZ d)))).
  rewrite split_cons by apply digits_no_minus, digits_all_digits.
  change ("-" ++ padStart 2 "0" (toString (ofZ d)))
    with (String "-" (padStart 2 "0" (toString (ofZ d)))).
  rewrite (split_cons _ _ _ HM).
  cbn [map lookup list_lookup]. rewrite Mv.
  rewrite (stringToNumber_digits _ (digits_nonempty _) (digits_all_digits _)).
  rewrite digitsValue_digits. f_equal.
  unfold ofZ. do 2 f_equal. lia.
Qed.

Lemma parseDate_formatDate_negative_year_witness :
  formatDate (ofZ (-5)) (ofZ 3) (ofZ 15) = "-5-03-15"
  /\ parseDate (formatDate (ofZ (- 5)) (ofZ 3) (ofZ 15))
     = {| year := Some (ofZ 0); month := Some (ofZ 5); day := Some (ofZ 3) |}.
Proof.
  split; [reflexivity |].
  apply (parseDate_formatDate_negative_year 5 3 15); try lia; reflexivity.
Defined.

End DateFacts.

(** ** The date ring *)

Section RingFacts.
Import JSNumber JSString DateUtils DateRing.
Local Open Scope Z_scope.

Lemma range_S first (n : nat) :
  range first (first + Z.of_nat n)
  = (range first (first + Z.of_nat n - 1) ++ [first + Z.of_nat n])%list.
Proof.
  unfold range.
  replace (Z.to_nat (first + Z.of_nat n - first + 1)) with (S n) by lia.
  replace (Z.to_nat (first + Z.of_nat n - 1 - first + 1)) with n by lia.
  rewrite seq_S, map_app. reflexivity.
Qed.

Lemma range_empty first last : last < first -> range first last = [].
Proof.
  intros H. unfold range. now replace (Z.to_nat (last - first + 1)) with 0%nat by lia.
Qed.

Lemma range_length first last :
  List.length (range first last) = Z.to_nat (last - first + 1).
Proof. unfold range. now rewrite length_map, length_seq. Qed.

Lemma in_range first last z : In z (range first last) <-> first <= z <= last.
Proof.
  unfold range. rewrite in_map_iff. split.
  - intros (i & <- & Hi). apply in_seq in Hi. lia.
  - intros H. exists (Z.to_nat (z - first)). split; [lia |].
    apply in_seq. lia.
Qed.

Lemma months_list : range 1 12 = [1; 2; 3; 4; 5; 6; 7; 8; 9; 10; 11; 12].
Proof. reflexivity. Qed.

Lemma getDaysInMonth_february year :
  getDaysInMonth year 2 = Some (if isLeapYear year then 29 else 28).
Proof. unfold getDaysInMonth. now destruct (isLeapYear year). Qed.

Lemma getDaysInMonth_other year year' month :
  month <> 2 -> getDaysInMonth year month = getDaysInMonth year' month.
Proof.
  intros H. unfold getDaysInMonth.
  now replace (month =? 2) with false by (symmetry; apply Z.eqb_neq; lia).
Qed.

(** The twelve month lengths of a cycle add up to 365 or 366, by the
    length of its February. *)
Lemma cycle_total (year : Z -> Z) :
  fold_left (fun totalDays month =>
               plus totalDays (getDaysInMonth (year month) month))
            (range 1 12) (Some 0)
  = Some (if isLeapYear (year 2) then 366 else 365).
Proof.
  rewrite months_list. cbn [fold_left].
  rewrite getDaysInMonth_february.
  change (getDaysInMonth (year 1) 1) with (Some 31).
  change (getDaysInMonth (year 3) 3) with (Some 31).
  change (getDaysInMonth (year 4) 4) with (Some 30).
  change (getDaysInMonth (year 5) 5) with (Some 31).
  change (getDaysInMonth (year 6) 6) with (Some 30).
  change (getDaysInMonth (year 7) 7) with (Some 31).
  change (getDaysInMonth (year 8) 8) with (Some 31).
  change (getDaysInMonth (year 9) 9) with (Some 30).
  change (getDaysInMonth (year 10) 10) with (Some 31).
  change (getDaysInMonth (year 11) 11) with (Some 30).
  change (getDaysInMonth (year 12) 12) with (Some 31).
  now destruct (isLeapYear (year 2)).
Qed.

Lemma calculateTotalDaysInCycle_value (r : Renderer) :
  calculateTotalDaysInCycle r
  = Some (if isLeapYear (calculateActualYear r 2 1) then 366 else 365).
Proof.
  unfold calculateTotalDaysInCycle.
  destruct (startDate r) eqn:E.
  - unfold getDaysInYear, calculateActualYear. now rewrite E.
  - apply (cycle_total (fun month => calculateActualYear r month 1)).
  - apply (cycle_total (fun month => calculateActualYear r month 1)).
Qed.

Lemma fold_left_flat_map {A B C} (f : A -> C -> A) (g : B -> list C)
    (l : list B) (a : A) :
  fold_left f (flat_map g l) a
  = fold_left (fun a b => fold_left f (g b) a) l a.
Proof.
  revert a. induction l as [| b l IH]; intros a; [reflexivity |].
  cbn [flat_map fold_left]. now rewrite fold_left_app, IH.
Qed.

Lemma fold_left_map {A B C} (f : A -> C -> A) (g : B -> C) (l : list B) a :
  fold_left f (map g l) a = fold_left (fun a b => f a (g b)) l a.
Proof.
  revert a. induction l as [| b l IH]; intros a; [reflexivity |].
  cbn [map fold_left]. apply IH.
Qed.

Lemma fold_left_ext {A B} (f g : A -> B -> A) (l : list B) a :
  (forall a b, f a b = g a b) -> fold_left f l a = fold_left g l a.
Proof.
  intros H. revert a. induction l as [| b l IH]; intros a; [reflexivity |].
  cbn [fold_left]. now rewrite H, IH.
Qed.

Lemma drawDates_fold (r : Renderer) :
  drawDates r = fold_left (drawDate r) (cycleDates r) emptyDates.
Proof.
  unfold drawDates, cycleDates. fold emptyDates. rewrite fold_left_flat_map.
  apply fold_left_ext. intros st month.
  rewrite fold_left_map. unfold drawMonth, cycleDays, drawDate. cbn [fst snd].
  now destruct (getDaysInMonth _ _).
Qed.


Lemma fold_drawDate_snoc r dates date st :
  fold_left (drawDate r) (dates ++ [date]) st
  = drawDate r (fold_left (drawDate r) dates st) date.
Proof. now rewrite fold_left_app. Qed.

Lemma fold_drawDate_dots r dates :
  let st := fold_left (drawDate r) dates emptyDates in
  currentDayOfYear st = Z.of_nat (List.length dates)
  /\ dots st = imap (dotOf r) dates.
Proof.
  induction dates as [| date dates IH] using rev_ind; [now split |].
  cbv zeta in *. rewrite fold_drawDate_snoc. destruct IH as [IHc IHd].
  set (st := fold_left (drawDate r) dates emptyDates) in *.
  unfold drawDate, drawDay.
  cbn [currentDayOfYear dots]. rewrite IHc, IHd. split.
  - rewrite length_app. simpl. lia.
  - rewrite imap_app. cbn [imap]. unfold dotOf at 3.
    now rewrite Nat.add_0_r.
Qed.

Lemma fold_drawDate_lookup r dates :
  List.NoDup (map keyOf dates) ->
  let st := fold_left (drawDate r) dates emptyDates in
  (forall i date, dates !! i = Some date ->
     dateDots st !! keyOf date = Some (dotOf r i date))
  /\ (forall key, ~ In key (map keyOf dates) -> dateDots st !! key = None).
Proof.
  induction dates as [| date dates IH] using rev_ind; intros Hnd.
  { split; [intros i date H; discriminate | intros key _; apply lookup_empty]. }
  cbv zeta in *. rewrite map_app in Hnd. cbn [map] in Hnd.
  apply NoDup_remove in Hnd as [Hnd Hnot]. rewrite app_nil_r in Hnd, Hnot.
  destruct (IH Hnd) as [IHhit IHmiss].
  rewrite fold_drawDate_snoc.
  pose proof (proj1 (fold_drawDate_dots r dates)) as Hc. cbv zeta in Hc.
  set (st := fold_left (drawDate r) dates emptyDates) in *.
  unfold drawDate, drawDay. cbn [dateDots]. rewrite Hc.
  fold (keyOf date). split.
  - intros i date' Hi.
    destruct (decide (i < List.length dates)%nat) as [Hlt | Hge].
    + rewrite lookup_app_l in Hi by exact Hlt.
      rewrite lookup_insert_ne.
      * now apply IHhit.
      * intros Heq. apply Hnot. rewrite Heq. apply in_map.
        apply list_elem_of_In. eapply list_elem_of_lookup_2; eauto.
    + rewrite lookup_app_r in Hi by lia.
      destruct (i - List.length dates)%nat as [| n] eqn:En; [| discriminate].
      injection Hi as <-. rewrite lookup_insert_eq.
      unfold dotOf. do 2 f_equal. lia.
  - intros key Hkey. rewrite map_app, in_app_iff in Hkey.
    rewrite lookup_insert_ne.
    + apply IHmiss. tauto.
    + intros <-. apply Hkey. right. now left.
Qed.

Lemma cycleDates_cases (r : Renderer) :
  cycleDates r
  = cycleDates {| currentYear :=
                    if isLeapYear (calculateActualYear r 2 1) then 2024 else 2023;
                  startDate := NoStart |}.
Proof.
  unfold cycleDates. rewrite months_list. cbn [flat_map].
  unfold cycleDays. rewrite !getDaysInMonth_february.
  change (calculateActualYear
            {| currentYear := ?y; startDate := NoStart |} 2 1) with y.
  replace (isLeapYear (if isLeapYear (calculateActualYear r 2 1)
                       then 2024 else 2023))
    with (isLeapYear (calculateActualYear r 2 1))
    by now destruct (isLeapYear (calculateActualYear r 2 1)).
  reflexivity.
Qed.

Lemma cycleDates_NoDup (r : Renderer) :
  List.NoDup (map keyOf (cycleDates r)).
Proof.
  rewrite cycleDates_cases.
  destruct (isLeapYear (calculateActualYear r 2 1));
    match goal with
    | |- List.NoDup ?l =>
        assert (H : nodup string_dec l = l) by (vm_compute; reflexivity);
        rewrite <- H; apply List.NoDup_nodup
    end.
Qed.

Lemma in_cycleDates (r : Renderer) month day :
  In (month, day) (cycleDates r) <->
  1 <= month <= 12
  /\ exists n, getDaysInMonth (calculateActualYear r month 1) month = Some n
               /\ 1 <= day <= n.
Proof.
  unfold cycleDates, cycleDays. rewrite in_flat_map. split.
  - intros (m & Hm & Hin). apply in_range in Hm.
    apply in_map_iff in Hin as (d & [= <- <-] & Hd).
    split; [exact Hm |].
    destruct (getDaysInMonth _ _) as [n |]; [| destruct Hd].
    exists n. split; [reflexivity |]. now apply in_range.
  - intros (Hm & n & Hn & Hd). exists month. split; [now apply in_range |].
    rewrite Hn. apply in_map. now apply in_range.
Qed.

Lemma small_plain (z : Z) : 0 <= z <= 31 -> plain (ofZ z) = true.
Proof.
  intros H.
  assert (Hz : z = Z.of_nat (Z.to_nat z)) by lia. rewrite Hz.
  assert (Hn : (Z.to_nat z < 32)%nat) by lia.
  revert Hn. generalize (Z.to_nat z). intros n Hn.
  do 32 (destruct n as [| n]; [reflexivity |]). lia.
Qed.

Lemma dots_lookup (r : Renderer) i dot :
  dots (drawDates r) !! i = Some dot <->
  exists date, cycleDates r !! i = Some date /\ dot = dotOf r i date.
Proof.
  rewrite drawDates_fold.
  rewrite (proj2 (fold_drawDate_dots r (cycleDates r))).
  rewrite list_lookup_imap. split.
  - destruct (cycleDates r !! i) as [date |]; [| discriminate].
    intros [= <-]. now exists date.
  - intros (date & -> & ->). reflexivity.
Qed.

Lemma cycleDates_length (r : Renderer) :
  Z.of_nat (List.length (cycleDates r))
  = if isLeapYear (calculateActualYear r 2 1) then 366 else 365.
Proof.
  rewrite cycleDates_cases.
  now destruct (isLeapYear (calculateActualYear r 2 1)).
Qed.

Lemma fold_drawDate_size r dates :
  List.NoDup (map keyOf dates) ->
  size (dateDots (fold_left (drawDate r) dates emptyDates)) = List.length dates.
Proof.
  induction dates as [| date dates IH] using rev_ind; intros Hnd;
    [apply map_size_empty |].
  rewrite map_app in Hnd. cbn [map] in Hnd.
  apply NoDup_remove in Hnd as [Hnd Hnot]. rewrite app_nil_r in Hnd, Hnot.
  rewrite fold_drawDate_snoc.
  pose proof (proj2 (fold_drawDate_lookup r dates Hnd) _ Hnot) as Hmiss.
  cbv zeta in Hmiss. specialize (IH Hnd).
  set (st := fold_left (drawDate r) dates emptyDates) in *.
  unfold drawDate, drawDay. cbn [dateDots]. fold (keyOf date).
  rewrite map_size_insert_None by exact Hmiss.
  rewrite IH, length_app. simpl. lia.
Qed.

(** X25.  [drawDates] draws as many dots as [calculateTotalDaysInCycle]
    counts, 365 or 366, whatever the start date is; the dots are numbered
    1, 2, 3, ... in the order they are drawn, and the map [dateDots] has
    one entry for each of them. *)
Theorem drawDates_count (r : Renderer) :
  let st := drawDates r in
  exists total,
    calculateTotalDaysInCycle r = Some total
    /\ (total = 365 \/ total = 366)
    /\ currentDayOfYear st = total
    /\ Z.of_nat (List.length (dots st)) = total
    /\ size (dateDots st) = List.length (dots st)
    /\ (forall i dot, dots st !! i = Some dot ->
          dataDayOfYear dot = Z.of_nat i + 1).
Proof.
  intros st. exists (if isLeapYear (calculateActualYear r 2 1) then 366 else 365).
  split; [apply calculateTotalDaysInCycle_value |].
  split; [destruct (isLeapYear _); auto |].
  subst st. rewrite drawDates_fold.
  destruct (fold_drawDate_dots r (cycleDates r)) as [Hc Hd].
  cbv zeta in Hc, Hd. rewrite Hc, Hd, length_imap.
  rewrite (fold_drawDate_size r _ (cycleDates_NoDup r)).
  split; [apply cycleDates_length |]. split; [apply cycleDates_length |].
  split; [reflexivity |].
  intros i dot Hi. rewrite list_lookup_imap in Hi.
  destruct (cycleDates r !! i); [| discriminate].
  now injection Hi as <-.
Qed.

Lemma drawDates_count_witness :
  let r := {| currentYear := 2023; startDate := Start 3 1 |} in
  exists total,
    calculateTotalDaysInCycle r = Some total
    /\ Z.of_nat (List.length (dots (drawDates r))) = total.
Proof.
  intros r.
  destruct (drawDates_count r) as (total & H1 & _ & _ & H2 & _).
  exists total. split; [exact H1 | exact H2].
Defined.

Lemma calculateActualYear_cases (r : Renderer) month day :
  calculateActualYear r month day = currentYear r
  \/ calculateActualYear r month day = currentYear r + 1.
Proof.
  unfold calculateActualYear. destruct (startDate r); auto.
  destruct (_ || _); auto.
Qed.

Lemma february_year (r : Renderer) day :
  februaryAligned r -> 1 <= day ->
  isLeapYear (calculateActualYear r 2 day)
  = isLeapYear (calculateActualYear r 2 1).
Proof.
  unfold februaryAligned, calculateActualYear. intros Hal Hd.
  destruct (startDate r) as [| | startMonth startDay]; try reflexivity.
  destruct (Z.eq_dec startMonth 2) as [-> | Hne].
  - change (2 <? 2) with false. change (2 =? 2) with true. cbn [orb andb].
    destruct Hal as [Hs | Hl].
    + replace (startDay <=? day) with true by (symmetry; apply Z.leb_le; lia).
      now replace (startDay <=? 1) with true by (symmetry; apply Z.leb_le; lia).
    + destruct (startDay <=? day), (startDay <=? 1); congruence.
  - replace (2 =? startMonth) with false by (symmetry; apply Z.eqb_neq; lia).
    reflexivity.
Qed.

(** X26.  Every dot carries a date that exists (its day is a day of its
    month in its year) in the current year or the next one, provided the
    length of February and the years of its dots agree: the cycle does not
    start inside February after the 1st, or the current year and the next
    are both leap years or both not. *)
Theorem dot_dates_valid (r : Renderer) (dot : DateDot) :
  februaryAligned r ->
  In dot (dots (drawDates r)) ->
  validDate (dataYear dot) (dataMonth dot) (dataDay dot)
  /\ (dataYear dot = currentYear r \/ dataYear dot = currentYear r + 1).
Proof.
  intros Hal Hin. apply list_elem_of_In, list_elem_of_lookup_1 in Hin as [i Hi].
  apply dots_lookup in Hi as ([month day] & Hdate & ->).
  apply list_elem_of_lookup_2, list_elem_of_In, in_cycleDates in Hdate
    as (Hm & n & Hn & Hd).
  unfold dotOf, dateDot. cbn [fst snd dataYear dataMonth dataDay].
  split; [| apply calculateActualYear_cases].
  exists n. split; [| now split].
  destruct (Z.eq_dec month 2) as [-> | Hne].
  - rewrite getDaysInMonth_february in *.
    now rewrite february_year by (assumption || lia).
  - now rewrite (getDaysInMonth_other _ (calculateActualYear r month 1)).
Qed.

Lemma dot_dates_valid_witness :
  let r := {| currentYear := 2023; startDate := Start 3 15 |} in
  validDate 2024 2 29 /\ In (dateDot r 2 29 60) (dots (drawDates r)).
Proof.
  intros r.
  assert (Hin : In (dateDot r 2 29 60) (dots (drawDates r))).
  { apply list_elem_of_In. apply (list_elem_of_lookup_2 _ 59%nat).
    vm_compute. reflexivity. }
  split; [| exact Hin].
  exact (proj1 (dot_dates_valid r (dateDot r 2 29 60) I Hin)).
Defined.

(** The sharpness of the condition: a cycle that starts on February 15th
    of 2023 takes the length of its February from 2024 and labels the 29th
    with 2023. *)
Lemma dot_dates_invalid_example :
  let r := {| currentYear := 2023; startDate := Start 2 15 |} in
  In (dateDot r 2 29 60) (dots (drawDates r))
  /\ dataDate (dateDot r 2 29 60) = "2023-02-29"%string
  /\ getDaysInMonth 2023 2 = Some 28.
Proof.
  intros r. split; [| split; reflexivity].
  apply list_elem_of_In. apply (list_elem_of_lookup_2 _ 59%nat).
  vm_compute. reflexivity.
Qed.

(** X27.  A record made for a dot finds the dot again: for every dot of
    the ring, in a year that prints without an exponent, [parseDate] reads
    the dot's year, month and day out of its [data-date], and the key
    [`${month}-${day}`] of the parsed month and day leads to this very dot
    in [dateDots]. *)
Theorem record_date_finds_dot (r : Renderer) (dot : DateDot) :
  0 <= currentYear r ->
  plain (ofZ (currentYear r)) = true ->
  plain (ofZ (currentYear r + 1)) = true ->
  In dot (dots (drawDates r)) ->
  let date := parseDate (dataDate dot) in
  year date = Some (ofZ (dataYear dot))
  /\ month date = Some (ofZ (dataMonth dot))
  /\ day date = Some (ofZ (dataDay dot))
  /\ dateDots (drawDates r) !! dateKey (month date) (day date) = Some dot.
Proof.
  intros Hy Hp Hp' Hin date.
  apply list_elem_of_In, list_elem_of_lookup_1 in Hin as [i Hi].
  apply dots_lookup in Hi as ([m d] & Hdate & ->).
  pose proof Hdate as Hin.
  apply list_elem_of_lookup_2, list_elem_of_In, in_cycleDates in Hin
    as (Hm & n & Hn & Hd).
  destruct (getDaysInMonth_range (calculateActualYear r m 1) m Hm)
    as (n' & Hn' & Hr).
  assert (n' = n) by congruence. subst n'.
  assert (Hparse : date = {| year := Some (ofZ (calculateActualYear r m d));
                             month := Some (ofZ m); day := Some (ofZ d) |}).
  { subst date. unfold dotOf, dateDot, formatDate. cbn [fst snd dataDate].
    destruct (printed_number (calculateActualYear r m d)) as [HY Yv].
    { destruct (calculateActualYear_cases r m d) as [-> | ->]; lia. }
    { destruct (calculateActualYear_cases r m d) as [-> | ->]; assumption. }
    destruct (padded_number m) as [HM Mv]; [lia | apply small_plain; lia |].
    destruct (padded_number d) as [HD Dv]; [lia | apply small_plain; lia |].
    rewrite parseDate_parts by assumption.
    now rewrite Yv, Mv, Dv. }
  rewrite Hparse. cbn [year month day].
  unfold dotOf at 1 2 3. unfold dateDot. cbn [fst snd dataYear dataMonth dataDay].
  repeat split.
  rewrite drawDates_fold.
  exact (proj1 (fold_drawDate_lookup r _ (cycleDates_NoDup r)) i (m, d) Hdate).
Qed.

Lemma record_date_finds_dot_witness :
  let r := {| currentYear := 2024; startDate := NoStart |} in
  dateDots (drawDates r) !! "3-15"%string = Some (dateDot r 3 15 75).
Proof.
  intros r.
  assert (Hin : In (dateDot r 3 15 75) (dots (drawDates r))).
  { apply list_elem_of_In. apply (list_elem_of_lookup_2 _ 74%nat).
    vm_compute. reflexivity. }
  pose proof (record_date_finds_dot r (dateDot r 3 15 75)) as H.
  cbv zeta in H.
  destruct H as (_ & _ & _ & H); [cbn; lia | reflexivity | reflexivity | exact Hin |].
  vm_compute in H. vm_compute. exact H.
Defined.

End RingFacts.

Section RingGeometry.
Import Geometry MathUtils DateRing.
Local Open Scope R_scope.

(** X28.  Over the reals, [getPointOnCircle] returns a point at distance
    [|radius|] from the centre, for every angle. *)
Theorem getPointOnCircle_on_circle (centerX centerY radius angle : R) :
  let p := getPointOnCircle centerX centerY radius angle in
  (x p - centerX) ^ 2 + (y p - centerY) ^ 2 = radius ^ 2
  /\ dist p (mkPoint centerX centerY) = Rabs radius.
Proof.
  intros p. subst p. unfold getPointOnCircle. cbn [x y].
  set (t := degreesToRadians angle).
  assert (H : (centerX + radius * cos t - centerX) ^ 2
              + (centerY + radius * sin t - centerY) ^ 2 = radius ^ 2).
  { pose proof (sin2_cos2 t) as Hs. unfold Rsqr in Hs. nra. }
  split; [exact H |].
  unfold dist. cbn [x y]. rewrite H.
  replace (radius ^ 2) with (Rsqr radius) by (unfold Rsqr; lra).
  apply sqrt_Rsqr_abs.
Qed.

(** X29.  The angles of the dots of a cycle grow with the day number, from
    -90 degrees for day 1, which is drawn straight above the centre, and
    stay below 270 degrees: the ring is gone round once and no two dots
    have the same angle. *)
Theorem dotAngle_spread (yearDays k1 k2 : Z) :
  (1 <= k1)%Z -> (k1 < k2)%Z -> (k2 <= yearDays)%Z ->
  -90 <= dotAngle k1 yearDays
  /\ dotAngle k1 yearDays < dotAngle k2 yearDays
  /\ dotAngle k2 yearDays < 270
  /\ dotAngle 1 yearDays = -90
  /\ (forall centerX centerY dateRadius,
        dotPosition centerX centerY dateRadius 1 yearDays
        = mkPoint centerX (centerY - dateRadius)).
Proof.
  intros H1 H12 H2. unfold dotAngle.
  assert (Hn : 0 < IZR yearDays) by (apply IZR_lt; lia).
  assert (Ha : 0 <= IZR (k1 - 1)) by (apply IZR_le; lia).
  assert (Hb : IZR (k1 - 1) < IZR (k2 - 1)) by (apply IZR_lt; lia).
  assert (Hc : IZR (k2 - 1) < IZR yearDays) by (apply IZR_lt; lia).
  assert (Hi : 0 < / IZR yearDays) by now apply Rinv_0_lt_compat.
  unfold Rdiv.
  assert (Hq1 : 0 <= IZR (k1 - 1) * / IZR yearDays) by nra.
  assert (Hq2 : IZR (k1 - 1) * / IZR yearDays < IZR (k2 - 1) * / IZR yearDays)
    by nra.
  assert (Hq3 : IZR (k2 - 1) * / IZR yearDays < 1).
  { apply (Rmult_lt_reg_r (IZR yearDays)); [exact Hn |].
    rewrite Rmult_assoc, Rinv_l by lra. lra. }
  split; [lra |]. split; [lra |]. split; [lra |].
  assert (H0 : IZR (1 - 1) * / IZR yearDays * 360 - 90 = -90).
  { change (1 - 1)%Z with 0%Z. lra. }
  split; [exact H0 |].
  intros centerX centerY dateRadius.
  unfold dotPosition, getPointOnCircle, degreesToRadians, dotAngle, Rdiv.
  rewrite H0.
  replace (-90 * (PI * / 180)) with (- (PI / 2)) by lra.
  rewrite cos_neg, sin_neg, cos_PI2, sin_PI2. f_equal; lra.
Qed.

Lemma dotAngle_spread_witness :
  dotAngle 1 365 < dotAngle 365 365 /\ dotAngle 365 365 < 270.
Proof.
  destruct (dotAngle_spread 365 1 365) as (_ & H1 & H2 & _); try lia.
  split; assumption.
Defined.

End RingGeometry.
